(** * rss-amplifier: the feed scheduler

    A shallow embedding of [FeedScheduler] (feed-scheduler.js) and of
    the id derivation it shares with [FeedManager] (feed-manager.js),
    with the properties of its job lifecycle and retry logic.

    Conventions of the embedding.
    - A JavaScript string is its UTF-8 byte sequence, a Rocq [string].
    - A JavaScript number is an integer [Z], or [JNaN]; times are
      milliseconds since the epoch.  Integers are exact: the rounding
      of doubles beyond 2^53 is not represented.
    - A plain JavaScript object (an options bag, a schedule record) is a
      finite map from property names to values; a missing property
      reads as [JUndefined].
    - The two [Map]s of the scheduler are finite maps keyed by feed id;
      their insertion order is not represented.
    - Every asynchronous method is followed in isolation: no other
      scheduler method runs at its suspension points.  The clock is read
      once for each synchronous block.
    - The collaborators are not modelled: what [importRSSFeed] and the
      Feed Store answer is an argument of the method that calls them,
      and the calls made to the Feed Store are logged.  Writing the
      state file is counted; console output is left out. *)

From Stdlib Require Import ZArith NArith Ascii String List Bool Lia.
From Stdlib Require Import DecimalString DecimalNat.
From stdpp Require Import base option list gmap strings fin_maps.

Local Open Scope string_scope.
Local Open Scope Z_scope.

(** ** Base64 and feed ids *)

Module Base64.

Definition alphabet : list ascii :=
  list_ascii_of_string
    "ABCDEFGHIJKLMNOPQRSTUVWXYZabcdefghijklmnopqrstuvwxyz0123456789+/".

(** The character of a six-bit group. *)
Definition digit (n : N) : ascii :=
  nth (N.to_nat n) alphabet "="%char.

(** [Buffer.toString('base64')]: three bytes give four characters, a
    last group of one or two bytes is padded with [=]. *)
Fixpoint encode_bytes (bs : list N) : list ascii :=
  match bs with
  | [] => []
  | [a] =>
      [ digit (N.shiftr a 2);
        digit (N.shiftl (N.land a 3) 4);
        "="%char; "="%char ]
  | [a; b] =>
      [ digit (N.shiftr a 2);
        digit (N.lor (N.shiftl (N.land a 3) 4) (N.shiftr b 4));
        digit (N.shiftl (N.land b 15) 2);
        "="%char ]
  | a :: b :: c :: rest =>
      digit (N.shiftr a 2)
      :: digit (N.lor (N.shiftl (N.land a 3) 4) (N.shiftr b 4))
      :: digit (N.lor (N.shiftl (N.land b 15) 2) (N.shiftr c 6))
      :: digit (N.land c 63)
      :: encode_bytes rest
  end.

Definition encode (s : string) : string :=
  string_of_list_ascii
    (encode_bytes (map N_of_ascii (list_ascii_of_string s))).

End Base64.

(** The character class [a-zA-Z0-9]. *)
Definition is_alnum (c : ascii) : bool :=
  let n := N_of_ascii c in
  ((48 <=? n) && (n <=? 57) || (65 <=? n) && (n <=? 90)
   || (97 <=? n) && (n <=? 122))%N.

(** [s.replace(/[^a-zA-Z0-9]/g, '')] *)
Definition strip_non_alnum (s : string) : string :=
  string_of_list_ascii (filter (fun c => is_alnum c = true) (list_ascii_of_string s)).

(** [FeedScheduler.generateFeedId]:
    [Buffer.from(url).toString('base64').replace(/[^a-zA-Z0-9]/g, '')] *)
Definition generateFeedId (url : string) : string :=
  strip_non_alnum (Base64.encode url).

(** [FeedManager.generateFeedId], the Feed Store's copy of the same
    expression. *)
Definition FeedManager_generateFeedId (url : string) : string :=
  strip_non_alnum (Base64.encode url).

(** ** JavaScript values *)

Inductive jsval : Type :=
  | JUndefined
  | JNull
  | JBool (b : bool)
  | JNum (n : Z)
  | JNaN
  | JStr (s : string).

#[global] Instance jsval_eq_dec : EqDecision jsval.
Proof. solve_decision. Defined.

(** An object with its own enumerable properties. *)
Abbreviation jsobj := (gmap string jsval).

(** Property read [o.k]. *)
Definition get (o : jsobj) (k : string) : jsval :=
  default JUndefined (o !! k).

(** ToBoolean *)
Definition truthy (v : jsval) : bool :=
  match v with
  | JUndefined | JNull | JNaN => false
  | JBool b => b
  | JNum n => negb (n =? 0)
  | JStr s => negb (String.eqb s "")
  end.

(** [a || b] *)
Definition js_or (a b : jsval) : jsval := if truthy a then a else b.

(** [a || b] for an optional numeric option [a] and a number [b]. *)
Definition or_num (a : option Z) (b : Z) : Z :=
  match a with
  | Some n => if n =? 0 then b else n
  | None => b
  end.

(** A [Date] object: a time value, or the invalid date. *)
Inductive jsdate : Type :=
  | Date (t : Z)
  | InvalidDate.

Definition max_time : Z := 8640000000000000.

(** [new Date(v)] for a number [v] ([None] is NaN). *)
Definition new_Date (v : option Z) : jsdate :=
  match v with
  | Some t => if Z.abs t <=? max_time then Date t else InvalidDate
  | None => InvalidDate
  end.

(** Outcome of an expression that may throw. *)
Inductive completion (A : Type) : Type :=
  | Normal (a : A)
  | Throw (message : string).
Arguments Normal {A} a.
Arguments Throw {A} message.

(** *** Date.prototype.toISOString *)

Module Iso.

(** [width] decimal digits of [n], most significant first. *)
Fixpoint pad (width : nat) (n : Z) : list ascii :=
  match width with
  | O => []
  | S w => pad w (n / 10) ++ [ascii_of_N (Z.to_N (48 + n mod 10))]
  end.

(** Year, month and day of a day number counted from 1970-01-01. *)
Definition civil (days : Z) : Z * Z * Z :=
  let z := days + 719468 in
  let era := z / 146097 in
  let doe := z - era * 146097 in
  let yoe := (doe - doe / 1460 + doe / 36524 - doe / 146096) / 365 in
  let doy := doe - (365 * yoe + yoe / 4 - yoe / 100) in
  let mp := (5 * doy + 2) / 153 in
  let d := doy - (153 * mp + 2) / 5 + 1 in
  let m := if mp <? 10 then mp + 3 else mp - 9 in
  let y := yoe + era * 400 + (if m <=? 2 then 1 else 0) in
  (y, m, d).

Definition year (y : Z) : list ascii :=
  if (0 <=? y) && (y <=? 9999) then pad 4 y
  else (if y <? 0 then "-"%char else "+"%char) :: pad 6 (Z.abs y).

(** The text of a valid time value: [YYYY-MM-DDTHH:mm:ss.sssZ]. *)
Definition format (t : Z) : string :=
  let '(y, m, d) := civil (t / 86400000) in
  let ms := t mod 86400000 in
  string_of_list_ascii
    (year y ++ "-"%char :: pad 2 m ++ "-"%char :: pad 2 d
     ++ "T"%char :: pad 2 (ms / 3600000)
     ++ ":"%char :: pad 2 (ms / 60000 mod 60)
     ++ ":"%char :: pad 2 (ms / 1000 mod 60)
     ++ "."%char :: pad 3 (ms mod 1000) ++ ["Z"%char]).

End Iso.

(** [d.toISOString()] *)
Definition toISOString (d : jsdate) : completion jsval :=
  match d with
  | Date t => Normal (JStr (Iso.format t))
  | InvalidDate => Throw "Invalid time value"
  end.

(** *** String helpers *)

Module Str.

(** [s.split(sep)] for a one-character separator. *)
Fixpoint split_on (sep : ascii) (cur : list ascii) (s : list ascii)
  : list (list ascii) :=
  match s with
  | [] => [rev cur]
  | c :: rest =>
      if Ascii.eqb c sep then rev cur :: split_on sep [] rest
      else split_on sep (c :: cur) rest
  end.

Definition split (sep : ascii) (s : string) : list string :=
  map string_of_list_ascii (split_on sep [] (list_ascii_of_string s)).

(** [s.split(' ')[i]] where the element exists. *)
Definition field (i : nat) (s : string) : string :=
  nth i (split " "%char s) "".

(** [s.substring(n)] on a string whose first [n] characters are ASCII. *)
Definition substring_from (n : nat) (s : string) : string :=
  string_of_list_ascii (drop n (list_ascii_of_string s)).

(** [errors.join(', ')] *)
Definition join (sep : string) (l : list string) : string :=
  String.concat sep l.

End Str.

(** *** parseInt *)

Module ParseInt.

(** Leading white space as [parseInt] trims it: the ASCII characters
    TAB, LF, VT, FF, CR and SP, and the UTF-8 encodings of U+00A0,
    U+1680, U+2000..U+200A, U+2028, U+2029, U+202F, U+205F, U+3000
    and U+FEFF. *)
Fixpoint skip_ws (fuel : nat) (bs : list N) : list N :=
  match fuel with
  | O => bs
  | S fuel' =>
      match bs with
      | (9 | 10 | 11 | 12 | 13 | 32)%N :: r => skip_ws fuel' r
      | 194%N :: 160%N :: r => skip_ws fuel' r
      | 225%N :: 154%N :: 128%N :: r => skip_ws fuel' r
      | 226%N :: 128%N :: c :: r =>
          if ((128 <=? c) && (c <=? 138) || (c =? 168) || (c =? 169)
              || (c =? 175))%N
          then skip_ws fuel' r else bs
      | 226%N :: 129%N :: 159%N :: r => skip_ws fuel' r
      | 227%N :: 128%N :: 128%N :: r => skip_ws fuel' r
      | 239%N :: 187%N :: 191%N :: r => skip_ws fuel' r
      | _ => bs
      end
  end.

(** Value of a digit in the given radix. *)
Definition digit_value (radix : Z) (c : N) : option Z :=
  let v :=
    if ((48 <=? c) && (c <=? 57))%N then Some (Z.of_N c - 48)
    else if ((97 <=? c) && (c <=? 122))%N then Some (Z.of_N c - 87)
    else if ((65 <=? c) && (c <=? 90))%N then Some (Z.of_N c - 55)
    else None in
  match v with
  | Some d => if d <? radix then Some d else None
  | None => None
  end.

(** The longest prefix of digits, read left to right. *)
Fixpoint digits (radix : Z) (acc : option Z) (bs : list N) : option Z :=
  match bs with
  | [] => acc
  | c :: r =>
      match digit_value radix c with
      | Some d => digits radix (Some (default 0 acc * radix + d)) r
      | None => acc
      end
  end.

Definition strip_sign (bs : list N) : Z * list N :=
  match bs with
  | 45%N :: r => (-1, r)
  | 43%N :: r => (1, r)
  | _ => (1, bs)
  end.

Definition strip_hex (bs : list N) : Z * list N :=
  match bs with
  | 48%N :: (120 | 88)%N :: r => (16, r)
  | _ => (10, bs)
  end.

(** [parseInt(s)]; [None] is NaN. *)
Definition parseInt (s : string) : option Z :=
  let bs := map N_of_ascii (list_ascii_of_string s) in
  let '(sign, bs1) := strip_sign (skip_ws (length bs) bs) in
  let '(radix, bs2) := strip_hex bs1 in
  option_map (Z.mul sign) (digits radix None bs2).

End ParseInt.

(** *** Arithmetic on whole numbers

    A number is a double.  Every whole number up to [2^53] in magnitude
    is one; a sum beyond that is rounded to the nearest double, a tie
    going to the even significand (below the largest double). *)
Definition nearest_double (x : Z) : Z :=
  let a := Z.abs x in
  if a <=? 2 ^ 53 then x
  else
    let ulp := 2 ^ (Z.log2 a - 52) in
    let q := a / ulp in
    let r := a mod ulp in
    let q' := if 2 * r <? ulp then q
              else if ulp <? 2 * r then q + 1
              else if Z.even q then q else q + 1 in
    Z.sgn x * (q' * ulp).

(** ** The host: node-cron and the built-ins that are not modelled *)

Class Runtime : Type := {
  (** [cron.validate(e)]; [cron.schedule(e, ...)] throws exactly when it
      is false. *)
  cron_validate : string -> bool;
  (** The local midnight that follows a time:
      [setDate(getDate() + 1); setHours(0, 0, 0, 0)]. *)
  next_local_midnight : Z -> Z;
  (** ToNumber on a string, where the result is an integer or NaN. *)
  string_to_number : string -> jsval;
}.

Section WithRuntime.
Context `{RT : Runtime}.

(** ToNumber *)
Definition to_number (v : jsval) : jsval :=
  match v with
  | JUndefined | JNaN => JNaN
  | JNull => JNum 0
  | JBool b => JNum (if b then 1 else 0)
  | JNum n => JNum n
  | JStr s => match string_to_number s with JNum n => JNum n | _ => JNaN end
  end.

(** The value stored by [x++]: the double nearest to [x + 1]. *)
Definition js_incr (v : jsval) : jsval :=
  match to_number v with
  | JNum n => JNum (nearest_double (n + 1))
  | _ => JNaN
  end.

(** *** validateCronExpression *)

Record validation : Type := {
  valid : bool;
  errors : list string;
}.

Definition validation_of (errs : list string) : validation :=
  {| valid := Nat.eqb (length errs) 0; errors := errs |}.

Definition validateCronExpression (expression : jsval) : validation :=
  if negb (truthy expression) then
    {| valid := false;
       errors := ["Cron expression is required and must be a string"] |}
  else
    match expression with
    | JStr e =>
        validation_of
          (if cron_validate e then []
           else ["Invalid cron expression format"])
    | _ =>
        {| valid := false;
           errors := ["Cron expression is required and must be a string"] |}
    end.

(** *** getNextRunTime

    A string is matched against the three shapes; any other string
    falls back to thirty minutes; a value that is not a string makes
    [startsWith] throw, which the function catches: one hour. *)
Definition getNextRunTime (cronExpression : jsval) (now : Z) : jsdate :=
  match cronExpression with
  | JStr e =>
      if String.prefix "*/" e then
        let minutes := ParseInt.parseInt (Str.substring_from 2 (Str.field 0 e)) in
        new_Date (option_map (fun m => now + m * 60000) minutes)
      else if String.prefix "0 */" e then
        let hours := ParseInt.parseInt (Str.substring_from 2 (Str.field 1 e)) in
        new_Date (option_map (fun h => now + h * 3600000) hours)
      else if String.eqb e "0 0 * * *" then
        new_Date (Some (next_local_midnight now))
      else new_Date (Some (now + 1800000))
  | _ => new_Date (Some (now + 3600000))
  end.

End WithRuntime.

(** ** Scheduler state *)

(** A node-cron task: the expression it was scheduled with, the [url]
    of the record its callback closes over, and whether its timer is
    running. *)
Record task : Type := {
  task_expression : string;
  task_url : jsval;
  task_scheduled : bool;
}.

Record EngineStats : Type := {
  totalFeeds : Z;
  successfulUpdates : Z;
  failedUpdates : Z;
  lastUpdateTime : jsval;
}.

(** [this.options], the keys the scheduler reads. *)
Record config : Type := {
  defaultInterval : string;
  retryAttempts : Z;
  retryDelay : Z;
}.

(** The fields of a [FeedScheduler] object.  [activeJobs] holds task
    handles: positions in the host's list of tasks. *)
Record scheduler : Type := {
  options : config;
  scheduledFeeds : gmap string jsobj;
  activeJobs : gmap string nat;
  running : bool;
  paused : bool;
  stats : EngineStats;
}.

(** Calls received by the Feed Store collaborator. *)
Inductive store_call : Type :=
  | StoreAdd (url : jsval)
  | StoreRemove (feedId : string).

(** What the Feed Store answers: a result with [success] set, a result
    without it, or an exception. *)
Inductive store_result : Type :=
  | StoreOk
  | StoreFail (error : string)
  | StoreThrow (message : string).

(** The scheduler together with what lives outside it: every task
    node-cron was asked to schedule, the calls made to the Feed Store,
    and the number of times the state file was written. *)
Record world : Type := {
  sched : scheduler;
  cronTasks : list task;
  storeCalls : list store_call;
  saves : nat;
}.

#[global] Instance task_eq_dec : EqDecision task.
Proof. solve_decision. Defined.
#[global] Instance EngineStats_eq_dec : EqDecision EngineStats.
Proof. solve_decision. Defined.
#[global] Instance config_eq_dec : EqDecision config.
Proof. solve_decision. Defined.
#[global] Instance scheduler_eq_dec : EqDecision scheduler.
Proof. solve_decision. Defined.
#[global] Instance store_call_eq_dec : EqDecision store_call.
Proof. solve_decision. Defined.
#[global] Instance world_eq_dec : EqDecision world.
Proof. solve_decision. Defined.

(** *** Field updates *)

Definition set_scheduledFeeds (m : gmap string jsobj) (s : scheduler) : scheduler :=
  {| options := options s; scheduledFeeds := m; activeJobs := activeJobs s;
     running := running s; paused := paused s; stats := stats s |}.

Definition set_activeJobs (j : gmap string nat) (s : scheduler) : scheduler :=
  {| options := options s; scheduledFeeds := scheduledFeeds s; activeJobs := j;
     running := running s; paused := paused s; stats := stats s |}.

Definition set_running (b : bool) (s : scheduler) : scheduler :=
  {| options := options s; scheduledFeeds := scheduledFeeds s;
     activeJobs := activeJobs s; running := b; paused := paused s;
     stats := stats s |}.

Definition set_paused (b : bool) (s : scheduler) : scheduler :=
  {| options := options s; scheduledFeeds := scheduledFeeds s;
     activeJobs := activeJobs s; running := running s; paused := b;
     stats := stats s |}.

Definition set_stats (st : EngineStats) (s : scheduler) : scheduler :=
  {| options := options s; scheduledFeeds := scheduledFeeds s;
     activeJobs := activeJobs s; running := running s; paused := paused s;
     stats := st |}.

Definition set_totalFeeds (n : Z) (st : EngineStats) : EngineStats :=
  {| totalFeeds := n; successfulUpdates := successfulUpdates st;
     failedUpdates := failedUpdates st; lastUpdateTime := lastUpdateTime st |}.

Definition set_successfulUpdates (n : Z) (st : EngineStats) : EngineStats :=
  {| totalFeeds := totalFeeds st; successfulUpdates := n;
     failedUpdates := failedUpdates st; lastUpdateTime := lastUpdateTime st |}.

Definition set_failedUpdates (n : Z) (st : EngineStats) : EngineStats :=
  {| totalFeeds := totalFeeds st; successfulUpdates := successfulUpdates st;
     failedUpdates := n; lastUpdateTime := lastUpdateTime st |}.

Definition set_lastUpdateTime (v : jsval) (st : EngineStats) : EngineStats :=
  {| totalFeeds := totalFeeds st; successfulUpdates := successfulUpdates st;
     failedUpdates := failedUpdates st; lastUpdateTime := v |}.

Definition with_sched (f : scheduler -> scheduler) (w : world) : world :=
  {| sched := f (sched w); cronTasks := cronTasks w;
     storeCalls := storeCalls w; saves := saves w |}.

Definition set_cronTasks (ts : list task) (w : world) : world :=
  {| sched := sched w; cronTasks := ts; storeCalls := storeCalls w;
     saves := saves w |}.

(** The Feed Store is called. *)
Definition call_store (c : store_call) (w : world) : world :=
  {| sched := sched w; cronTasks := cronTasks w;
     storeCalls := storeCalls w ++ [c]; saves := saves w |}.

(** [saveScheduledFeeds()]: a write is attempted; its failure is only
    logged. *)
Definition saveScheduledFeeds (w : world) : world :=
  {| sched := sched w; cronTasks := cronTasks w; storeCalls := storeCalls w;
     saves := S (saves w) |}.

(** [this.scheduledFeeds.get(id).k = v], on the stored object itself. *)
Definition set_field (feedId k : string) (v : jsval) (w : world) : world :=
  with_sched
    (fun s => set_scheduledFeeds (alter (insert k v) feedId (scheduledFeeds s)) s) w.

(** [this.scheduledFeeds.get(id).k], when the record exists. *)
Definition stored_field (w : world) (feedId k : string) : option jsval :=
  (fun r => get r k) <$> scheduledFeeds (sched w) !! feedId.

(** [this.stats.totalFeeds = this.scheduledFeeds.size] *)
Definition refresh_totalFeeds (w : world) : world :=
  with_sched
    (fun s => set_stats (set_totalFeeds (Z.of_nat (size (scheduledFeeds s))) (stats s)) s) w.

(** *** node-cron tasks *)

Definition set_task_scheduled (b : bool) (t : task) : task :=
  {| task_expression := task_expression t; task_url := task_url t;
     task_scheduled := b |}.

(** [job.stop()] and [job.start()] on a handle. *)
Definition job_stop (h : nat) (ts : list task) : list task :=
  alter (set_task_scheduled false) h ts.

Definition job_start (h : nat) (ts : list task) : list task :=
  alter (set_task_scheduled true) h ts.

(** [for (const job of this.activeJobs.values()) job.stop()] *)
Definition stop_all (jobs : gmap string nat) (ts : list task) : list task :=
  map_fold (fun _ h acc => job_stop h acc) ts jobs.

Definition start_all (jobs : gmap string nat) (ts : list task) : list task :=
  map_fold (fun _ h acc => job_start h acc) ts jobs.

(** [Buffer.from(url)] accepts a string; it throws a TypeError on a
    value of another primitive type. *)
Definition generate_id (url : jsval) : completion string :=
  match url with
  | JStr u => Normal (generateFeedId u)
  | _ => Throw "The first argument must be of type string or an instance of Buffer, ArrayBuffer, or Array or an Array-like Object."
  end.

Section Scheduler.
Context `{RT : Runtime}.

(** [createCronJob]: schedule a task for the record's interval and
    put its handle in the Job Table; when node-cron refuses the
    expression the error is logged and nothing changes. *)
Definition createCronJob (feedId : string) (scheduledFeed : jsobj) (w : world) : world :=
  match get scheduledFeed "interval" with
  | JStr e =>
      if cron_validate e then
        let h := length (cronTasks w) in
        let job := {| task_expression := e;
                      task_url := get scheduledFeed "url";
                      task_scheduled := true |} in
        with_sched (fun s => set_activeJobs (<[feedId := h]> (activeJobs s)) s)
          (set_cronTasks (cronTasks w ++ [job]) w)
      else w
  | _ => w
  end.

(** The expression of the task that [createCronJob] schedules for a
    record: its interval, when that is a string node-cron accepts. *)
Definition job_expression (scheduledFeed : jsobj) : option string :=
  match get scheduledFeed "interval" with
  | JStr e => if cron_validate e then Some e else None
  | _ => None
  end.

(** The same for [start], which passes over records that are not
    enabled. *)
Definition wanted_job (scheduledFeed : jsobj) : option string :=
  if truthy (get scheduledFeed "enabled") then job_expression scheduledFeed
  else None.

(** [if (this.activeJobs.has(id)) { get(id).stop(); delete(id) }] *)
Definition drop_job (feedId : string) (w : world) : world :=
  match activeJobs (sched w) !! feedId with
  | Some h =>
      with_sched (fun s => set_activeJobs (delete feedId (activeJobs s)) s)
        (set_cronTasks (job_stop h (cronTasks w)) w)
  | None => w
  end.

(** *** addFeed *)

(** [options.interval || this.options.defaultInterval] *)
Definition add_interval (opts : jsobj) (w : world) : jsval :=
  js_or (get opts "interval") (JStr (defaultInterval (options (sched w)))).

Inductive add_result : Type :=
  | AddOk (feedId : string) (nextRun : Z) (feed : jsobj)
  | AddFail (error : string).

(** The record literal of [addFeed] before the options are spread
    over it. *)
Definition record_defaults (feedId : string) (url title interval nextRun : jsval) : jsobj :=
  list_to_map
    [ ("id", JStr feedId); ("url", url); ("title", title);
      ("interval", interval); ("nextRun", nextRun); ("lastRun", JNull);
      ("lastSuccess", JNull); ("failureCount", JNum 0);
      ("enabled", JBool true) ].

(** [store] is what [feedManager.addFeed] answers if it is called, and
    [now] the time.  A Feed Store result without [success] is returned
    as it is; an exception anywhere is turned into a failure by the
    [catch] clause. *)
Definition addFeed (url : jsval) (opts : jsobj) (store : store_result)
    (now : Z) (w : world) : add_result * world :=
  match generate_id url with
  | Throw m => (AddFail m, w)
  | Normal feedId =>
      let interval := add_interval opts w in
      let validation := validateCronExpression interval in
      if negb (valid validation) then
        (AddFail ("Invalid cron expression: " ++ Str.join ", " (errors validation)), w)
      else
        let w1 := call_store (StoreAdd url) w in
        match store with
        | StoreThrow m => (AddFail m, w1)
        | StoreFail e => (AddFail e, w1)
        | StoreOk =>
            match getNextRunTime interval now with
            | InvalidDate => (AddFail "Invalid time value", w1)
            | Date t =>
                let scheduledFeed :=
                  opts ∪ record_defaults feedId url
                           (js_or (get opts "title") (JStr ""))
                           interval (JStr (Iso.format t)) in
                let w2 :=
                  saveScheduledFeeds
                    (with_sched
                       (fun s => set_scheduledFeeds
                                   (<[feedId := scheduledFeed]> (scheduledFeeds s)) s)
                       w1) in
                let w3 :=
                  if running (sched w2) && negb (paused (sched w2))
                  then createCronJob feedId scheduledFeed w2
                  else w2 in
                (AddOk feedId t scheduledFeed, refresh_totalFeeds w3)
            end
        end
  end.

(** *** removeFeed *)

Inductive remove_result : Type :=
  | RemoveOk
  | RemoveFail (error : string).

(** [store] is what [feedManager.removeFeed] answers.  Its result is
    not looked at; its exception goes to the [catch] clause. *)
Definition removeFeed (feedId : string) (store : store_result) (w : world)
  : remove_result * world :=
  match scheduledFeeds (sched w) !! feedId with
  | None => (RemoveFail "Scheduled feed not found", w)
  | Some _ =>
      let w1 := call_store (StoreRemove feedId) (drop_job feedId w) in
      match store with
      | StoreThrow m => (RemoveFail m, w1)
      | StoreOk | StoreFail _ =>
          let w2 :=
            saveScheduledFeeds
              (with_sched
                 (fun s => set_scheduledFeeds (delete feedId (scheduledFeeds s)) s)
                 w1) in
          (RemoveOk, refresh_totalFeeds w2)
      end
  end.

(** [removeFeed] is suspended once, at [await feedManager.removeFeed]:
    other calls can run between its two halves.  The first half ends
    with the job dropped and the Feed Store called ([None]: the id is
    unknown and the method has returned its failure); the second half
    starts with the answer of the Feed Store. *)
Definition removeFeed_begin (feedId : string) (w : world) : option world :=
  match scheduledFeeds (sched w) !! feedId with
  | None => None
  | Some _ => Some (call_store (StoreRemove feedId) (drop_job feedId w))
  end.

Definition removeFeed_end (feedId : string) (store : store_result) (w1 : world)
  : remove_result * world :=
  match store with
  | StoreThrow m => (RemoveFail m, w1)
  | StoreOk | StoreFail _ =>
      (RemoveOk,
       refresh_totalFeeds
         (saveScheduledFeeds
            (with_sched
               (fun s => set_scheduledFeeds (delete feedId (scheduledFeeds s)) s)
               w1)))
  end.

(** *** updateFeedSchedule *)

Inductive update_result : Type :=
  | UpdateOk (nextRun : Z)
  | UpdateFail (error : string).

(** The interval is assigned to the stored record before the next run
    is computed, so it stays assigned when [toISOString] throws. *)
Definition updateFeedSchedule (feedId : string) (newInterval : jsval)
    (now : Z) (w : world) : update_result * world :=
  match scheduledFeeds (sched w) !! feedId with
  | None => (UpdateFail "Scheduled feed not found", w)
  | Some _ =>
      let validation := validateCronExpression newInterval in
      if negb (valid validation) then
        (UpdateFail ("Invalid cron expression: " ++ Str.join ", " (errors validation)), w)
      else
        let w1 := set_field feedId "interval" newInterval w in
        match getNextRunTime newInterval now with
        | InvalidDate => (UpdateFail "Invalid time value", w1)
        | Date t =>
            let w2 :=
              saveScheduledFeeds
                (set_field feedId "nextRun" (JStr (Iso.format t)) w1) in
            let w3 :=
              if running (sched w2) && negb (paused (sched w2)) then
                match scheduledFeeds (sched w2) !! feedId with
                | Some scheduledFeed =>
                    createCronJob feedId scheduledFeed (drop_job feedId w2)
                | None => w2
                end
              else w2 in
            (UpdateOk t, w3)
        end
  end.

(** *** Reads *)

(** The records, in the order of the finite map. *)
Definition listScheduledFeeds (w : world) : list jsobj :=
  (map_to_list (scheduledFeeds (sched w))).*2.

Definition getUpdateStats (w : world) : EngineStats := stats (sched w).

Definition isRunning (w : world) : bool := running (sched w).

Definition isPaused (w : world) : bool := paused (sched w).

(** *** start, stop, pause, resume *)

(** The loop of [start] visits the records in the order of the finite
    map; a handle is the position of its task, so the order shows only
    in the numbering of the handles. *)
Definition start (w : world) : world :=
  if running (sched w) then w
  else
    map_fold
      (fun feedId scheduledFeed acc =>
         if truthy (get scheduledFeed "enabled")
         then createCronJob feedId scheduledFeed acc
         else acc)
      (with_sched (fun s => set_paused false (set_running true s)) w)
      (scheduledFeeds (sched w)).

Definition stop (w : world) : world :=
  if negb (running (sched w)) then w
  else
    with_sched
      (fun s => set_activeJobs ∅ (set_paused false (set_running false s)))
      (set_cronTasks (stop_all (activeJobs (sched w)) (cronTasks w)) w).

Definition pause (w : world) : world :=
  if negb (running (sched w)) || paused (sched w) then w
  else
    with_sched (set_paused true)
      (set_cronTasks (stop_all (activeJobs (sched w)) (cronTasks w)) w).

Definition resume (w : world) : world :=
  if negb (running (sched w)) || negb (paused (sched w)) then w
  else
    with_sched (set_paused false)
      (set_cronTasks (start_all (activeJobs (sched w)) (cronTasks w)) w).

(** [close()]: stop, then a last write. *)
Definition close (w : world) : world := saveScheduledFeeds (stop w).

(** *** fetchAndUpdateFeed *)

(** The feed that [importRSSFeed] returns on success. *)
Record rss_feed : Type := {
  feed_title : string;
  feed_items : list string;
}.

Inductive import_result : Type :=
  | ImportOk (feed : rss_feed)
  | ImportFail (error : string).

(** What one attempt meets: the answer of [importRSSFeed], the answer
    of the Feed Store should it be asked, and the time. *)
Record attempt_env : Type := {
  fetched : import_result;
  stored : store_result;
  at_time : Z;
}.

(** The options that [fetchAndUpdateFeed] reads itself. *)
Record fetch_options : Type := {
  fo_retryAttempts : option Z;
  fo_retryDelay : option Z;
}.

Definition no_fetch_options : fetch_options :=
  {| fo_retryAttempts := None; fo_retryDelay := None |}.

Inductive fetch_result : Type :=
  | FetchOk (feed : rss_feed) (itemsAdded : Z) (attempt : Z)
  | FetchFail (error : string) (attempts : Z)
  | FetchUndefined              (* the loop ended without a [return] *)
  | FetchThrow (message : string).

(** [this.stats.successfulUpdates++; this.stats.lastUpdateTime = ...] *)
Definition count_success (now : Z) (w : world) : world :=
  with_sched
    (fun s =>
       set_stats
         (set_lastUpdateTime (JStr (Iso.format now))
            (set_successfulUpdates (successfulUpdates (stats s) + 1) (stats s)))
         s)
    w.

(** [this.stats.failedUpdates++] *)
Definition count_failure (w : world) : world :=
  with_sched
    (fun s => set_stats (set_failedUpdates (failedUpdates (stats s) + 1) (stats s)) s)
    w.

(** The [try] block of one attempt. *)
Definition try_attempt (url : jsval) (attempt : Z) (env : attempt_env) (w : world)
  : completion fetch_result * world :=
  match fetched env with
  | ImportFail e => (Throw e, w)
  | ImportOk feed =>
      match generate_id url with
      | Throw m => (Throw m, w)
      | Normal feedId =>
          let w1 := call_store (StoreAdd url) w in
          match stored env with
          | StoreThrow m => (Throw m, w1)
          | StoreFail e => (Throw e, w1)
          | StoreOk =>
              let result :=
                FetchOk feed (Z.of_nat (length (feed_items feed))) attempt in
              let w2 := count_success (at_time env) w1 in
              match scheduledFeeds (sched w2) !! feedId with
              | None => (Normal result, w2)
              | Some scheduledFeed =>
                  let stamp := JStr (Iso.format (at_time env)) in
                  let w3 :=
                    set_field feedId "failureCount" (JNum 0)
                      (set_field feedId "lastSuccess" stamp
                         (set_field feedId "lastRun" stamp w2)) in
                  match getNextRunTime (get scheduledFeed "interval") (at_time env) with
                  | InvalidDate => (Throw "Invalid time value", w3)
                  | Date t =>
                      (Normal result,
                       saveScheduledFeeds
                         (set_field feedId "nextRun" (JStr (Iso.format t)) w3))
                  end
              end
          end
      end
  end.

(** The [catch] block on the last allowed attempt. *)
Definition final_failure (url : jsval) (maxRetries : Z) (message : string)
    (now : Z) (w : world) : fetch_result * world :=
  let w1 := count_failure w in
  match generate_id url with
  | Throw m => (FetchThrow m, w1)
  | Normal feedId =>
      match scheduledFeeds (sched w1) !! feedId with
      | None => (FetchFail message maxRetries, w1)
      | Some scheduledFeed =>
          let w2 :=
            set_field feedId "failureCount"
              (js_incr (get scheduledFeed "failureCount"))
              (set_field feedId "lastRun" (JStr (Iso.format now)) w1) in
          match getNextRunTime (get scheduledFeed "interval") now with
          | InvalidDate => (FetchThrow "Invalid time value", w2)
          | Date t =>
              (FetchFail message maxRetries,
               saveScheduledFeeds
                 (set_field feedId "nextRun" (JStr (Iso.format t)) w2))
          end
      end
  end.

(** One turn of the loop: [Some] is a [return] (or an exception that
    leaves the method), [None] goes on to the next attempt after the
    delay. *)
Definition attempt_body (url : jsval) (maxRetries attempt : Z)
    (env : attempt_env) (w : world) : option fetch_result * world :=
  match try_attempt url attempt env w with
  | (Normal r, w1) => (Some r, w1)
  | (Throw message, w1) =>
      if attempt =? maxRetries then
        let '(r, w2) := final_failure url maxRetries message (at_time env) w1 in
        (Some r, w2)
      else (None, w1)
  end.

(** [for (let attempt = ...; attempt <= maxRetries; attempt++)].  The
    loop makes at most [maxRetries] turns, which is the fuel it is
    started with. *)
Fixpoint retry_loop (fuel : nat) (url : jsval) (maxRetries attempt : Z)
    (envs : Z -> attempt_env) (w : world) : fetch_result * world :=
  match fuel with
  | O => (FetchUndefined, w)
  | S fuel' =>
      if attempt <=? maxRetries then
        match attempt_body url maxRetries attempt (envs attempt) w with
        | (Some r, w1) => (r, w1)
        | (None, w1) => retry_loop fuel' url maxRetries (attempt + 1) envs w1
        end
      else (FetchUndefined, w)
  end.

Definition max_retries (opts : fetch_options) (w : world) : Z :=
  or_num (fo_retryAttempts opts) (retryAttempts (options (sched w))).

Definition fetchAndUpdateFeed (url : jsval) (opts : fetch_options)
    (envs : Z -> attempt_env) (w : world) : fetch_result * world :=
  let maxRetries := max_retries opts w in
  retry_loop (Z.to_nat maxRetries) url maxRetries 1 envs w.

(** *** fetchAndUpdateFeed for any retry budget

    [max_retries] reads a budget that the call and the scheduler give
    as whole numbers.  The code takes whatever
    [options.retryAttempts || this.options.retryAttempts] is, compares
    the attempt number to it with [<=] and recognises the last attempt
    with [===]. *)

(** A value of [retryAttempts]: a primitive of [jsval] (a whole number,
    NaN, a string, a boolean, null, undefined), a number [num/den] such
    as 1.5, or an infinity. *)
Inductive retry_value : Type :=
  | Value (v : jsval)
  | Fraction (num : Z) (den : positive)
  | Infinite (negative : bool).

(** ToBoolean *)
Definition value_truthy (m : retry_value) : bool :=
  match m with
  | Value v => truthy v
  | Fraction num _ => negb (num =? 0)
  | Infinite _ => true
  end.

(** [a || b] *)
Definition value_or (a b : retry_value) : retry_value :=
  if value_truthy a then a else b.

(** [attempt <= maxRetries]: the budget is converted to a number. *)
Definition attempt_allowed (attempt : Z) (m : retry_value) : bool :=
  match m with
  | Value v =>
      match to_number v with
      | JNum n => attempt <=? n
      | _ => false
      end
  | Fraction num den => attempt * Z.pos den <=? num
  | Infinite negative => negb negative
  end.

(** [attempt === maxRetries]: true of a number equal to the attempt
    only; [maxRetries] is then the attempt number. *)
Definition attempt_is_last (attempt : Z) (m : retry_value) : bool :=
  match m with
  | Value (JNum n) => attempt =? n
  | Fraction num den => attempt * Z.pos den =? num
  | _ => false
  end.

Definition attempt_body_with (url : jsval) (m : retry_value) (attempt : Z)
    (env : attempt_env) (w : world) : option fetch_result * world :=
  match try_attempt url attempt env w with
  | (Normal r, w1) => (Some r, w1)
  | (Throw message, w1) =>
      if attempt_is_last attempt m then
        let '(r, w2) := final_failure url attempt message (at_time env) w1 in
        (Some r, w2)
      else (None, w1)
  end.

(** The loop, observed for [fuel] turns: [None] when the call has not
    returned within them. *)
Fixpoint retry_loop_with (fuel : nat) (url : jsval) (m : retry_value) (attempt : Z)
    (envs : Z -> attempt_env) (w : world) : option (fetch_result * world) :=
  match fuel with
  | O => None
  | S fuel' =>
      if attempt_allowed attempt m then
        match attempt_body_with url m attempt (envs attempt) w with
        | (Some r, w1) => Some (r, w1)
        | (None, w1) => retry_loop_with fuel' url m (attempt + 1) envs w1
        end
      else Some (FetchUndefined, w)
  end.

(** [call] is [options.retryAttempts] ([Value JUndefined] when the call
    gives none) and [own] is [this.options.retryAttempts]. *)
Definition fetchAndUpdateFeed_with (fuel : nat) (url : jsval) (call own : retry_value)
    (envs : Z -> attempt_env) (w : world) : option (fetch_result * world) :=
  retry_loop_with fuel url (value_or call own) 1 envs w.



(** *** A task fires

    The callback that [createCronJob] wires: nothing while paused,
    otherwise [fetchAndUpdateFeed] on the captured url; an exception
    is caught and logged by the wrapper of [createScheduledJob].  A
    task whose timer is stopped does not fire. *)
Definition fire (h : nat) (envs : Z -> attempt_env) (w : world) : world :=
  match cronTasks w !! h with
  | Some t =>
      if task_scheduled t then
        if paused (sched w) then w
        else (fetchAndUpdateFeed (task_url t) no_fetch_options envs w).2
      else w
  | None => w
  end.

(** *** Sequences of operations

    [run] makes the calls one after the other, each awaited before the
    next is made: a step is a whole method.  A call made while
    [removeFeed] awaits the Feed Store is described with
    [removeFeed_begin] and [removeFeed_end]. *)

Inductive op : Type :=
  | OpAddFeed (url : jsval) (opts : jsobj) (store : store_result) (now : Z)
  | OpRemoveFeed (feedId : string) (store : store_result)
  | OpUpdateFeedSchedule (feedId : string) (newInterval : jsval) (now : Z)
  | OpStart
  | OpStop
  | OpPause
  | OpResume
  | OpClose
  | OpFetchAndUpdateFeed (url : jsval) (opts : fetch_options) (envs : Z -> attempt_env)
  | OpFire (h : nat) (envs : Z -> attempt_env).

Definition step (w : world) (o : op) : world :=
  match o with
  | OpAddFeed url opts store now => (addFeed url opts store now w).2
  | OpRemoveFeed feedId store => (removeFeed feedId store w).2
  | OpUpdateFeedSchedule feedId newInterval now =>
      (updateFeedSchedule feedId newInterval now w).2
  | OpStart => start w
  | OpStop => stop w
  | OpPause => pause w
  | OpResume => resume w
  | OpClose => close w
  | OpFetchAndUpdateFeed url opts envs => (fetchAndUpdateFeed url opts envs w).2
  | OpFire h envs => fire h envs w
  end.

Definition run (ops : list op) (w : world) : world := foldl step w ops.

(** The operation adds or reschedules the feed with this id. *)
Definition targets (feedId : string) (o : op) : bool :=
  match o with
  | OpAddFeed (JStr u) _ _ _ => String.eqb (generateFeedId u) feedId
  | OpUpdateFeedSchedule f _ _ => String.eqb f feedId
  | _ => false
  end.

(** [stop()], called directly or by [close()]. *)
Definition is_stop (o : op) : bool :=
  match o with
  | OpStop | OpClose => true
  | _ => false
  end.

Definition is_start (o : op) : bool :=
  match o with
  | OpStart => true
  | _ => false
  end.

(** The sequence has a [stop()] with a [start()] somewhere after it. *)
Fixpoint restarted (ops : list op) : bool :=
  match ops with
  | [] => false
  | o :: rest => is_stop o && existsb is_start rest || restarted rest
  end.

(** What the loop of [start] has built after the records [m], from a
    world [w0] whose Job Table is empty. *)
Definition started (w0 : world) (acc : world) (m : gmap string jsobj) : Prop :=
  running (sched acc) = running (sched w0) /\
  paused (sched acc) = paused (sched w0) /\
  scheduledFeeds (sched acc) = scheduledFeeds (sched w0) /\
  (exists new : list task, cronTasks acc = (cronTasks w0 ++ new)%list) /\
  (forall feedId, activeJobs (sched acc) !! feedId = None <->
                  m !! feedId ≫= wanted_job = None) /\
  (forall feedId h,
     activeJobs (sched acc) !! feedId = Some h ->
     exists rec e,
       m !! feedId = Some rec /\ wanted_job rec = Some e /\
       cronTasks acc !! h
       = Some {| task_expression := e; task_url := get rec "url";
                 task_scheduled := true |}) /\
  (forall id1 id2 h,
     activeJobs (sched acc) !! id1 = Some h ->
     activeJobs (sched acc) !! id2 = Some h -> id1 = id2).

End Scheduler.

(** ** Observations used in the properties *)

(** The part of the world that only the lifecycle methods change. *)
Definition control (w : world) : gmap string nat * bool * bool * list task * config :=
  (activeJobs (sched w), running (sched w), paused (sched w), cronTasks w,
   options (sched w)).

(** Neither update counter is lower in the second world. *)
Definition counters_le (w w' : world) : Prop :=
  successfulUpdates (stats (sched w)) <= successfulUpdates (stats (sched w')) /\
  failedUpdates (stats (sched w)) <= failedUpdates (stats (sched w')).

(** ** Construction *)

Definition default_config : config :=
  {| defaultInterval := "*/30 * * * *"; retryAttempts := 3; retryDelay := 5000 |}.

Definition empty_stats : EngineStats :=
  {| totalFeeds := 0; successfulUpdates := 0; failedUpdates := 0;
     lastUpdateTime := JNull |}.

(** [new FeedScheduler(options)]: [cfg] is [this.options], the
    defaults with the caller's options spread over them, and [file] is
    what a readable state file holds, its [feeds] and [stats]. *)
Definition FeedScheduler_new (cfg : config)
    (file : option (gmap string jsobj * EngineStats)) : world :=
  {| sched :=
       {| options := cfg;
          scheduledFeeds := from_option fst ∅ file;
          activeJobs := ∅;
          running := false;
          paused := false;
          stats := from_option snd empty_stats file |};
     cronTasks := [];
     storeCalls := [];
     saves := 0 |}.

(** A host for the examples: node-cron accepts the listed expressions,
    the time zone is UTC, and a string of decimal digits converts to its
    value. *)
Definition sample_expressions : list string :=
  [ "*/5 * * * *"; "*/10 * * * *"; "*/15 * * * *"; "*/30 * * * *";
    "0 */2 * * *"; "0 0 * * *"; "0 * * * *"; "* * * * *" ].

Definition sample_runtime : Runtime := {|
  cron_validate e := existsb (String.eqb e) sample_expressions;
  next_local_midnight t := (t / 86400000 + 1) * 86400000;
  string_to_number s :=
    let bs := map N_of_ascii (list_ascii_of_string s) in
    if forallb (fun c => (48 <=? c) && (c <=? 57))%N bs
    then JNum (default 0 (ParseInt.digits 10 None bs))
    else JNaN;
|}.



(** ** The status report *)

(** [getStatus()]: the two sizes, the two flags, the time of the last
    update and a copy of the stats. *)
Record status : Type := {
  status_scheduledFeeds : Z;
  status_activeJobs : Z;
  status_isRunning : bool;
  status_isPaused : bool;
  status_lastUpdate : jsval;
  status_stats : EngineStats;
}.

Definition getStatus (w : world) : status :=
  {| status_scheduledFeeds := Z.of_nat (size (scheduledFeeds (sched w)));
     status_activeJobs := Z.of_nat (size (activeJobs (sched w)));
     status_isRunning := running (sched w);
     status_isPaused := paused (sched w);
     status_lastUpdate := lastUpdateTime (stats (sched w));
     status_stats := stats (sched w) |}.

(** ** The Feed Store of the repository: FeedManager *)

Module FeedManager.

(** A property of a managed feed: a primitive value, or an array of
    item objects (the [items] of a feed). *)
Inductive mval : Type :=
  | Prim (v : jsval)
  | Arr (items : list jsobj).

(** A feed object, or the metadata given for one. *)
Abbreviation feed := (gmap string mval).

Definition mget (o : feed) (k : string) : mval :=
  default (Prim JUndefined) (o !! k).

(** ToBoolean: an array is truthy, also when empty. *)
Definition mtruthy (v : mval) : bool :=
  match v with
  | Prim p => truthy p
  | Arr _ => true
  end.

(** [a || b] *)
Definition m_or (a b : mval) : mval := if mtruthy a then a else b.

(** [this.feeds], and the number of times [feeds.json] was written. *)
Record manager : Type := {
  feeds : gmap string feed;
  feed_saves : nat;
}.

Inductive add_result : Type :=
  | AddOk (feedId : string) (feedData : feed)
  | AddFail (error : string).

Inductive remove_result : Type :=
  | RemoveOk
  | RemoveFail (error : string).

(** The object literal of [addFeed] before the metadata is spread over
    it. *)
Definition feed_defaults (feedId : string) (url : jsval) (metadata : feed)
    (now : Z) : feed :=
  list_to_map
    [ ("id", Prim (JStr feedId)); ("url", Prim url);
      ("title", m_or (mget metadata "title") (Prim (JStr "")));
      ("description", m_or (mget metadata "description") (Prim (JStr "")));
      ("items", m_or (mget metadata "items") (Arr []));
      ("lastUpdated", Prim (JStr (Iso.format now))) ].

(** [FeedManager.addFeed]: the only thing that can throw is the id of a
    url that is not a string; writing the file never throws. *)
Definition addFeed (url : jsval) (metadata : feed) (now : Z) (m : manager)
  : add_result * manager :=
  match generate_id url with
  | Throw msg => (AddFail msg, m)
  | Normal feedId =>
      let feedData := metadata ∪ feed_defaults feedId url metadata now in
      (AddOk feedId feedData,
       {| feeds := <[feedId := feedData]> (feeds m);
          feed_saves := S (feed_saves m) |})
  end.

(** [FeedManager.removeFeed] *)
Definition removeFeed (feedId : string) (m : manager) : remove_result * manager :=
  match feeds m !! feedId with
  | None => (RemoveFail "Feed not found", m)
  | Some _ =>
      (RemoveOk,
       {| feeds := delete feedId (feeds m); feed_saves := S (feed_saves m) |})
  end.

(** [FeedManager.listFeeds], in the order of the finite map. *)
Definition listFeeds (m : manager) : list feed := (map_to_list (feeds m)).*2.

(** [FeedManager.getFeedItems]: [feed ? feed.items || [] : []] *)
Definition getFeedItems (feedId : string) (m : manager) : mval :=
  match feeds m !! feedId with
  | Some f => m_or (mget f "items") (Arr [])
  | None => Arr []
  end.

(** A new manager with no [feeds.json]. *)
Definition empty : manager := {| feeds := ∅; feed_saves := 0 |}.

End FeedManager.

(** ** The scheduler with the repository's FeedManager as its Feed Store

    [options.feedManager || new FeedManager()]: the answers of the Feed
    Store are those of [FeedManager], whose state changes when the
    scheduler calls it. *)

Record system : Type := {
  sys_world : world;
  sys_manager : FeedManager.manager;
}.

Definition store_of_add (r : FeedManager.add_result) : store_result :=
  match r with
  | FeedManager.AddOk _ _ => StoreOk
  | FeedManager.AddFail e => StoreFail e
  end.

Definition store_of_remove (r : FeedManager.remove_result) : store_result :=
  match r with
  | FeedManager.RemoveOk => StoreOk
  | FeedManager.RemoveFail e => StoreFail e
  end.

(** The scheduler called its Feed Store between the two worlds. *)
Definition store_called (w w' : world) : bool :=
  negb (Nat.eqb (length (storeCalls w')) (length (storeCalls w))).

Section System.
Context `{RT : Runtime}.

(** [scheduler.addFeed(url, options)]: the options bag is what the
    manager receives as metadata. *)
Definition sys_addFeed (url : jsval) (opts : jsobj) (now : Z) (s : system)
  : add_result * system :=
  let '(answer, m') :=
    FeedManager.addFeed url (FeedManager.Prim <$> opts) now (sys_manager s) in
  let '(r, w') := addFeed url opts (store_of_add answer) now (sys_world s) in
  (r, {| sys_world := w';
         sys_manager := if store_called (sys_world s) w' then m'
                        else sys_manager s |}).

(** [scheduler.removeFeed(feedId)] *)
Definition sys_removeFeed (feedId : string) (s : system) : remove_result * system :=
  let '(answer, m') := FeedManager.removeFeed feedId (sys_manager s) in
  let '(r, w') := removeFeed feedId (store_of_remove answer) (sys_world s) in
  (r, {| sys_world := w';
         sys_manager := if store_called (sys_world s) w' then m'
                        else sys_manager s |}).

(** The operations of the scheduler that reach the manager, and those
    that do not. *)
Inductive sys_op : Type :=
  | SysAddFeed (url : jsval) (opts : jsobj) (now : Z)
  | SysRemoveFeed (feedId : string)
  | SysUpdateFeedSchedule (feedId : string) (newInterval : jsval) (now : Z)
  | SysStart
  | SysStop
  | SysPause
  | SysResume.

Definition on_world (f : world -> world) (s : system) : system :=
  {| sys_world := f (sys_world s); sys_manager := sys_manager s |}.

Definition sys_step (s : system) (o : sys_op) : system :=
  match o with
  | SysAddFeed url opts now => (sys_addFeed url opts now s).2
  | SysRemoveFeed feedId => (sys_removeFeed feedId s).2
  | SysUpdateFeedSchedule feedId newInterval now =>
      on_world (fun w => (updateFeedSchedule feedId newInterval now w).2) s
  | SysStart => on_world start s
  | SysStop => on_world stop s
  | SysPause => on_world pause s
  | SysResume => on_world resume s
  end.

Definition sys_run (ops : list sys_op) (s : system) : system := foldl sys_step s ops.

End System.

(** A new scheduler beside a new manager. *)
Definition sys_new (cfg : config) : system :=
  {| sys_world := FeedScheduler_new cfg None; sys_manager := FeedManager.empty |}.

(** ** Well-formed worlds *)

(** What every world reached from a new scheduler satisfies: the paused
    flag is only set while running; a stopped scheduler has an empty
    Job Table; a handle of the Job Table is the position of a task,
    whose timer runs exactly when the scheduler is not paused; two feed
    ids never share a task; and every feed id of the Job Table has a
    stored record. *)
Record well_formed (w : world) : Prop := {
  wf_paused : paused (sched w) = true -> running (sched w) = true;
  wf_stopped : running (sched w) = false -> activeJobs (sched w) = ∅;
  wf_task : forall feedId h,
      activeJobs (sched w) !! feedId = Some h ->
      exists tk, cronTasks w !! h = Some tk /\
                 task_scheduled tk = negb (paused (sched w));
  wf_distinct : forall id1 id2 h,
      activeJobs (sched w) !! id1 = Some h ->
      activeJobs (sched w) !! id2 = Some h -> id1 = id2;
  wf_record : forall feedId,
      is_Some (activeJobs (sched w) !! feedId) ->
      is_Some (scheduledFeeds (sched w) !! feedId);
}.

(** The second world stores records under the same ids as the first,
    and the same record under every id but that of [url]. *)
Definition records_kept (url : jsval) (w w' : world) : Prop :=
  dom (scheduledFeeds (sched w')) = dom (scheduledFeeds (sched w)) /\
  forall feedId, generate_id url ≠ Normal feedId ->
                 scheduledFeeds (sched w') !! feedId = scheduledFeeds (sched w) !! feedId.

(** What the Schedule Store holds and what reaches the outside: the
    records, the stats, the options, the calls to the Feed Store and
    the number of writes. *)
Definition schedule_store (w : world)
  : gmap string jsobj * EngineStats * config * list store_call * nat :=
  (scheduledFeeds (sched w), stats (sched w), options (sched w), storeCalls w,
   saves w).

(** ** Sample worlds for the examples *)

Definition url_a : string := "https://a.example/feeds".
Definition url_b : string := "https://a.example/feeds?".
Definition id_a : string := "aHR0cHM6Ly9hLmV4YW1wbGUvZmVlZHM".

(** A new scheduler with the default options and no state file. *)
Definition fresh : world := FeedScheduler_new default_config None.

(** The world after [addFeed(url_a)] at time 1000, and the record it
    stores. *)
Definition world_a : world :=
  (@addFeed sample_runtime (JStr url_a) ∅ StoreOk 1000 fresh).2.

Definition record_a : jsobj :=
  record_defaults id_a (JStr url_a) (JStr "") (JStr "*/30 * * * *")
    (JStr (Iso.format 1801000)).

(** A fetcher that always times out, and one that answers on its third
    attempt, at time 5000. *)
Definition always_failing (attempt : Z) : attempt_env :=
  {| fetched := ImportFail "timeout"; stored := StoreOk; at_time := 5000 |}.

Definition third_time_lucky (attempt : Z) : attempt_env :=
  {| fetched :=
       if attempt <? 3 then ImportFail "timeout"
       else ImportOk {| feed_title := "A"; feed_items := ["one"; "two"] |};
     stored := StoreOk;
     at_time := 5000 |}.

(** A feed scheduled every five minutes, in a scheduler that was started
    and then paused. *)
Definition world_paused : world :=
  @run sample_runtime
    [ OpAddFeed (JStr url_a) {[ "interval" := JStr "*/5 * * * *" ]} StoreOk 1000;
      OpStart; OpPause ] fresh.

(** The same feed with the default interval in a scheduler that was
    started, and in one that was started, paused and stopped. *)
Definition world_running : world :=
  @run sample_runtime [ OpAddFeed (JStr url_a) ∅ StoreOk 1000; OpStart ] fresh.

Definition world_stopped : world :=
  @run sample_runtime
    [ OpAddFeed (JStr url_a) ∅ StoreOk 1000; OpStart; OpPause; OpStop ] fresh.








(** A scheduler that was started before any feed was added. *)
Definition world_started : world := @run sample_runtime [ OpStart ] fresh.


(** Options of a fetch that allow no attempt. *)
Definition no_attempts : fetch_options :=
  {| fo_retryAttempts := Some (-1); fo_retryDelay := None |}.

(** A new scheduler and a new manager after [addFeed(url_a)]. *)
Definition system_a : system :=
  (@sys_addFeed sample_runtime (JStr url_a) ∅ 1000 (sys_new default_config)).2.

(** * Properties *)

(** ** The built-ins on known values *)

Example iso1 : Iso.format 0 = "1970-01-01T00:00:00.000Z". Proof. reflexivity. Qed.
Example iso2 : Iso.format 1762137296789 = "2025-11-03T02:34:56.789Z". Proof. reflexivity. Qed.
Example iso3 : Iso.format (-1) = "1969-12-31T23:59:59.999Z". Proof. reflexivity. Qed.
Example iso4 : Iso.format 951782400000 = "2000-02-29T00:00:00.000Z". Proof. reflexivity. Qed.
Example iso5 : Iso.format 8640000000000000 = "+275760-09-13T00:00:00.000Z". Proof. reflexivity. Qed.
Example iso6 : Iso.format (-8640000000000000) = "-271821-04-20T00:00:00.000Z". Proof. reflexivity. Qed.
Example pi1 : ParseInt.parseInt "5" = Some 5. Proof. reflexivity. Qed.
Example pi2 : ParseInt.parseInt "  -0x1F,3" = Some (-31). Proof. reflexivity. Qed.
Example pi3 : ParseInt.parseInt "x" = None. Proof. reflexivity. Qed.
Example nr1 : @getNextRunTime sample_runtime (JStr "*/5 * * * *") 1000 = Date 301000. Proof. reflexivity. Qed.
Example nr2 : @getNextRunTime sample_runtime (JStr "0 */2 * * *") 1000 = Date 7201000. Proof. reflexivity. Qed.
Example nr3 : @getNextRunTime sample_runtime (JStr "0 0 * * *") 1000 = Date 86400000. Proof. reflexivity. Qed.
Example nr4 : @getNextRunTime sample_runtime (JStr "*/ * * * *") 1000 = InvalidDate. Proof. reflexivity. Qed.


(** ** Objects *)

Lemma get_lookup (o : jsobj) (k : string) (v : jsval) :
  o !! k = Some v -> get o k = v.
Proof. unfold get. by intros ->. Qed.

Lemma get_insert_eq (o : jsobj) (k : string) (v : jsval) :
  get (<[k := v]> o) k = v.
Proof. apply get_lookup, lookup_insert_eq. Qed.

Lemma get_insert_ne (o : jsobj) (k k' : string) (v : jsval) :
  k ≠ k' -> get (<[k := v]> o) k' = get o k'.
Proof. intros. unfold get. by rewrite lookup_insert_ne. Qed.

(** ** Feed ids *)

(** The scheduler and the Feed Store derive the same id from a url,
    and the id depends on nothing but the url. *)
Lemma generateFeedId_shared (url : string) :
  FeedManager_generateFeedId url = generateFeedId url.
Proof. reflexivity. Qed.

Example generateFeedId_a : generateFeedId url_a = id_a.
Proof. reflexivity. Qed.

(** C4.  The id is not injective: the characters [+], [/] and [=] of
    the base64 text are dropped, so these two urls share an id, and
    adding the second replaces the record of the first. *)
Theorem generateFeedId_collision :
  url_a ≠ url_b /\
  generateFeedId url_a = generateFeedId url_b /\
  Base64.encode url_a = "aHR0cHM6Ly9hLmV4YW1wbGUvZmVlZHM=" /\
  Base64.encode url_b = "aHR0cHM6Ly9hLmV4YW1wbGUvZmVlZHM/" /\
  let w1 := (@addFeed sample_runtime (JStr url_a) ∅ StoreOk 1000 fresh).2 in
  let w2 := (@addFeed sample_runtime (JStr url_b) ∅ StoreOk 2000 w1).2 in
  stored_field w1 id_a "url" = Some (JStr url_a) /\
  size (scheduledFeeds (sched w2)) = 1%nat /\
  stored_field w2 id_a "url" = Some (JStr url_b).
Proof. vm_compute. repeat split; congruence. Qed.

(** ** addFeed *)

Section AddFeed.
Context `{RT : Runtime}.




(** [addFeed] succeeds when the url is a string, the interval is
    valid, the Feed Store accepts the feed and the next run is a valid
    date. *)
Lemma addFeed_ok u opts now w t :
  valid (validateCronExpression (add_interval opts w)) = true ->
  getNextRunTime (add_interval opts w) now = Date t ->
  exists w',
    addFeed (JStr u) opts StoreOk now w
    = (AddOk (generateFeedId u) t
         (opts ∪ record_defaults (generateFeedId u) (JStr u)
                   (js_or (get opts "title") (JStr "")) (add_interval opts w)
                   (JStr (Iso.format t))),
       w') /\
    scheduledFeeds (sched w')
    = <[generateFeedId u :=
          opts ∪ record_defaults (generateFeedId u) (JStr u)
                   (js_or (get opts "title") (JStr "")) (add_interval opts w)
                   (JStr (Iso.format t))]>
        (scheduledFeeds (sched w)).
Proof.
  intros Hv Ht. unfold addFeed. simpl generate_id. cbv iota beta.
  rewrite Hv, Ht. simpl negb. cbv iota.
  eexists. split; [reflexivity|].
  simpl. destruct (running _ && _); [|done].
  unfold createCronJob. simpl.
  destruct (get _ "interval"); try done. by destruct (cron_validate _).
Qed.

(** The record that a successful [addFeed] stores. *)
Lemma addFeed_ok_inv url opts store now w feedId t feed w' :
  addFeed url opts store now w = (AddOk feedId t feed, w') ->
  exists u,
    url = JStr u /\ feedId = generateFeedId u /\ store = StoreOk /\
    valid (validateCronExpression (add_interval opts w)) = true /\
    getNextRunTime (add_interval opts w) now = Date t /\
    feed = opts ∪ record_defaults feedId url (js_or (get opts "title") (JStr ""))
                    (add_interval opts w) (JStr (Iso.format t)) /\
    scheduledFeeds (sched w') = <[feedId := feed]> (scheduledFeeds (sched w)).
Proof.
  unfold addFeed. intros H.
  destruct url as [| | | | |u]; simpl in H; try discriminate.
  destruct (valid _) eqn:Hv; simpl in H; [|discriminate].
  destruct store; try discriminate.
  destruct (getNextRunTime _ _) as [t'|] eqn:Ht; [|discriminate].
  injection H as <- <- <- <-.
  exists u. repeat split; try done.
  destruct (running _ && _); [|done].
  unfold createCronJob. simpl.
  destruct (get _ "interval"); try done. by destruct (cron_validate _).
Qed.

(** C9.  After a successful [addFeed] every key of the options bag is
    in the stored record with the caller's value, whatever the
    scheduler had computed for that key. *)
Theorem addFeed_options_override url opts store now w feedId t feed w' :
  addFeed url opts store now w = (AddOk feedId t feed, w') ->
  scheduledFeeds (sched w') !! feedId = Some feed /\
  forall k v, opts !! k = Some v -> feed !! k = Some v /\ get feed k = v.
Proof.
  intros H. apply addFeed_ok_inv in H as (u & -> & -> & -> & _ & _ & -> & ->).
  split; [apply lookup_insert_eq|].
  intros k v Hk.
  assert (Hl : (opts ∪ record_defaults (generateFeedId u) (JStr u)
                  (js_or (get opts "title") (JStr "")) (add_interval opts w)
                  (JStr (Iso.format t))) !! k = Some v)
    by (by apply lookup_union_Some_l).
  split; [done|]. by apply get_lookup.
Qed.

End AddFeed.


(** [addFeed(url, {enabled: false, failureCount: 7})] stores a disabled
    record whose failure count is 7. *)
Lemma addFeed_options_override_witness :
  let opts : jsobj := {[ "enabled" := JBool false; "failureCount" := JNum 7 ]} in
  exists feed w',
    @addFeed sample_runtime (JStr url_a) opts StoreOk 1000 fresh
    = (AddOk (generateFeedId url_a) 1801000 feed, w') /\
    scheduledFeeds (sched w') !! generateFeedId url_a = Some feed /\
    get feed "enabled" = JBool false /\
    get feed "failureCount" = JNum 7.
Proof.
  intros opts.
  destruct (@addFeed_ok sample_runtime url_a opts 1000 fresh 1801000)
    as (w' & E & _); [vm_compute; reflexivity..|].
  destruct (@addFeed_options_override sample_runtime _ _ _ _ _ _ _ _ _ E) as [Hs Hk].
  eexists _, w'. split; [exact E|]. split; [exact Hs|]. split.
  - apply (Hk "enabled"). vm_compute. reflexivity.
  - apply (Hk "failureCount"). vm_compute. reflexivity.
Defined.

(** ** What the retry loop leaves alone *)

Section Frames.
Context `{RT : Runtime}.

Lemma control_set_field feedId k v w : control (set_field feedId k v w) = control w.
Proof. reflexivity. Qed.

Lemma try_attempt_control url a env w r w' :
  try_attempt url a env w = (r, w') -> control w' = control w.
Proof.
  unfold try_attempt. intros H.
  destruct (fetched env); [|by inversion H].
  destruct (generate_id url); [|by inversion H].
  destruct (stored env); try by inversion H.
  destruct (scheduledFeeds _ !! _); [|by inversion H].
  destruct (getNextRunTime _ _); by inversion H.
Qed.

Lemma final_failure_control url n msg now w r w' :
  final_failure url n msg now w = (r, w') -> control w' = control w.
Proof.
  unfold final_failure. intros H.
  destruct (generate_id url); [|by inversion H].
  destruct (scheduledFeeds _ !! _); [|by inversion H].
  destruct (getNextRunTime _ _); by inversion H.
Qed.

Lemma attempt_body_control url n a env w r w' :
  attempt_body url n a env w = (r, w') -> control w' = control w.
Proof.
  unfold attempt_body. intros H.
  destruct (try_attempt url a env w) as [[res|msg] w1] eqn:Ht;
    apply try_attempt_control in Ht.
  - by inversion H; subst.
  - destruct (a =? n).
    + destruct (final_failure url n msg (at_time env) w1) as [r2 w2] eqn:Hf.
      apply final_failure_control in Hf. inversion H; subst. congruence.
    + by inversion H; subst.
Qed.

Lemma retry_loop_control fuel url n a envs w :
  control (retry_loop fuel url n a envs w).2 = control w.
Proof.
  revert a w. induction fuel as [|fuel IH]; intros a w; simpl; [done|].
  destruct (a <=? n); [|done].
  destruct (attempt_body url n a (envs a) w) as [[r|] w1] eqn:Hb;
    apply attempt_body_control in Hb; simpl; [done|].
  by rewrite IH.
Qed.

Lemma fetchAndUpdateFeed_control url opts envs w :
  control (fetchAndUpdateFeed url opts envs w).2 = control w.
Proof. apply retry_loop_control. Qed.

Lemma fire_control h envs w : control (fire h envs w) = control w.
Proof.
  unfold fire. destruct (cronTasks w !! h) as [t|]; [|done].
  destruct (task_scheduled t); [|done]. destruct (paused (sched w)); [done|].
  apply fetchAndUpdateFeed_control.
Qed.

End Frames.

(** ** The retry loop *)

Section FetchRetry.
Context `{RT : Runtime}.












(** A whole budget in the loop for any budget. *)
Lemma attempt_body_with_whole url n a env w :
  attempt_body_with url (Value (JNum n)) a env w = attempt_body url n a env w.
Proof.
  unfold attempt_body_with, attempt_body.
  destruct (try_attempt url a env w) as [[r|msg] w1]; [done|]. simpl.
  destruct (a =? n) eqn:E; [|done]. by apply Z.eqb_eq in E as ->.
Qed.

Lemma retry_loop_with_whole fuel url n a envs w :
  n - a + 1 <= Z.of_nat fuel -> (0 < fuel)%nat ->
  retry_loop_with fuel url (Value (JNum n)) a envs w
  = Some (retry_loop fuel url n a envs w).
Proof.
  revert a w. induction fuel as [|fuel IH]; intros a w Hle Hpos; [lia|].
  simpl retry_loop_with. simpl retry_loop.
  change (attempt_allowed a (Value (JNum n))) with (a <=? n).
  destruct (a <=? n) eqn:E; [|done]. apply Z.leb_le in E.
  rewrite attempt_body_with_whole.
  destruct (attempt_body url n a (envs a) w) as [[r|] w1] eqn:Hb; [done|].
  assert (a ≠ n).
  { intros ->. unfold attempt_body in Hb.
    destruct (try_attempt url n (envs n) w) as [[r|msg] w2]; [done|].
    rewrite Z.eqb_refl in Hb. by destruct (final_failure _ _ _ _ _). }
  apply IH; lia.
Qed.

(** [k] failed attempts, allowed and none of them the last, are
    skipped. *)
Lemma retry_loop_with_failing k fuel url m a envs w :
  (forall i, a <= i < a + Z.of_nat k ->
             attempt_is_last i m = false /\
             exists e, fetched (envs i) = ImportFail e) ->
  (forall i, a <= i < a + Z.of_nat k -> attempt_allowed i m = true) ->
  retry_loop_with (k + fuel) url m a envs w
  = retry_loop_with fuel url m (a + Z.of_nat k) envs w.
Proof.
  revert a. induction k as [|k IH]; intros a Hfail Hallowed.
  - simpl. by rewrite Z.add_0_r.
  - simpl retry_loop_with. rewrite Hallowed by lia.
    destruct (Hfail a ltac:(lia)) as [Hlast [e He]].
    unfold attempt_body_with, try_attempt. rewrite He, Hlast.
    rewrite IH; [f_equal; lia | intros i Hi; apply Hfail; lia
                | intros i Hi; apply Hallowed; lia].
Qed.








End FetchRetry.

Lemma world_a_record :
  scheduledFeeds (sched world_a) !! generateFeedId url_a = Some record_a.
Proof.
  unfold world_a.
  destruct (@addFeed_ok sample_runtime url_a ∅ 1000 fresh 1801000)
    as (w' & E & Hm); [vm_compute; reflexivity..|].
  rewrite E. simpl. rewrite Hm, lookup_insert_eq. f_equal.
Qed.







(** ** removeFeed *)

Section RemoveFeed.
Context `{RT : Runtime}.

(** An unknown id: a failure result, and nothing happens. *)
Lemma removeFeed_unknown feedId store w :
  scheduledFeeds (sched w) !! feedId = None ->
  removeFeed feedId store w = (RemoveFail "Scheduled feed not found", w).
Proof. intros H. unfold removeFeed. by rewrite H. Qed.

Lemma drop_job_jobs feedId w :
  activeJobs (sched (drop_job feedId w)) = delete feedId (activeJobs (sched w)).
Proof.
  unfold drop_job. destruct (activeJobs (sched w) !! feedId) eqn:E; simpl; [done|].
  by rewrite delete_id.
Qed.

Lemma drop_job_feeds feedId w :
  scheduledFeeds (sched (drop_job feedId w)) = scheduledFeeds (sched w).
Proof. unfold drop_job. by destruct (activeJobs (sched w) !! feedId). Qed.

Lemma drop_job_task feedId w h tk :
  activeJobs (sched w) !! feedId = Some h ->
  cronTasks w !! h = Some tk ->
  cronTasks (drop_job feedId w) !! h = Some (set_task_scheduled false tk).
Proof.
  intros Hj Ht. unfold drop_job. rewrite Hj. simpl. unfold job_stop.
  rewrite list_lookup_alter_eq. by rewrite Ht.
Qed.

(** A known id whose removal the Feed Store answers, with or without
    success: the Job is stopped and taken out of the Job Table, the
    record is deleted, and no listed record is the one stored under
    that id. *)
Lemma removeFeed_known feedId store w rec :
  scheduledFeeds (sched w) !! feedId = Some rec ->
  (forall m, store ≠ StoreThrow m) ->
  exists w',
    removeFeed feedId store w = (RemoveOk, w') /\
    scheduledFeeds (sched w') = delete feedId (scheduledFeeds (sched w)) /\
    activeJobs (sched w') = delete feedId (activeJobs (sched w)) /\
    (forall h tk, activeJobs (sched w) !! feedId = Some h ->
                  cronTasks w !! h = Some tk ->
                  cronTasks w' !! h = Some (set_task_scheduled false tk)) /\
    (forall r, r ∈ listScheduledFeeds w' ->
               exists id', id' ≠ feedId /\ scheduledFeeds (sched w) !! id' = Some r).
Proof.
  intros Hrec Hs. unfold removeFeed. rewrite Hrec.
  assert (Hlist : forall r : jsobj,
             r ∈ (map_to_list (delete feedId (scheduledFeeds (sched w)))).*2 ->
             exists id', id' ≠ feedId /\ scheduledFeeds (sched w) !! id' = Some r).
  { intros r Hr. apply list_elem_of_fmap in Hr as ([id' r'] & -> & Hin).
    apply elem_of_map_to_list in Hin. apply lookup_delete_Some in Hin as [? ?].
    by exists id'. }
  destruct store as [|e|m]; [| |by destruct (Hs m)].
  all: eexists; split; [reflexivity|].
  all: unfold listScheduledFeeds; simpl; rewrite drop_job_feeds.
  all: split; [reflexivity|]; split; [apply drop_job_jobs|].
  all: split; [apply drop_job_task | exact Hlist].
Qed.

(** A known id whose removal throws in the Feed Store: the Job is gone
    but the record stays. *)
Lemma removeFeed_on_exception feedId m w rec :
  scheduledFeeds (sched w) !! feedId = Some rec ->
  exists w',
    removeFeed feedId (StoreThrow m) w = (RemoveFail m, w') /\
    scheduledFeeds (sched w') = scheduledFeeds (sched w) /\
    activeJobs (sched w') = delete feedId (activeJobs (sched w)).
Proof.
  intros Hrec. unfold removeFeed. rewrite Hrec.
  eexists. split; [reflexivity|]. split; [apply drop_job_feeds|apply drop_job_jobs].
Qed.

(** C6, as amended.  [removeFeed] always returns a result.  For an
    unknown id it is a failure and nothing changes.  For a known id
    whose removal the Feed Store answers, with success or with a
    failure result, it is a success: the feed's task is stopped and out
    of the Job Table, the record is deleted, and every record listed
    afterwards is one stored under another id (so none carries the
    removed id, when records carry the id they are stored under).  When
    the Feed Store throws instead, the result is a failure; the feed's
    task is stopped and out of the Job Table then too, and the record
    stays. *)
Theorem removeFeed_best_effort feedId store w :
  (scheduledFeeds (sched w) !! feedId = None ->
   removeFeed feedId store w = (RemoveFail "Scheduled feed not found", w)) /\
  (is_Some (scheduledFeeds (sched w) !! feedId) ->
   (forall m, store ≠ StoreThrow m) ->
   exists w',
     removeFeed feedId store w = (RemoveOk, w') /\
     scheduledFeeds (sched w') = delete feedId (scheduledFeeds (sched w)) /\
     activeJobs (sched w') !! feedId = None /\
     (forall h tk, activeJobs (sched w) !! feedId = Some h ->
                   cronTasks w !! h = Some tk ->
                   cronTasks w' !! h = Some (set_task_scheduled false tk)) /\
     (forall r, r ∈ listScheduledFeeds w' ->
                exists id', id' ≠ feedId /\ scheduledFeeds (sched w) !! id' = Some r) /\
     ((forall k r, scheduledFeeds (sched w) !! k = Some r -> get r "id" = JStr k) ->
      forall r, r ∈ listScheduledFeeds w' -> get r "id" ≠ JStr feedId)) /\
  (is_Some (scheduledFeeds (sched w) !! feedId) ->
   forall m, store = StoreThrow m ->
             (removeFeed feedId store w).1 = RemoveFail m /\
             activeJobs (sched (removeFeed feedId store w).2) !! feedId = None /\
             (forall h tk, activeJobs (sched w) !! feedId = Some h ->
                           cronTasks w !! h = Some tk ->
                           cronTasks (removeFeed feedId store w).2 !! h
                           = Some (set_task_scheduled false tk)) /\
             scheduledFeeds (sched (removeFeed feedId store w).2)
             = scheduledFeeds (sched w)).
Proof.
  split; [apply removeFeed_unknown|]. split.
  - intros [rec Hrec] Hs.
    destruct (removeFeed_known feedId store w rec Hrec Hs)
      as (w' & E & Hf & Hj & Ht & Hl).
    exists w'. split_and!; try done.
    + rewrite Hj. apply lookup_delete_eq.
    + intros Hid r Hr. destruct (Hl r Hr) as (id' & Hne & Hr').
      rewrite (Hid _ _ Hr'). congruence.
  - intros [rec Hrec] m ->. unfold removeFeed. rewrite Hrec. simpl.
    split; [done|]. split; [rewrite drop_job_jobs; apply lookup_delete_eq|].
    split; [apply drop_job_task|apply drop_job_feeds].
Qed.

End RemoveFeed.

(** C6 as stated fails when the Feed Store throws.  A feed is added
    while the scheduler runs; the Feed Store then throws when asked to
    remove it.  [removeFeed] returns a failure and the record is still
    stored and listed. *)
Lemma removeFeed_store_throws_keeps_record :
  let w := @run sample_runtime [OpStart; OpAddFeed (JStr url_a) ∅ StoreOk 1000] fresh in
  let res := removeFeed id_a (StoreThrow "EACCES") w in
  stored_field w id_a "url" = Some (JStr url_a) /\
  activeJobs (sched w) !! id_a = Some 0%nat /\
  res.1 = RemoveFail "EACCES" /\
  stored_field res.2 id_a "url" = Some (JStr url_a) /\
  (fun r => get r "id") <$> listScheduledFeeds res.2 = [JStr id_a].
Proof. vm_compute. repeat split; reflexivity. Qed.

Lemma removeFeed_best_effort_witness :
  let w := @run sample_runtime [OpStart; OpAddFeed (JStr url_a) ∅ StoreOk 1000] fresh in
  let res := removeFeed id_a (StoreFail "Feed not found") w in
  let thrown := removeFeed id_a (StoreThrow "EACCES") w in
  is_Some (scheduledFeeds (sched w) !! id_a) /\
  res.1 = RemoveOk /\
  scheduledFeeds (sched res.2) !! id_a = None /\
  activeJobs (sched res.2) !! id_a = None /\
  (task_scheduled <$> cronTasks res.2 !! 0%nat) = Some false /\
  removeFeed id_a StoreOk res.2 = (RemoveFail "Scheduled feed not found", res.2) /\
  thrown.1 = RemoveFail "EACCES" /\
  activeJobs (sched thrown.2) !! id_a = None /\
  (task_scheduled <$> cronTasks thrown.2 !! 0%nat) = Some false /\
  is_Some (scheduledFeeds (sched thrown.2) !! id_a).
Proof.
  intros w res thrown.
  assert (Hk : is_Some (scheduledFeeds (sched w) !! id_a)).
  { assert (H : stored_field w id_a "url" = Some (JStr url_a)) by (vm_compute; reflexivity).
    unfold stored_field in H. destruct (scheduledFeeds (sched w) !! id_a); [by eexists|done]. }
  assert (Hj : activeJobs (sched w) !! id_a = Some 0%nat) by (vm_compute; reflexivity).
  assert (Ht : cronTasks w !! 0%nat
               = Some {| task_expression := "*/30 * * * *"; task_url := JStr url_a;
                         task_scheduled := true |}) by (vm_compute; reflexivity).
  destruct (removeFeed_best_effort id_a (StoreThrow "EACCES") w) as (_ & _ & Hthrow).
  destruct (Hthrow Hk "EACCES" eq_refl) as (T1 & T2 & T3 & T4).
  destruct (removeFeed_best_effort id_a (StoreFail "Feed not found") w) as (_ & Hknown & _).
  destruct (Hknown Hk ltac:(done)) as (w' & E & Hf & Hj' & Hold & _).
  assert (res = (RemoveOk, w')) as -> by exact E.
  cbn [fst snd].
  assert (Hgone : scheduledFeeds (sched w') !! id_a = None)
    by (rewrite Hf; apply lookup_delete_eq).
  split; [exact Hk|]. split; [reflexivity|]. split; [exact Hgone|].
  split; [exact Hj'|]. split; [by rewrite (Hold _ _ Hj Ht)|].
  split; [exact (proj1 (removeFeed_best_effort id_a StoreOk w') Hgone)|].
  unfold thrown.
  split; [exact T1|]. split; [exact T2|].
  split; [rewrite (T3 _ _ Hj Ht); reflexivity|].
  rewrite T4. exact Hk.
Defined.

(** ** Statistics *)

Section Stats.
Context `{RT : Runtime}.

Lemma counters_le_refl w : counters_le w w.
Proof. unfold counters_le. lia. Qed.

Lemma counters_le_trans w1 w2 w3 :
  counters_le w1 w2 -> counters_le w2 w3 -> counters_le w1 w3.
Proof. unfold counters_le. lia. Qed.

Lemma counters_le_stats w w' : stats (sched w') = stats (sched w) -> counters_le w w'.
Proof. unfold counters_le. intros ->. lia. Qed.

Lemma createCronJob_stats feedId rec w :
  stats (sched (createCronJob feedId rec w)) = stats (sched w).
Proof.
  unfold createCronJob. destruct (get rec "interval"); try done.
  by destruct (cron_validate _).
Qed.

Lemma drop_job_stats feedId w : stats (sched (drop_job feedId w)) = stats (sched w).
Proof. unfold drop_job. by destruct (activeJobs (sched w) !! feedId). Qed.

Lemma addFeed_counters url opts store now w :
  counters_le w (addFeed url opts store now w).2.
Proof.
  unfold addFeed.
  destruct (generate_id url); [|apply counters_le_refl].
  destruct (negb _); [apply counters_le_refl|].
  unfold counters_le.
  destruct store; simpl; try lia.
  destruct (getNextRunTime _ _); simpl; [|lia].
  destruct (running _ && _); [rewrite createCronJob_stats|]; simpl; lia.
Qed.

Lemma removeFeed_counters feedId store w :
  counters_le w (removeFeed feedId store w).2.
Proof.
  unfold removeFeed. destruct (scheduledFeeds _ !! _); [|apply counters_le_refl].
  destruct store; unfold counters_le; simpl; rewrite drop_job_stats; lia.
Qed.

Lemma updateFeedSchedule_counters feedId newInterval now w :
  counters_le w (updateFeedSchedule feedId newInterval now w).2.
Proof.
  unfold updateFeedSchedule.
  destruct (scheduledFeeds _ !! _); [|apply counters_le_refl].
  destruct (negb _); [apply counters_le_refl|].
  apply counters_le_stats.
  destruct (getNextRunTime _ _); [|done].
  simpl. destruct (running _ && _); [|done].
  destruct (alter _ _ _ !! _); [|done].
  by rewrite createCronJob_stats, drop_job_stats.
Qed.

Lemma start_stats w : stats (sched (start w)) = stats (sched w).
Proof.
  unfold start. destruct (running (sched w)); [done|].
  apply (map_fold_weak_ind (fun acc _ => stats (sched acc) = stats (sched w))); [done|].
  intros id rec m acc _ IH.
  destruct (truthy _); [by rewrite createCronJob_stats|done].
Qed.

Lemma stop_stats w : stats (sched (stop w)) = stats (sched w).
Proof. unfold stop. by destruct (negb _). Qed.

Lemma pause_stats w : stats (sched (pause w)) = stats (sched w).
Proof. unfold pause. by destruct (_ || _). Qed.

Lemma resume_stats w : stats (sched (resume w)) = stats (sched w).
Proof. unfold resume. by destruct (_ || _). Qed.

Lemma try_attempt_counters url a env w r w' :
  try_attempt url a env w = (r, w') -> counters_le w w'.
Proof.
  unfold try_attempt, counters_le. intros H.
  destruct (fetched env); [|inversion H; subst; lia].
  destruct (generate_id url); [|inversion H; subst; lia].
  destruct (stored env); try (inversion H; subst; simpl; lia).
  destruct (scheduledFeeds _ !! _); [|inversion H; subst; simpl; lia].
  destruct (getNextRunTime _ _); inversion H; subst; simpl; lia.
Qed.

Lemma final_failure_counters url n msg now w r w' :
  final_failure url n msg now w = (r, w') -> counters_le w w'.
Proof.
  unfold final_failure, counters_le. intros H.
  destruct (generate_id url); [|inversion H; subst; simpl; lia].
  destruct (scheduledFeeds _ !! _); [|inversion H; subst; simpl; lia].
  destruct (getNextRunTime _ _); inversion H; subst; simpl; lia.
Qed.

Lemma attempt_body_counters url n a env w r w' :
  attempt_body url n a env w = (r, w') -> counters_le w w'.
Proof.
  unfold attempt_body. intros H.
  destruct (try_attempt url a env w) as [[res|msg] w1] eqn:Ht;
    apply try_attempt_counters in Ht.
  - by inversion H; subst.
  - destruct (a =? n).
    + destruct (final_failure url n msg (at_time env) w1) as [r2 w2] eqn:Hf.
      apply final_failure_counters in Hf. inversion H; subst.
      by eapply counters_le_trans.
    + by inversion H; subst.
Qed.

Lemma retry_loop_counters fuel url n a envs w :
  counters_le w (retry_loop fuel url n a envs w).2.
Proof.
  revert a w. induction fuel as [|fuel IH]; intros a w; simpl;
    [apply counters_le_refl|].
  destruct (a <=? n); [|apply counters_le_refl].
  destruct (attempt_body url n a (envs a) w) as [[r|] w1] eqn:Hb;
    apply attempt_body_counters in Hb; simpl; [done|].
  eapply counters_le_trans; [exact Hb|apply IH].
Qed.

Lemma fire_counters h envs w : counters_le w (fire h envs w).
Proof.
  unfold fire. destruct (cronTasks w !! h) as [t|]; [|apply counters_le_refl].
  destruct (task_scheduled t); [|apply counters_le_refl].
  destruct (paused (sched w)); [apply counters_le_refl|].
  apply retry_loop_counters.
Qed.

Lemma step_counters w o : counters_le w (step w o).
Proof.
  destruct o; simpl.
  - apply addFeed_counters.
  - apply removeFeed_counters.
  - apply updateFeedSchedule_counters.
  - apply counters_le_stats, start_stats.
  - apply counters_le_stats, stop_stats.
  - apply counters_le_stats, pause_stats.
  - apply counters_le_stats, resume_stats.
  - apply counters_le_stats. unfold close. simpl. apply stop_stats.
  - apply retry_loop_counters.
  - apply fire_counters.
Qed.

Lemma createCronJob_feeds feedId rec w :
  scheduledFeeds (sched (createCronJob feedId rec w)) = scheduledFeeds (sched w).
Proof.
  unfold createCronJob. destruct (get rec "interval"); try done.
  by destruct (cron_validate _).
Qed.

Lemma run_counters ops w : counters_le w (run ops w).
Proof.
  revert w. induction ops as [|o ops IH]; intros w; simpl.
  - apply counters_le_refl.
  - eapply counters_le_trans; [apply step_counters|apply IH].
Qed.

(** C8, as amended.  Over every sequence of operations
    [successfulUpdates] and [failedUpdates] never decrease.
    [totalFeeds] is no such counter: a successful [addFeed] or
    [removeFeed] sets it to the number of records then stored. *)
Theorem update_counters_monotone ops w :
  successfulUpdates (stats (sched w)) <= successfulUpdates (stats (sched (run ops w))) /\
  failedUpdates (stats (sched w)) <= failedUpdates (stats (sched (run ops w))) /\
  (forall url opts store now feedId t feed w',
     addFeed url opts store now w = (AddOk feedId t feed, w') ->
     totalFeeds (stats (sched w')) = Z.of_nat (size (scheduledFeeds (sched w')))) /\
  (forall feedId store w',
     removeFeed feedId store w = (RemoveOk, w') ->
     totalFeeds (stats (sched w')) = Z.of_nat (size (scheduledFeeds (sched w')))).
Proof.
  destruct (run_counters ops w) as [Hs Hf].
  split; [exact Hs|]. split; [exact Hf|]. split.
  - intros url opts store now feedId t feed w'. unfold addFeed.
    destruct (generate_id url); [|done].
    destruct (negb _); [done|]. destruct store; try done.
    destruct (getNextRunTime _ _); [|done].
    by intros [= _ _ _ <-].
  - intros feedId store w'. unfold removeFeed.
    destruct (scheduledFeeds _ !! _); [|done].
    destruct store; try done; by intros [= <-].
Qed.

End Stats.

(** C8 as stated fails for [totalFeeds]: removing the only feed takes
    it from 1 back to 0. *)
Lemma totalFeeds_decreases :
  let w1 := @run sample_runtime [OpAddFeed (JStr url_a) ∅ StoreOk 1000] fresh in
  let w2 := @run sample_runtime [OpRemoveFeed id_a StoreOk] w1 in
  totalFeeds (stats (sched w1)) = 1 /\
  totalFeeds (stats (sched w2)) = 0 /\
  ~ totalFeeds (stats (sched w1)) <= totalFeeds (stats (sched w2)).
Proof. vm_compute. repeat split; try reflexivity. intros H. by apply H. Qed.

Lemma update_counters_monotone_witness :
  let ops := [ OpFetchAndUpdateFeed (JStr url_a) no_fetch_options third_time_lucky;
               OpFetchAndUpdateFeed (JStr url_a) no_fetch_options always_failing;
               OpRemoveFeed id_a StoreOk ] in
  let w' := @run sample_runtime ops world_a in
  successfulUpdates (stats (sched world_a)) <= successfulUpdates (stats (sched w')) /\
  failedUpdates (stats (sched world_a)) <= failedUpdates (stats (sched w')) /\
  successfulUpdates (stats (sched w')) = 1 /\
  failedUpdates (stats (sched w')) = 1 /\
  (removeFeed id_a StoreOk world_a).1 = RemoveOk /\
  totalFeeds (stats (sched (removeFeed id_a StoreOk world_a).2)) = 0.
Proof.
  intros ops w'.
  destruct (@update_counters_monotone sample_runtime ops world_a) as (Hs & Hf & _ & Hrem).
  split; [exact Hs|]. split; [exact Hf|].
  split; [vm_compute; reflexivity|]. split; [vm_compute; reflexivity|].
  assert (E : (removeFeed id_a StoreOk world_a).1 = RemoveOk) by (vm_compute; reflexivity).
  split; [exact E|].
  rewrite (Hrem id_a StoreOk (removeFeed id_a StoreOk world_a).2).
  - vm_compute. reflexivity.
  - rewrite <- E. by destruct (removeFeed id_a StoreOk world_a).
Defined.

(** ** updateFeedSchedule *)

Section UpdateFeedSchedule.
Context `{RT : Runtime}.

(** Only a string that node-cron accepts passes validation. *)
Lemma validateCronExpression_valid v :
  valid (validateCronExpression v) = true ->
  exists e, v = JStr e /\ cron_validate e = true.
Proof.
  unfold validateCronExpression.
  destruct (negb (truthy v)); [done|].
  destruct v as [| | | | |e]; try done.
  destruct (cron_validate e) eqn:E; simpl; intros H; [by exists e|done].
Qed.

Lemma drop_job_length feedId w :
  length (cronTasks (drop_job feedId w)) = length (cronTasks w).
Proof.
  unfold drop_job. destruct (activeJobs (sched w) !! feedId); [|done].
  simpl. unfold job_stop. apply length_alter.
Qed.

Lemma drop_job_flags feedId w :
  running (sched (drop_job feedId w)) = running (sched w) /\
  paused (sched (drop_job feedId w)) = paused (sched w).
Proof. unfold drop_job. by destruct (activeJobs (sched w) !! feedId). Qed.

(** A record whose interval node-cron accepts gets a task. *)
Lemma createCronJob_valid feedId rec e w :
  get rec "interval" = JStr e -> cron_validate e = true ->
  createCronJob feedId rec w
  = with_sched
      (fun s => set_activeJobs (<[feedId := length (cronTasks w)]> (activeJobs s)) s)
      (set_cronTasks
         (cronTasks w ++ [ {| task_expression := e; task_url := get rec "url";
                              task_scheduled := true |} ]) w).
Proof. intros Hi Hv. unfold createCronJob. by rewrite Hi, Hv. Qed.

(** While the scheduler is running and not paused, a successful
    [updateFeedSchedule] stops the task that the Job Table held for the
    feed and puts a new task in its place, scheduled with the new
    interval and running. *)
Lemma updateFeedSchedule_running_job feedId newInterval now w t w' :
  running (sched w) = true ->
  paused (sched w) = false ->
  updateFeedSchedule feedId newInterval now w = (UpdateOk t, w') ->
  exists e rec',
    newInterval = JStr e /\
    cron_validate e = true /\
    scheduledFeeds (sched w') !! feedId = Some rec' /\
    get rec' "interval" = JStr e /\
    activeJobs (sched w') !! feedId = Some (length (cronTasks w)) /\
    cronTasks w' !! length (cronTasks w)
    = Some {| task_expression := e; task_url := get rec' "url";
              task_scheduled := true |} /\
    (forall h tk, activeJobs (sched w) !! feedId = Some h ->
                  cronTasks w !! h = Some tk ->
                  h ≠ length (cronTasks w) /\
                  cronTasks w' !! h = Some (set_task_scheduled false tk)).
Proof.
  intros Hrun Hpause. unfold updateFeedSchedule.
  destruct (scheduledFeeds (sched w) !! feedId) as [rec|] eqn:Hrec; [|done].
  destruct (valid (validateCronExpression newInterval)) eqn:Hv; [|done].
  apply validateCronExpression_valid in Hv as (e & -> & Hv).
  cbv iota beta. simpl negb. cbv iota.
  destruct (getNextRunTime (JStr e) now) as [t'|]; [|done].
  set (w2 := saveScheduledFeeds _).
  set (rec' := <["nextRun" := JStr (Iso.format t')]> (<["interval" := JStr e]> rec)).
  assert (Hrec' : scheduledFeeds (sched w2) !! feedId = Some rec').
  { subst w2. simpl. rewrite !lookup_alter_eq, Hrec. done. }
  change (running (sched w2)) with (running (sched w)).
  change (paused (sched w2)) with (paused (sched w)).
  rewrite Hrun, Hpause, Hrec'. simpl andb. cbv iota.
  assert (Hi : get rec' "interval" = JStr e).
  { subst rec'. rewrite get_insert_ne by done. apply get_insert_eq. }
  rewrite (createCronJob_valid feedId rec' e _ Hi Hv).
  rewrite drop_job_length.
  change (cronTasks w2) with (cronTasks w).
  intros [= <- <-].
  exists e, rec'. split; [done|]. split; [done|].
  split.
  { simpl. by rewrite drop_job_feeds. }
  split; [done|]. split; [simpl; apply lookup_insert_eq|].
  split.
  { simpl. rewrite lookup_app_r by (rewrite drop_job_length; simpl; lia).
    rewrite drop_job_length. simpl. by rewrite Nat.sub_diag. }
  intros h tk Hj Ht.
  assert (Hlt : (h < length (cronTasks w))%nat) by (by eapply lookup_lt_Some).
  split; [lia|]. simpl.
  rewrite lookup_app_l by (rewrite drop_job_length; simpl; lia).
  by apply (drop_job_task feedId w2 h tk).
Qed.

End UpdateFeedSchedule.

(** C3 as stated fails in the paused state.  The feed of [world_paused]
    is rescheduled to every ten minutes: the update succeeds, yet the
    Job Table still holds the task scheduled with the old interval, and
    [resume] restarts that task. *)
Lemma updateFeedSchedule_paused_keeps_stale_job :
  let res := @updateFeedSchedule sample_runtime id_a (JStr "*/10 * * * *") 2000 world_paused in
  isRunning world_paused = true /\
  isPaused world_paused = true /\
  stored_field world_paused id_a "interval" = Some (JStr "*/5 * * * *") /\
  res.1 = UpdateOk 602000 /\
  stored_field res.2 id_a "interval" = Some (JStr "*/10 * * * *") /\
  activeJobs (sched res.2) !! id_a = Some 0%nat /\
  cronTasks res.2
  = [ {| task_expression := "*/5 * * * *"; task_url := JStr url_a;
         task_scheduled := false |} ] /\
  activeJobs (sched (resume res.2)) !! id_a = Some 0%nat /\
  cronTasks (resume res.2)
  = [ {| task_expression := "*/5 * * * *"; task_url := JStr url_a;
         task_scheduled := true |} ].
Proof. vm_compute. repeat split; reflexivity. Qed.

(** ** start, stop, pause, resume *)

Section Lifecycle.
Context `{RT : Runtime}.

Lemma createCronJob_spec feedId rec w :
  createCronJob feedId rec w
  = match job_expression rec with
    | Some e =>
        with_sched
          (fun s => set_activeJobs (<[feedId := length (cronTasks w)]> (activeJobs s)) s)
          (set_cronTasks
             (cronTasks w ++ [ {| task_expression := e; task_url := get rec "url";
                                  task_scheduled := true |} ]) w)
    | None => w
    end.
Proof.
  unfold createCronJob, job_expression.
  destruct (get rec "interval"); try done. by destruct (cron_validate _).
Qed.

(** One turn of the loop of [start]. *)
Lemma start_turn feedId rec w :
  (if truthy (get rec "enabled") then createCronJob feedId rec w else w)
  = match wanted_job rec with
    | Some e =>
        with_sched
          (fun s => set_activeJobs (<[feedId := length (cronTasks w)]> (activeJobs s)) s)
          (set_cronTasks
             (cronTasks w ++ [ {| task_expression := e; task_url := get rec "url";
                                  task_scheduled := true |} ]) w)
    | None => w
    end.
Proof.
  unfold wanted_job. destruct (truthy _); [apply createCronJob_spec|done].
Qed.

Lemma started_fold w0 m :
  activeJobs (sched w0) = ∅ ->
  started w0
    (map_fold
       (fun feedId scheduledFeed acc =>
          if truthy (get scheduledFeed "enabled")
          then createCronJob feedId scheduledFeed acc else acc)
       w0 m)
    m.
Proof.
  intros Hempty.
  apply (map_fold_weak_ind (started w0)).
  - unfold started. split_and!; try done.
    + by exists []; rewrite app_nil_r.
    + intros id. by rewrite Hempty, !lookup_empty.
    + intros id h. by rewrite Hempty, lookup_empty.
    + intros id1 id2 h. by rewrite Hempty, lookup_empty.
  - intros i x m' acc Hi (Hr & Hp & Hf & [new Hnew] & Hnone & Hsome & Hinj).
    rewrite start_turn. unfold started.
    destruct (wanted_job x) as [e|] eqn:Hw.
    + split_and!; try done.
      * exists (new ++ [ {| task_expression := e; task_url := get x "url";
                            task_scheduled := true |} ])%list.
        simpl. by rewrite Hnew, app_assoc.
      * intros feedId. simpl. destruct (decide (i = feedId)) as [->|Hne].
        -- rewrite !lookup_insert_eq. simpl. by rewrite Hw.
        -- rewrite !lookup_insert_ne by done. apply Hnone.
      * intros feedId h. simpl. destruct (decide (i = feedId)) as [->|Hne].
        -- rewrite !lookup_insert_eq. intros [= <-].
           exists x, e. split; [done|]. split; [done|].
           by rewrite list_lookup_middle.
        -- rewrite !lookup_insert_ne by done. intros Hj.
           destruct (Hsome _ _ Hj) as (rec & e' & ? & ? & Ht).
           exists rec, e'. split; [done|]. split; [done|].
           by apply lookup_app_l_Some.
      * intros id1 id2 h. simpl.
        destruct (decide (i = id1)) as [<-|Hne1];
          destruct (decide (i = id2)) as [<-|Hne2]; try done.
        -- rewrite lookup_insert_eq, lookup_insert_ne by done. intros [= <-] Hj.
           destruct (Hsome _ _ Hj) as (? & ? & _ & _ & Ht).
           apply lookup_lt_Some in Ht. lia.
        -- rewrite lookup_insert_eq, lookup_insert_ne by done. intros Hj [= <-].
           destruct (Hsome _ _ Hj) as (? & ? & _ & _ & Ht).
           apply lookup_lt_Some in Ht. lia.
        -- rewrite !lookup_insert_ne by done. apply Hinj.
    + split_and!; try done.
      * by exists new.
      * intros feedId. destruct (decide (i = feedId)) as [->|Hne].
        -- rewrite lookup_insert_eq. simpl. rewrite Hw.
           split; [done|]. intros _. apply Hnone. by rewrite Hi.
        -- rewrite lookup_insert_ne by done. apply Hnone.
      * intros feedId h Hj. destruct (decide (i = feedId)) as [->|Hne].
        -- assert (activeJobs (sched acc) !! feedId = None) as Hn
             by (apply Hnone; by rewrite Hi).
           congruence.
        -- rewrite lookup_insert_ne by done. by apply Hsome.
Qed.

(** [start] from the stopped state with an empty Job Table: the
    records are as before, tasks are only added, and the Job Table has
    one task for each enabled record with an interval node-cron
    accepts, a different task for each, and nothing else. *)
Lemma start_from_stopped w :
  running (sched w) = false ->
  activeJobs (sched w) = ∅ ->
  started (with_sched (fun s => set_paused false (set_running true s)) w)
    (start w) (scheduledFeeds (sched w)).
Proof.
  intros Hr Hj. unfold start. rewrite Hr.
  by apply (started_fold (with_sched (fun s => set_paused false (set_running true s)) w)).
Qed.

Lemma start_running w : running (sched (start w)) = true.
Proof.
  unfold start. destruct (running (sched w)) eqn:Hr; [done|].
  apply (map_fold_weak_ind (fun acc _ => running (sched acc) = true)); [done|].
  intros i x m acc _ IH. rewrite start_turn. by destruct (wanted_job x).
Qed.

Lemma start_when_running w : running (sched w) = true -> start w = w.
Proof. intros H. unfold start. by rewrite H. Qed.

End Lifecycle.

Section StartTwice.
Context `{RT : Runtime}.

(** C7, as amended.  In every state a second [start] changes nothing
    and the scheduler is running after it; [start] while running does
    nothing at all.  When [start] is called in the stopped state with
    an empty Job Table, the Job Table afterwards has a task for a feed
    id exactly when the record under that id is enabled and has an
    interval node-cron accepts; the task is scheduled with that
    interval and running, and no two ids share a task. *)
Theorem start_idempotent w :
  start (start w) = start w /\
  isRunning (start w) = true /\
  (running (sched w) = true -> start w = w) /\
  (running (sched w) = false -> activeJobs (sched w) = ∅ ->
   scheduledFeeds (sched (start w)) = scheduledFeeds (sched w) /\
   (forall feedId,
      activeJobs (sched (start w)) !! feedId = None <->
      scheduledFeeds (sched w) !! feedId ≫= wanted_job = None) /\
   (forall feedId h,
      activeJobs (sched (start w)) !! feedId = Some h ->
      exists rec e,
        scheduledFeeds (sched w) !! feedId = Some rec /\
        wanted_job rec = Some e /\
        cronTasks (start w) !! h
        = Some {| task_expression := e; task_url := get rec "url";
                  task_scheduled := true |}) /\
   (forall id1 id2 h,
      activeJobs (sched (start w)) !! id1 = Some h ->
      activeJobs (sched (start w)) !! id2 = Some h -> id1 = id2)).
Proof.
  split; [apply start_when_running, start_running|].
  split; [apply start_running|].
  split; [apply start_when_running|].
  intros Hr Hj.
  destruct (start_from_stopped w Hr Hj) as (_ & _ & Hf & _ & Hnone & Hsome & Hinj).
  by split_and!.
Qed.

End StartTwice.

(** C7 as stated fails in a running state.  A feed is added while the
    scheduler is paused and the scheduler is resumed: the enabled record
    has no task, and calling [start] twice does not give it one. *)
Lemma start_twice_leaves_feed_without_job :
  let w := @run sample_runtime
             [ OpStart; OpPause; OpAddFeed (JStr url_a) ∅ StoreOk 1000; OpResume ]
             fresh in
  let w' := @start sample_runtime (@start sample_runtime w) in
  isRunning w' = true /\
  isPaused w' = false /\
  stored_field w' id_a "enabled" = Some (JBool true) /\
  stored_field w' id_a "interval" = Some (JStr "*/30 * * * *") /\
  @cron_validate sample_runtime "*/30 * * * *" = true /\
  activeJobs (sched w') !! id_a = None /\
  cronTasks w' = [].
Proof. vm_compute. repeat split; reflexivity. Qed.

Lemma start_idempotent_witness :
  running (sched world_a) = false /\
  activeJobs (sched world_a) = ∅ /\
  @start sample_runtime (@start sample_runtime world_a) = @start sample_runtime world_a /\
  exists h,
    activeJobs (sched (@start sample_runtime world_a)) !! generateFeedId url_a = Some h /\
    cronTasks (@start sample_runtime world_a) !! h
    = Some {| task_expression := "*/30 * * * *"; task_url := JStr url_a;
              task_scheduled := true |}.
Proof.
  assert (Hr : running (sched world_a) = false) by (vm_compute; reflexivity).
  assert (Hj : activeJobs (sched world_a) = ∅) by (vm_compute; reflexivity).
  assert (Hw : @wanted_job sample_runtime record_a = Some "*/30 * * * *")
    by (vm_compute; reflexivity).
  assert (Hu : get record_a "url" = JStr url_a) by (vm_compute; reflexivity).
  destruct (@start_idempotent sample_runtime world_a) as (H1 & _ & _ & H4).
  destruct (H4 Hr Hj) as (_ & Hnone & Hsome & _).
  split; [exact Hr|]. split; [exact Hj|]. split; [exact H1|].
  destruct (activeJobs (sched (@start sample_runtime world_a)) !! generateFeedId url_a)
    as [h|] eqn:E.
  - exists h. split; [reflexivity|].
    destruct (Hsome _ _ E) as (rec & e & Hrec & Hwe & Ht).
    rewrite world_a_record in Hrec. injection Hrec as <-.
    rewrite Hw in Hwe. injection Hwe as <-. by rewrite Ht, Hu.
  - apply Hnone in E. rewrite world_a_record in E. simpl in E. congruence.
Defined.

(** ** A feed added while paused *)

Section PausedAdd.
Context `{RT : Runtime}.

Lemma createCronJob_running feedId rec w :
  running (sched (createCronJob feedId rec w)) = running (sched w).
Proof. rewrite createCronJob_spec. by destruct (job_expression rec). Qed.

Lemma createCronJob_jobs_ne feedId rec w id :
  feedId ≠ id ->
  activeJobs (sched (createCronJob feedId rec w)) !! id = activeJobs (sched w) !! id.
Proof.
  intros Hne. rewrite createCronJob_spec. destruct (job_expression rec); [|done].
  simpl. by rewrite lookup_insert_ne.
Qed.

Lemma addFeed_running url opts store now w :
  running (sched (addFeed url opts store now w).2) = running (sched w).
Proof.
  unfold addFeed.
  destruct (generate_id url); [|done].
  destruct (negb _); [done|].
  destruct store; try done.
  destruct (getNextRunTime _ _); [|done].
  simpl. destruct (running _ && _); [by rewrite createCronJob_running|done].
Qed.

Lemma addFeed_jobs_other url opts store now w id :
  targets id (OpAddFeed url opts store now) = false ->
  activeJobs (sched (addFeed url opts store now w).2) !! id
  = activeJobs (sched w) !! id.
Proof.
  intros Ht. unfold addFeed.
  destruct url as [| | | | |u]; try done. simpl in *.
  destruct (negb _); [done|].
  destruct store; try done.
  destruct (getNextRunTime _ _); [|done].
  simpl. destruct (running _ && _); [|done].
  rewrite createCronJob_jobs_ne; [done|].
  intros Heq. by rewrite Heq, String.eqb_refl in Ht.
Qed.

Lemma removeFeed_running feedId store w :
  running (sched (removeFeed feedId store w).2) = running (sched w).
Proof.
  unfold removeFeed. destruct (scheduledFeeds _ !! _); [|done].
  destruct store; simpl; by rewrite (proj1 (drop_job_flags _ _)).
Qed.

Lemma removeFeed_jobs_none feedId store w id :
  activeJobs (sched w) !! id = None ->
  activeJobs (sched (removeFeed feedId store w).2) !! id = None.
Proof.
  intros Hn. unfold removeFeed. destruct (scheduledFeeds _ !! _); [|done].
  destruct store; simpl; rewrite drop_job_jobs;
    apply lookup_delete_None; by right.
Qed.

Lemma updateFeedSchedule_running feedId newInterval now w :
  running (sched (updateFeedSchedule feedId newInterval now w).2) = running (sched w).
Proof.
  unfold updateFeedSchedule. destruct (scheduledFeeds _ !! _); [|done].
  destruct (negb _); [done|].
  destruct (getNextRunTime _ _); [|done].
  simpl. destruct (running _ && _) eqn:E; [|done].
  destruct (alter _ _ _ !! _); [|done].
  rewrite createCronJob_running. by rewrite (proj1 (drop_job_flags _ _)).
Qed.

Lemma updateFeedSchedule_jobs_other feedId newInterval now w id :
  feedId ≠ id ->
  activeJobs (sched w) !! id = None ->
  activeJobs (sched (updateFeedSchedule feedId newInterval now w).2) !! id = None.
Proof.
  intros Hne Hn. unfold updateFeedSchedule. destruct (scheduledFeeds _ !! _); [|done].
  destruct (negb _); [done|].
  destruct (getNextRunTime _ _); [|done].
  simpl. destruct (running _ && _) eqn:E; [|done].
  destruct (alter _ _ _ !! _); [|done].
  rewrite createCronJob_jobs_ne by done. rewrite drop_job_jobs.
  apply lookup_delete_None. by right.
Qed.

Lemma stop_jobs_none w id :
  activeJobs (sched w) !! id = None -> activeJobs (sched (stop w)) !! id = None.
Proof. intros Hn. unfold stop. destruct (negb _); [done|]. apply lookup_empty. Qed.

Lemma pause_control w :
  activeJobs (sched (pause w)) = activeJobs (sched w) /\
  running (sched (pause w)) = running (sched w).
Proof. unfold pause. by destruct (_ || _). Qed.

Lemma resume_control w :
  activeJobs (sched (resume w)) = activeJobs (sched w) /\
  running (sched (resume w)) = running (sched w).
Proof. unfold resume. by destruct (_ || _). Qed.

Lemma start_all_length jobs ts : length (start_all jobs ts) = length ts.
Proof.
  unfold start_all.
  apply (map_fold_weak_ind (fun acc _ => length acc = length ts)); [done|].
  intros i h m acc _ IH. unfold job_start. by rewrite length_alter.
Qed.

Lemma control_jobs w w' :
  control w' = control w ->
  activeJobs (sched w') = activeJobs (sched w) /\
  running (sched w') = running (sched w).
Proof. unfold control. by intros [= -> -> _ _ _]. Qed.

(** An operation other than [start] that does not add or reschedule the
    feed leaves it without a task. *)
Lemma step_jobs_none id o w :
  targets id o = false -> is_start o = false ->
  activeJobs (sched w) !! id = None ->
  activeJobs (sched (step w o)) !! id = None.
Proof.
  intros Ht Hs Hn. destruct o; simpl in *; try done.
  - by rewrite addFeed_jobs_other.
  - by apply removeFeed_jobs_none.
  - apply updateFeedSchedule_jobs_other; [|done].
    intros ->. by rewrite String.eqb_refl in Ht.
  - by apply stop_jobs_none.
  - by rewrite (proj1 (pause_control w)).
  - by rewrite (proj1 (resume_control w)).
  - by apply stop_jobs_none.
  - by rewrite (proj1 (control_jobs _ _ (fetchAndUpdateFeed_control url opts envs w))).
  - by rewrite (proj1 (control_jobs _ _ (fire_control h envs w))).
Qed.

(** While nothing stops the scheduler it stays running. *)
Lemma step_running o w :
  is_stop o = false -> running (sched w) = true ->
  running (sched (step w o)) = true.
Proof.
  intros Hs Hr. destruct o; simpl in *; try done.
  - by rewrite addFeed_running.
  - by rewrite removeFeed_running.
  - by rewrite updateFeedSchedule_running.
  - apply start_running.
  - by rewrite (proj2 (pause_control w)).
  - by rewrite (proj2 (resume_control w)).
  - by rewrite (proj2 (control_jobs _ _ (fetchAndUpdateFeed_control url opts envs w))).
  - by rewrite (proj2 (control_jobs _ _ (fire_control h envs w))).
Qed.

Lemma run_without_start id ops w :
  existsb (targets id) ops = false ->
  existsb is_start ops = false ->
  activeJobs (sched w) !! id = None ->
  activeJobs (sched (run ops w)) !! id = None.
Proof.
  revert w. induction ops as [|o ops IH]; intros w Ht Hs Hn; [done|].
  simpl in *. apply orb_false_iff in Ht as [Ht1 Ht2].
  apply orb_false_iff in Hs as [Hs1 Hs2].
  apply IH; [done..|]. by apply step_jobs_none.
Qed.

(** A feed without a task in a running scheduler stays without one
    until the scheduler has been stopped and started again, unless the
    feed is added again or rescheduled. *)
Lemma run_without_restart id ops w :
  existsb (targets id) ops = false ->
  restarted ops = false ->
  running (sched w) = true ->
  activeJobs (sched w) !! id = None ->
  activeJobs (sched (run ops w)) !! id = None.
Proof.
  revert w. induction ops as [|o ops IH]; intros w Ht Hs Hr Hn; [done|].
  simpl in *. apply orb_false_iff in Ht as [Ht1 Ht2].
  apply orb_false_iff in Hs as [Hs1 Hs2].
  destruct (is_stop o) eqn:Hstop.
  - simpl in Hs1. apply run_without_start; [done..|].
    apply step_jobs_none; [done| |done]. by destruct o.
  - destruct (is_start o) eqn:Hstart.
    + destruct o; try done. simpl. rewrite (start_when_running w Hr). by apply IH.
    + apply IH; [done..| |].
      * by apply step_running.
      * by apply step_jobs_none.
Qed.

(** A stopped scheduler has an empty Job Table, in every state that
    operations reach from a new scheduler. *)
Lemma step_stopped_no_jobs o w :
  (running (sched w) = false -> activeJobs (sched w) = ∅) ->
  running (sched (step w o)) = false -> activeJobs (sched (step w o)) = ∅.
Proof.
  intros Hinv. destruct o; simpl.
  - rewrite addFeed_running. intros Hr. specialize (Hinv Hr).
    unfold addFeed. destruct (generate_id url); [|done].
    destruct (negb _); [done|]. destruct store; try done.
    destruct (getNextRunTime _ _); [|done]. simpl. by rewrite Hr.
  - rewrite removeFeed_running. intros Hr. specialize (Hinv Hr).
    unfold removeFeed. destruct (scheduledFeeds _ !! _); [|done].
    destruct store; simpl; rewrite drop_job_jobs, Hinv; apply delete_empty.
  - rewrite updateFeedSchedule_running. intros Hr. specialize (Hinv Hr).
    unfold updateFeedSchedule. destruct (scheduledFeeds _ !! _); [|done].
    destruct (negb _); [done|]. destruct (getNextRunTime _ _); [|done].
    simpl. by rewrite Hr.
  - by rewrite start_running.
  - unfold stop. destruct (running (sched w)) eqn:E; simpl; [done|by rewrite E].
  - destruct (pause_control w) as [-> ->]. exact Hinv.
  - destruct (resume_control w) as [-> ->]. exact Hinv.
  - unfold close, stop. destruct (running (sched w)) eqn:E; simpl; [done|by rewrite E].
  - destruct (control_jobs _ _ (fetchAndUpdateFeed_control url opts envs w)) as [-> ->].
    exact Hinv.
  - destruct (control_jobs _ _ (fire_control h envs w)) as [-> ->]. exact Hinv.
Qed.

Lemma stopped_has_no_jobs cfg file ops :
  running (sched (run ops (FeedScheduler_new cfg file))) = false ->
  activeJobs (sched (run ops (FeedScheduler_new cfg file))) = ∅.
Proof.
  assert (H : forall w, (running (sched w) = false -> activeJobs (sched w) = ∅) ->
                        running (sched (run ops w)) = false ->
                        activeJobs (sched (run ops w)) = ∅).
  { induction ops as [|o ops IH]; intros w Hinv; [done|].
    simpl. apply IH. by apply step_stopped_no_jobs. }
  apply H. done.
Qed.

(** C10, as amended.  A successful [addFeed] while the scheduler is
    paused stores the record and creates no task; [resume] creates none
    either, it only restarts the tasks of the Job Table.  After that the
    feed has no task for as long as the scheduler is not stopped and
    started again and the feed is not added again or rescheduled; and
    [stop] followed by [start] gives it one, when the record is enabled
    and its interval is one node-cron accepts. *)
Theorem paused_add_creates_no_job u opts store now w feedId t feed w1 :
  running (sched w) = true ->
  paused (sched w) = true ->
  activeJobs (sched w) !! generateFeedId u = None ->
  addFeed (JStr u) opts store now w = (AddOk feedId t feed, w1) ->
  feedId = generateFeedId u /\
  scheduledFeeds (sched w1) !! feedId = Some feed /\
  activeJobs (sched w1) = activeJobs (sched w) /\
  cronTasks w1 = cronTasks w /\
  activeJobs (sched (resume w1)) = activeJobs (sched w) /\
  length (cronTasks (resume w1)) = length (cronTasks w) /\
  (forall ops,
     existsb (targets feedId) ops = false ->
     restarted ops = false ->
     activeJobs (sched (run ops w1)) !! feedId = None) /\
  (forall e,
     wanted_job feed = Some e ->
     exists h,
       activeJobs (sched (start (stop w1))) !! feedId = Some h /\
       cronTasks (start (stop w1)) !! h
       = Some {| task_expression := e; task_url := get feed "url";
                 task_scheduled := true |}).
Proof.
  intros Hr Hp Hn Hadd.
  pose proof (addFeed_ok_inv _ _ _ _ _ _ _ _ _ Hadd)
    as (u' & [= <-] & -> & -> & Hv & Ht & Hfeed & Hfeeds).
  assert (Hjobs : activeJobs (sched w1) = activeJobs (sched w) /\
                  cronTasks w1 = cronTasks w /\
                  running (sched w1) = true /\ paused (sched w1) = true).
  { revert Hadd. unfold addFeed. simpl generate_id. cbv iota beta.
    rewrite Hv, Ht. simpl negb. cbv iota.
    change (running (sched (saveScheduledFeeds ?x))) with (running (sched x)).
    change (paused (sched (saveScheduledFeeds ?x))) with (paused (sched x)).
    simpl running. simpl paused. rewrite Hr, Hp. simpl andb. cbv iota.
    intros [= _ <-]. simpl. by rewrite Hr, Hp. }
  destruct Hjobs as (Hj1 & Hc1 & Hr1 & Hp1).
  split; [done|]. split; [by rewrite Hfeeds, lookup_insert_eq|].
  split; [done|]. split; [done|].
  split; [by rewrite (proj1 (resume_control w1))|].
  split.
  { unfold resume. rewrite Hr1, Hp1. simpl. by rewrite start_all_length, Hc1. }
  split.
  { intros ops Hto Hre. apply run_without_restart; [done..|]. by rewrite Hj1. }
  intros e Hw.
  assert (Hstop : running (sched (stop w1)) = false /\
                  activeJobs (sched (stop w1)) = ∅ /\
                  scheduledFeeds (sched (stop w1)) = scheduledFeeds (sched w1)).
  { unfold stop. by rewrite Hr1. }
  destruct Hstop as (Hsr & Hsj & Hsf).
  destruct (start_from_stopped (stop w1) Hsr Hsj) as (_ & _ & _ & _ & Hnone & Hsome & _).
  assert (Hlook : scheduledFeeds (sched (stop w1)) !! generateFeedId u = Some feed)
    by (by rewrite Hsf, Hfeeds, lookup_insert_eq).
  destruct (activeJobs (sched (start (stop w1))) !! generateFeedId u) as [h|] eqn:E.
  - exists h. split; [done|].
    destruct (Hsome _ _ E) as (rec & e' & Hrec & Hwe & Htask).
    rewrite Hlook in Hrec. injection Hrec as <-.
    rewrite Hw in Hwe. by injection Hwe as <-.
  - apply Hnone in E. rewrite Hlook in E. simpl in E. congruence.
Qed.

End PausedAdd.

(** C10 as stated fails when the feed is rescheduled.  A feed is added
    while the scheduler is paused; after [resume] it is rescheduled.  It
    then has a task although the scheduler was never stopped and started
    again. *)
Lemma paused_add_then_reschedule_creates_job :
  let w1 := @run sample_runtime
              [ OpStart; OpPause; OpAddFeed (JStr url_a) ∅ StoreOk 1000 ] fresh in
  let w2 := @run sample_runtime
              [ OpResume; OpUpdateFeedSchedule id_a (JStr "*/30 * * * *") 2000 ] w1 in
  isRunning w1 = true /\
  isPaused w1 = true /\
  activeJobs (sched w1) !! id_a = None /\
  activeJobs (sched (resume w1)) !! id_a = None /\
  restarted [ OpResume; OpUpdateFeedSchedule id_a (JStr "*/30 * * * *") 2000 ] = false /\
  activeJobs (sched w2) !! id_a = Some 0%nat /\
  cronTasks w2
  = [ {| task_expression := "*/30 * * * *"; task_url := JStr url_a;
         task_scheduled := true |} ].
Proof. vm_compute. repeat split; reflexivity. Qed.

Lemma paused_add_creates_no_job_witness :
  let w := @run sample_runtime [ OpStart; OpPause ] fresh in
  let res := @addFeed sample_runtime (JStr url_a) ∅ StoreOk 1000 w in
  running (sched w) = true /\
  paused (sched w) = true /\
  activeJobs (sched w) !! generateFeedId url_a = None /\
  is_Some (scheduledFeeds (sched res.2) !! generateFeedId url_a) /\
  activeJobs (sched res.2) = activeJobs (sched w) /\
  activeJobs (sched (@run sample_runtime [ OpResume ] res.2)) !! generateFeedId url_a = None /\
  is_Some (activeJobs (sched (@start sample_runtime (stop res.2))) !! generateFeedId url_a).
Proof.
  intros w res.
  assert (Hr : running (sched w) = true) by (vm_compute; reflexivity).
  assert (Hp : paused (sched w) = true) by (vm_compute; reflexivity).
  assert (Hn : activeJobs (sched w) !! generateFeedId url_a = None)
    by (vm_compute; reflexivity).
  destruct (@addFeed_ok sample_runtime url_a ∅ 1000 w 1801000)
    as (w1 & E & _); [vm_compute; reflexivity..|].
  destruct (@paused_add_creates_no_job sample_runtime url_a ∅ StoreOk 1000 w _ _ _ w1
              Hr Hp Hn E)
    as (_ & Hrec & Hj & _ & _ & _ & Hops & Hstart).
  assert (res.2 = w1) as -> by (subst res; by rewrite E).
  split; [exact Hr|]. split; [exact Hp|]. split; [exact Hn|].
  split; [by eexists|]. split; [exact Hj|].
  split; [by apply Hops|].
  destruct (Hstart "*/30 * * * *") as (h & Hh & _); [vm_compute; reflexivity|].
  by exists h.
Defined.

(** * Further properties *)

(** ** Well-formed worlds *)

Section WellFormed.
Context `{RT : Runtime}.

(** [job.stop()] or [job.start()] on every task of the Job Table: the
    tasks of the table get the flag, the others are left alone. *)
Lemma set_all_lookup (b : bool) (jobs : gmap string nat) (ts : list task) :
  let ts' := map_fold (fun _ h acc => alter (set_task_scheduled b) h acc) ts jobs in
  length ts' = length ts /\
  (forall h, (exists feedId, jobs !! feedId = Some h) ->
             ts' !! h = set_task_scheduled b <$> ts !! h) /\
  (forall h, (forall feedId, jobs !! feedId ≠ Some h) -> ts' !! h = ts !! h).
Proof.
  apply (map_fold_weak_ind
           (fun acc (m : gmap string nat) =>
              length acc = length ts /\
              (forall h, (exists feedId, m !! feedId = Some h) ->
                         acc !! h = set_task_scheduled b <$> ts !! h) /\
              (forall h, (forall feedId, m !! feedId ≠ Some h) -> acc !! h = ts !! h))).
  - split; [done|]. split; [|done].
    intros h [feedId Hf]. by rewrite lookup_empty in Hf.
  - intros i x m acc Hi (Hlen & Hin & Hout).
    split; [by rewrite length_alter|]. split.
    + intros h [feedId Hf].
      destruct (decide (x = h)) as [->|Hne].
      * rewrite list_lookup_alter_eq.
        destruct (decide (h ∈ (map_img m : gset nat))) as [Hex|Hnex].
        -- apply elem_of_map_img in Hex. rewrite (Hin h Hex). by destruct (ts !! h).
        -- rewrite (Hout h); [done|]. intros feedId' Hf'. apply Hnex.
           apply elem_of_map_img. by exists feedId'.
      * rewrite list_lookup_alter_ne by done. apply Hin.
        destruct (decide (i = feedId)) as [->|Hne'].
        -- rewrite lookup_insert_eq in Hf. congruence.
        -- rewrite lookup_insert_ne in Hf by done. by exists feedId.
    + intros h Hno.
      assert (x ≠ h) as Hne.
      { intros ->. apply (Hno i). apply lookup_insert_eq. }
      rewrite list_lookup_alter_ne by done. apply Hout.
      intros feedId Hf. apply (Hno feedId).
      rewrite lookup_insert_ne; [done|]. intros ->. congruence.
Qed.

(** The conditions on the handles hold of an empty Job Table. *)
Lemma wf_empty_jobs w :
  activeJobs (sched w) = ∅ ->
  (paused (sched w) = true -> running (sched w) = true) ->
  well_formed w.
Proof.
  intros Hj Hp. split; rewrite ?Hj; try done.
  all: intros *; rewrite ?lookup_empty; try done; by intros [? ?].
Qed.

Lemma wf_new cfg file : well_formed (FeedScheduler_new cfg file).
Proof. by apply wf_empty_jobs. Qed.

(** A change outside the Job Table, the flags and the tasks keeps a
    world well formed when the records of the Job Table stay. *)
Lemma wf_frame w w' :
  well_formed w ->
  control w' = control w ->
  (forall feedId, is_Some (activeJobs (sched w) !! feedId) ->
                  is_Some (scheduledFeeds (sched w') !! feedId)) ->
  well_formed w'.
Proof.
  intros [Hp Hs Ht Hd Hr] Hc Hrec. unfold control in Hc.
  injection Hc as Hj Hrun Hpa Hts _.
  split; rewrite ?Hj, ?Hrun, ?Hpa, ?Hts; done.
Qed.

Lemma wf_createCronJob feedId rec w :
  well_formed w ->
  paused (sched w) = false ->
  running (sched w) = true ->
  is_Some (scheduledFeeds (sched w) !! feedId) ->
  well_formed (createCronJob feedId rec w).
Proof.
  intros [Hp Hs Ht Hd Hr] Hpa Hrun Hrec. rewrite createCronJob_spec.
  destruct (job_expression rec) as [e|]; [|done].
  split; simpl.
  - done.
  - by rewrite Hrun.
  - intros id h. rewrite Hpa. destruct (decide (feedId = id)) as [->|Hne].
    + rewrite lookup_insert_eq. intros [= <-].
      eexists. by rewrite list_lookup_middle.
    + rewrite lookup_insert_ne by done. intros Hj.
      destruct (Ht _ _ Hj) as (tk & Htk & Hsch). exists tk.
      split; [by apply lookup_app_l_Some|]. by rewrite Hsch, Hpa.
  - intros id1 id2 h.
    destruct (decide (feedId = id1)) as [<-|Hne1];
      destruct (decide (feedId = id2)) as [<-|Hne2]; try done.
    + rewrite lookup_insert_eq, lookup_insert_ne by done. intros [= <-] Hj.
      destruct (Ht _ _ Hj) as (tk & Htk & _). apply lookup_lt_Some in Htk. lia.
    + rewrite lookup_insert_eq, lookup_insert_ne by done. intros Hj [= <-].
      destruct (Ht _ _ Hj) as (tk & Htk & _). apply lookup_lt_Some in Htk. lia.
    + rewrite !lookup_insert_ne by done. apply Hd.
  - intros id. destruct (decide (feedId = id)) as [<-|Hne]; [done|].
    rewrite lookup_insert_ne by done. apply Hr.
Qed.

Lemma wf_drop_job feedId w :
  well_formed w -> well_formed (drop_job feedId w).
Proof.
  intros [Hp Hs Ht Hd Hr]. unfold drop_job.
  destruct (activeJobs (sched w) !! feedId) as [h|] eqn:Hh; [|done].
  split; simpl.
  - done.
  - intros Hrun. rewrite (Hs Hrun). apply delete_empty.
  - intros id h'. destruct (decide (feedId = id)) as [->|Hne].
    + by rewrite lookup_delete_eq.
    + rewrite lookup_delete_ne by done. intros Hj.
      destruct (Ht _ _ Hj) as (tk & Htk & Hsch). exists tk. split; [|done].
      unfold job_stop. rewrite list_lookup_alter_ne; [done|].
      intros ->. apply Hne. by apply (Hd _ _ _ Hh Hj).
  - intros id1 id2 h'.
    destruct (decide (feedId = id1)) as [->|Hne1]; [by rewrite lookup_delete_eq|].
    destruct (decide (feedId = id2)) as [->|Hne2]; [by rewrite lookup_delete_eq|].
    rewrite !lookup_delete_ne by done. apply Hd.
  - intros id. destruct (decide (feedId = id)) as [->|Hne].
    + rewrite lookup_delete_eq. by intros [? ?].
    + rewrite lookup_delete_ne by done. apply Hr.
Qed.

(** The records change and the records of the Job Table stay. *)
Lemma wf_set_feeds m w :
  well_formed w ->
  (forall feedId, is_Some (activeJobs (sched w) !! feedId) -> is_Some (m !! feedId)) ->
  well_formed (with_sched (set_scheduledFeeds m) w).
Proof. intros Hwf Hm. by apply (wf_frame w). Qed.

Lemma wf_set_field feedId k v w :
  well_formed w -> well_formed (set_field feedId k v w).
Proof.
  intros Hwf. apply (wf_frame w); [done..|].
  intros id Hid. simpl. rewrite lookup_alter.
  case_decide; [subst; apply fmap_is_Some|]; by apply (wf_record w).
Qed.

Lemma wf_addFeed url opts store now w :
  well_formed w -> well_formed (addFeed url opts store now w).2.
Proof.
  intros Hwf. unfold addFeed.
  destruct (generate_id url) as [feedId|]; [|done].
  destruct (negb _); [done|].
  assert (well_formed (call_store (StoreAdd url) w)) as Hwf1
    by (apply (wf_frame w); [done..|apply (wf_record w Hwf)]).
  destruct store; try done.
  destruct (getNextRunTime _ _) as [t|]; [|done].
  set (rec := opts ∪ _).
  set (w2 := saveScheduledFeeds _).
  assert (well_formed w2) as Hwf2.
  { apply (wf_frame w); [done..|]. intros id Hid. simpl.
    destruct (decide (feedId = id)) as [->|Hne]; [by rewrite lookup_insert_eq|].
    rewrite lookup_insert_ne by done. by apply (wf_record w). }
  assert (well_formed
            (if running (sched w2) && negb (paused (sched w2))
             then createCronJob feedId rec w2 else w2)) as Hwf3.
  { destruct (running (sched w2)) eqn:Hr, (paused (sched w2)) eqn:Hp; simpl; try done.
    apply wf_createCronJob; [done..|]. subst w2. simpl. by rewrite lookup_insert_eq. }
  simpl. by apply (wf_frame _ _ Hwf3); [|apply (wf_record _ Hwf3)].
Qed.

Lemma wf_removeFeed feedId store w :
  well_formed w -> well_formed (removeFeed feedId store w).2.
Proof.
  intros Hwf. unfold removeFeed.
  destruct (scheduledFeeds (sched w) !! feedId) eqn:Hrec; [|done].
  pose proof (wf_drop_job feedId w Hwf) as Hwf1.
  assert (well_formed (call_store (StoreRemove feedId) (drop_job feedId w))) as Hwf2
    by (apply (wf_frame _ _ Hwf1); [done|apply (wf_record _ Hwf1)]).
  assert (well_formed
            (refresh_totalFeeds
               (saveScheduledFeeds
                  (with_sched
                     (fun s => set_scheduledFeeds (delete feedId (scheduledFeeds s)) s)
                     (call_store (StoreRemove feedId) (drop_job feedId w)))))) as Hwf3.
  { apply (wf_frame _ _ Hwf1); [done|]. intros id Hid. simpl.
    rewrite drop_job_jobs in Hid.
    destruct (decide (feedId = id)) as [->|Hne].
    - rewrite lookup_delete_eq in Hid. by destruct Hid.
    - rewrite lookup_delete_ne by done. rewrite drop_job_feeds.
      rewrite lookup_delete_ne in Hid by done. by apply (wf_record w). }
  destruct store; simpl; done.
Qed.

Lemma wf_updateFeedSchedule feedId newInterval now w :
  well_formed w -> well_formed (updateFeedSchedule feedId newInterval now w).2.
Proof.
  intros Hwf. unfold updateFeedSchedule.
  destruct (scheduledFeeds (sched w) !! feedId) as [rec|] eqn:Hrec; [|done].
  destruct (negb _); [done|].
  pose proof (wf_set_field feedId "interval" newInterval w Hwf) as Hwf1.
  destruct (getNextRunTime _ _) as [t|]; [|done].
  set (w2 := saveScheduledFeeds _).
  assert (well_formed w2) as Hwf2.
  { pose proof (wf_set_field feedId "nextRun" (JStr (Iso.format t)) _ Hwf1) as H.
    apply (wf_frame _ _ H); [done|apply (wf_record _ H)]. }
  simpl.
  destruct (running (sched w)) eqn:Hr, (paused (sched w)) eqn:Hp; simpl; try done.
  destruct (alter _ _ _ !! feedId) as [rec2|] eqn:Hrec2; [|done].
  apply wf_createCronJob.
  - by apply wf_drop_job.
  - rewrite (proj2 (drop_job_flags _ _)). exact Hp.
  - rewrite (proj1 (drop_job_flags _ _)). exact Hr.
  - rewrite drop_job_feeds. simpl. by rewrite Hrec2.
Qed.

Lemma wf_start w : well_formed w -> well_formed (start w).
Proof.
  intros Hwf. destruct (running (sched w)) eqn:Hr.
  - by rewrite start_when_running.
  - pose proof (wf_stopped w Hwf Hr) as Hj.
    destruct (start_from_stopped w Hr Hj)
      as (Hrun & Hpa & Hf & [new Hnew] & Hnone & Hsome & Hinj).
    simpl in Hrun, Hpa, Hf. split.
    + by rewrite Hrun.
    + by rewrite Hrun.
    + intros id h Hh. destruct (Hsome _ _ Hh) as (rec & e & _ & _ & Ht).
      eexists. split; [exact Ht|]. by rewrite Hpa.
    + exact Hinj.
    + intros id [h Hh]. destruct (Hsome _ _ Hh) as (rec & e & Hrec & _ & _).
      rewrite Hf. by eexists.
Qed.

Lemma wf_stop w : well_formed w -> well_formed (stop w).
Proof.
  intros Hwf. unfold stop. destruct (negb _); [done|].
  by apply wf_empty_jobs.
Qed.

Lemma wf_pause w : well_formed w -> well_formed (pause w).
Proof.
  intros Hwf. unfold pause.
  destruct (running (sched w)) eqn:Hr; simpl; [|done].
  destruct (paused (sched w)) eqn:Hp; [done|].
  destruct (set_all_lookup false (activeJobs (sched w)) (cronTasks w)) as (_ & Hin & _).
  split; simpl.
  - by intros _.
  - intros H. congruence.
  - intros id h Hh. unfold stop_all, job_stop. rewrite (Hin h) by (by exists id).
    destruct (wf_task w Hwf _ _ Hh) as (tk & -> & _). by eexists.
  - apply (wf_distinct w Hwf).
  - apply (wf_record w Hwf).
Qed.

Lemma wf_resume w : well_formed w -> well_formed (resume w).
Proof.
  intros Hwf. unfold resume.
  destruct (running (sched w)) eqn:Hr; simpl; [|done].
  destruct (paused (sched w)) eqn:Hp; [|done].
  destruct (set_all_lookup true (activeJobs (sched w)) (cronTasks w)) as (_ & Hin & _).
  split; simpl.
  - by intros _.
  - intros H. congruence.
  - intros id h Hh. unfold start_all, job_start. rewrite (Hin h) by (by exists id).
    destruct (wf_task w Hwf _ _ Hh) as (tk & -> & _). by eexists.
  - apply (wf_distinct w Hwf).
  - apply (wf_record w Hwf).
Qed.

End WellFormed.

(** ** What a fetch leaves alone *)

Section FetchFrame.
Context `{RT : Runtime}.

Lemma records_kept_refl url w : records_kept url w w.
Proof. by split. Qed.

Lemma records_kept_trans url w1 w2 w3 :
  records_kept url w1 w2 -> records_kept url w2 w3 -> records_kept url w1 w3.
Proof.
  intros [Hd1 Ho1] [Hd2 Ho2]. split; [congruence|].
  intros id Hid. by rewrite Ho2, Ho1.
Qed.

Lemma records_kept_feeds url w w' :
  scheduledFeeds (sched w') = scheduledFeeds (sched w) -> records_kept url w w'.
Proof. intros H. unfold records_kept. by rewrite H. Qed.

Lemma records_kept_set_field u k v w :
  records_kept (JStr u) w (set_field (generateFeedId u) k v w).
Proof.
  split; simpl.
  - apply dom_alter_L.
  - intros id Hid. apply lookup_alter_ne. intros <-. by apply Hid.
Qed.

Lemma try_attempt_records url a env w r w' :
  try_attempt url a env w = (r, w') -> records_kept url w w'.
Proof.
  unfold try_attempt. intros H.
  destruct (fetched env); [|inversion H; apply records_kept_refl].
  destruct url as [| | | | |u]; simpl in H; try (inversion H; apply records_kept_refl).
  destruct (stored env); try (by inversion H; apply records_kept_feeds).
  destruct (scheduledFeeds _ !! _); [|by inversion H; apply records_kept_feeds].
  assert (records_kept (JStr u) w
            (set_field (generateFeedId u) "failureCount" (JNum 0)
               (set_field (generateFeedId u) "lastSuccess" (JStr (Iso.format (at_time env)))
                  (set_field (generateFeedId u) "lastRun" (JStr (Iso.format (at_time env)))
                     (count_success (at_time env) (call_store (StoreAdd (JStr u)) w))))))
    as Hk.
  { eapply records_kept_trans; [|apply records_kept_set_field].
    eapply records_kept_trans; [|apply records_kept_set_field].
    eapply records_kept_trans; [|apply records_kept_set_field].
    by apply records_kept_feeds. }
  destruct (getNextRunTime _ _); inversion H; subst; [|done].
  eapply records_kept_trans; [exact Hk|].
  eapply records_kept_trans; [apply records_kept_set_field|].
  by apply records_kept_feeds.
Qed.

Lemma final_failure_records url n msg now w r w' :
  final_failure url n msg now w = (r, w') -> records_kept url w w'.
Proof.
  unfold final_failure. intros H.
  destruct url as [| | | | |u]; simpl in H; try (by inversion H; apply records_kept_feeds).
  destruct (scheduledFeeds _ !! _); [|by inversion H; apply records_kept_feeds].
  assert (records_kept (JStr u) w
            (set_field (generateFeedId u) "failureCount" (js_incr (get g "failureCount"))
               (set_field (generateFeedId u) "lastRun" (JStr (Iso.format now))
                  (count_failure w)))) as Hk.
  { eapply records_kept_trans; [|apply records_kept_set_field].
    eapply records_kept_trans; [|apply records_kept_set_field].
    by apply records_kept_feeds. }
  destruct (getNextRunTime _ _); inversion H; subst; [|done].
  eapply records_kept_trans; [exact Hk|].
  eapply records_kept_trans; [apply records_kept_set_field|].
  by apply records_kept_feeds.
Qed.

Lemma attempt_body_records url n a env w r w' :
  attempt_body url n a env w = (r, w') -> records_kept url w w'.
Proof.
  unfold attempt_body. intros H.
  destruct (try_attempt url a env w) as [[res|msg] w1] eqn:Ht;
    apply try_attempt_records in Ht.
  - by inversion H; subst.
  - destruct (a =? n).
    + destruct (final_failure url n msg (at_time env) w1) as [r2 w2] eqn:Hf.
      apply final_failure_records in Hf. inversion H; subst.
      by eapply records_kept_trans.
    + by inversion H; subst.
Qed.

Lemma retry_loop_records fuel url n a envs w :
  records_kept url w (retry_loop fuel url n a envs w).2.
Proof.
  revert a w. induction fuel as [|fuel IH]; intros a w; simpl;
    [apply records_kept_refl|].
  destruct (a <=? n); [|apply records_kept_refl].
  destruct (attempt_body url n a (envs a) w) as [[r|] w1] eqn:Hb;
    apply attempt_body_records in Hb; simpl; [done|].
  eapply records_kept_trans; [exact Hb|apply IH].
Qed.

Lemma try_attempt_totalFeeds url a env w r w' :
  try_attempt url a env w = (r, w') ->
  totalFeeds (stats (sched w')) = totalFeeds (stats (sched w)).
Proof.
  unfold try_attempt. intros H.
  destruct (fetched env); [|by inversion H].
  destruct (generate_id url); [|by inversion H].
  destruct (stored env); try by inversion H.
  destruct (scheduledFeeds _ !! _); [|by inversion H].
  destruct (getNextRunTime _ _); by inversion H.
Qed.

Lemma final_failure_totalFeeds url n msg now w r w' :
  final_failure url n msg now w = (r, w') ->
  totalFeeds (stats (sched w')) = totalFeeds (stats (sched w)).
Proof.
  unfold final_failure. intros H.
  destruct (generate_id url); [|by inversion H].
  destruct (scheduledFeeds _ !! _); [|by inversion H].
  destruct (getNextRunTime _ _); by inversion H.
Qed.

Lemma attempt_body_totalFeeds url n a env w r w' :
  attempt_body url n a env w = (r, w') ->
  totalFeeds (stats (sched w')) = totalFeeds (stats (sched w)).
Proof.
  unfold attempt_body. intros H.
  destruct (try_attempt url a env w) as [[res|msg] w1] eqn:Ht;
    apply try_attempt_totalFeeds in Ht.
  - by inversion H; subst.
  - destruct (a =? n).
    + destruct (final_failure url n msg (at_time env) w1) as [r2 w2] eqn:Hf.
      apply final_failure_totalFeeds in Hf. inversion H; subst. congruence.
    + by inversion H; subst.
Qed.

Lemma retry_loop_totalFeeds fuel url n a envs w :
  totalFeeds (stats (sched (retry_loop fuel url n a envs w).2))
  = totalFeeds (stats (sched w)).
Proof.
  revert a w. induction fuel as [|fuel IH]; intros a w; simpl; [done|].
  destruct (a <=? n); [|done].
  destruct (attempt_body url n a (envs a) w) as [[r|] w1] eqn:Hb;
    apply attempt_body_totalFeeds in Hb; simpl; [done|].
  by rewrite IH.
Qed.

Lemma fetchAndUpdateFeed_records url opts envs w :
  records_kept url w (fetchAndUpdateFeed url opts envs w).2.
Proof. apply retry_loop_records. Qed.

Lemma fetchAndUpdateFeed_totalFeeds url opts envs w :
  totalFeeds (stats (sched (fetchAndUpdateFeed url opts envs w).2))
  = totalFeeds (stats (sched w)).
Proof. apply retry_loop_totalFeeds. Qed.

(** A fetch creates and deletes no record, changes no record but the one
    stored under the id of its url, and leaves the Job Table, the two
    flags, the tasks and [totalFeeds] as they are. *)
Theorem fetchAndUpdateFeed_frame url opts envs w :
  let w' := (fetchAndUpdateFeed url opts envs w).2 in
  dom (scheduledFeeds (sched w')) = dom (scheduledFeeds (sched w)) /\
  (forall feedId, generate_id url ≠ Normal feedId ->
                  scheduledFeeds (sched w') !! feedId
                  = scheduledFeeds (sched w) !! feedId) /\
  activeJobs (sched w') = activeJobs (sched w) /\
  running (sched w') = running (sched w) /\
  paused (sched w') = paused (sched w) /\
  cronTasks w' = cronTasks w /\
  totalFeeds (stats (sched w')) = totalFeeds (stats (sched w)).
Proof.
  intros w'.
  destruct (retry_loop_records (Z.to_nat (max_retries opts w)) url
              (max_retries opts w) 1 envs w) as [Hd Ho].
  pose proof (fetchAndUpdateFeed_control url opts envs w) as Hc.
  unfold control in Hc. injection Hc as Hj Hr Hp Ht _.
  split_and!; try done. apply retry_loop_totalFeeds.
Qed.

End FetchFrame.

(** ** Invariants of the worlds reached from a new scheduler *)

Section Reachable.
Context `{RT : Runtime}.

Lemma wf_fetchAndUpdateFeed url opts envs w :
  well_formed w -> well_formed (fetchAndUpdateFeed url opts envs w).2.
Proof.
  intros Hwf. apply (wf_frame w); [done|apply fetchAndUpdateFeed_control|].
  intros id Hid. apply elem_of_dom.
  rewrite (proj1 (fetchAndUpdateFeed_records url opts envs w)).
  apply elem_of_dom. by apply (wf_record w).
Qed.

Lemma wf_fire h envs w : well_formed w -> well_formed (fire h envs w).
Proof.
  intros Hwf. unfold fire. destruct (cronTasks w !! h) as [t|]; [|done].
  destruct (task_scheduled t); [|done]. destruct (paused (sched w)); [done|].
  by apply wf_fetchAndUpdateFeed.
Qed.

Lemma wf_step o w : well_formed w -> well_formed (step w o).
Proof.
  intros Hwf. destruct o; simpl.
  - by apply wf_addFeed.
  - by apply wf_removeFeed.
  - by apply wf_updateFeedSchedule.
  - by apply wf_start.
  - by apply wf_stop.
  - by apply wf_pause.
  - by apply wf_resume.
  - unfold close. pose proof (wf_stop w Hwf) as H.
    apply (wf_frame _ _ H); [done|apply (wf_record _ H)].
  - by apply wf_fetchAndUpdateFeed.
  - by apply wf_fire.
Qed.

Lemma wf_run ops w : well_formed w -> well_formed (run ops w).
Proof.
  revert w. induction ops as [|o ops IH]; intros w Hwf; [done|].
  simpl. by apply IH, wf_step.
Qed.

(** Every world reached from a new scheduler is well formed. *)
Lemma wf_reachable cfg file ops : well_formed (run ops (FeedScheduler_new cfg file)).
Proof. apply wf_run, wf_new. Qed.

(** The scheduler is never paused without running: [stop] clears both
    flags, and [pause] only acts on a running scheduler. *)
Theorem paused_only_while_running cfg file ops :
  isPaused (run ops (FeedScheduler_new cfg file)) = true ->
  isRunning (run ops (FeedScheduler_new cfg file)) = true.
Proof. apply (wf_paused (run ops (FeedScheduler_new cfg file))), wf_reachable. Qed.

(** A scheduler that is not running has an empty Job Table, and
    [getStatus] reports no active job. *)
Theorem stopped_scheduler_has_no_jobs cfg file ops :
  isRunning (run ops (FeedScheduler_new cfg file)) = false ->
  activeJobs (sched (run ops (FeedScheduler_new cfg file))) = ∅ /\
  status_activeJobs (getStatus (run ops (FeedScheduler_new cfg file))) = 0.
Proof.
  intros Hr.
  pose proof (wf_stopped _ (wf_reachable cfg file ops) Hr) as Hj.
  split; [done|]. simpl. by rewrite Hj.
Qed.

(** Every handle of the Job Table is a task node-cron knows, no other
    feed id has the same task, and the task's timer runs exactly when
    the scheduler is not paused. *)
Theorem job_table_tasks cfg file ops feedId h :
  activeJobs (sched (run ops (FeedScheduler_new cfg file))) !! feedId = Some h ->
  (exists tk, cronTasks (run ops (FeedScheduler_new cfg file)) !! h = Some tk /\
              task_scheduled tk
              = negb (isPaused (run ops (FeedScheduler_new cfg file)))) /\
  (forall feedId',
      activeJobs (sched (run ops (FeedScheduler_new cfg file))) !! feedId' = Some h ->
      feedId' = feedId) /\
  isRunning (run ops (FeedScheduler_new cfg file)) = true.
Proof.
  set (w := run ops (FeedScheduler_new cfg file)).
  intros Hh. pose proof (wf_reachable cfg file ops) as Hwf. fold w in Hwf.
  split; [by apply (wf_task w Hwf) with feedId|]. split.
  - intros feedId' Hh'. by apply (wf_distinct w Hwf _ _ h).
  - destruct (running (sched w)) eqn:Hr; [done|].
    rewrite (wf_stopped w Hwf Hr), lookup_empty in Hh. done.
Qed.

(** When the calls are made one after the other, every feed id of the
    Job Table has a stored record, and [getStatus] reports no more
    active jobs than scheduled feeds. *)
Lemma jobs_have_records cfg file ops :
  let w := run ops (FeedScheduler_new cfg file) in
  dom (activeJobs (sched w)) ⊆ dom (scheduledFeeds (sched w)) /\
  status_activeJobs (getStatus w) <= status_scheduledFeeds (getStatus w).
Proof.
  intros w. pose proof (wf_reachable cfg file ops) as Hwf. fold w in Hwf.
  assert (Hsub : dom (activeJobs (sched w)) ⊆ dom (scheduledFeeds (sched w))).
  { intros id Hid. apply elem_of_dom. apply (wf_record w Hwf). by apply elem_of_dom. }
  split; [done|]. simpl.
  rewrite <- !size_dom. apply Nat2Z.inj_le. by apply subseteq_size.
Qed.

Lemma start_feeds w : scheduledFeeds (sched (start w)) = scheduledFeeds (sched w).
Proof.
  unfold start. destruct (running (sched w)); [done|].
  apply (map_fold_weak_ind
           (fun acc _ => scheduledFeeds (sched acc) = scheduledFeeds (sched w))); [done|].
  intros id rec m acc _ IH.
  destruct (truthy _); [by rewrite createCronJob_feeds|done].
Qed.

(** [totalFeeds] is up to date in the second world if it was in the
    first. *)
Lemma step_totalFeeds o w :
  totalFeeds (stats (sched w)) = Z.of_nat (size (scheduledFeeds (sched w))) ->
  totalFeeds (stats (sched (step w o)))
  = Z.of_nat (size (scheduledFeeds (sched (step w o)))).
Proof.
  intros Hinv. destruct o; simpl.
  - unfold addFeed. destruct (generate_id url); [|done].
    destruct (negb _); [done|]. destruct store; try done.
    by destruct (getNextRunTime _ _).
  - unfold removeFeed. destruct (scheduledFeeds _ !! _); [|done].
    destruct store; simpl; try done.
    by rewrite drop_job_stats, drop_job_feeds.
  - unfold updateFeedSchedule. destruct (scheduledFeeds _ !! _); [|done].
    destruct (negb _); [done|].
    assert (forall (m : gmap string jsobj) f1 f2,
               size (alter f1 feedId (alter f2 feedId m)) = size m) as Hsize2.
    { intros m f1 f2. by rewrite <- !size_dom, !dom_alter_L. }
    assert (forall (m : gmap string jsobj) f1, size (alter f1 feedId m) = size m) as Hsize1.
    { intros m f1. by rewrite <- !size_dom, !dom_alter_L. }
    destruct (getNextRunTime _ _); simpl; [|by rewrite Hsize1].
    destruct (running _ && _); simpl; [|by rewrite Hsize2].
    destruct (alter _ _ _ !! _); simpl; [|by rewrite Hsize2].
    rewrite createCronJob_stats, createCronJob_feeds, drop_job_stats, drop_job_feeds.
    simpl. by rewrite Hsize2.
  - by rewrite start_stats, start_feeds.
  - unfold stop. by destruct (negb _).
  - unfold pause. by destruct (_ || _).
  - unfold resume. by destruct (_ || _).
  - unfold close, stop. by destruct (negb _).
  - rewrite fetchAndUpdateFeed_totalFeeds, Hinv.
    by rewrite <- !size_dom, (proj1 (fetchAndUpdateFeed_records url opts envs w)).
  - unfold fire. destruct (cronTasks w !! h) as [t|]; [|done].
    destruct (task_scheduled t); [|done]. destruct (paused (sched w)); [done|].
    rewrite fetchAndUpdateFeed_totalFeeds, Hinv.
    by rewrite <- !size_dom,
      (proj1 (fetchAndUpdateFeed_records (task_url t) no_fetch_options envs w)).
Qed.

(** For a scheduler that started without a state file, [totalFeeds] is
    the number of stored records after every sequence of operations:
    the two numbers that [getStatus] reports agree. *)
Theorem totalFeeds_counts_records cfg ops :
  let w := run ops (FeedScheduler_new cfg None) in
  totalFeeds (getUpdateStats w) = Z.of_nat (size (scheduledFeeds (sched w))) /\
  totalFeeds (status_stats (getStatus w)) = status_scheduledFeeds (getStatus w).
Proof.
  assert (H : forall w, totalFeeds (stats (sched w))
                        = Z.of_nat (size (scheduledFeeds (sched w))) ->
                        totalFeeds (stats (sched (run ops w)))
                        = Z.of_nat (size (scheduledFeeds (sched (run ops w))))).
  { induction ops as [|o ops IH]; intros w Hinv; [done|].
    simpl. by apply IH, step_totalFeeds. }
  intros w. split; by apply H.
Qed.

End Reachable.

Lemma paused_only_while_running_witness :
  isPaused world_paused = true /\ isRunning world_paused = true.
Proof.
  assert (H : isPaused world_paused = true) by (vm_compute; reflexivity).
  split; [exact H|].
  exact (@paused_only_while_running sample_runtime default_config None
           [ OpAddFeed (JStr url_a) {[ "interval" := JStr "*/5 * * * *" ]} StoreOk 1000;
             OpStart; OpPause ] H).
Defined.

Lemma job_table_tasks_witness :
  activeJobs (sched world_paused) !! id_a = Some 0%nat /\
  (task_scheduled <$> cronTasks world_paused !! 0%nat) = Some false /\
  isRunning world_paused = true.
Proof.
  assert (H : activeJobs (sched world_paused) !! id_a = Some 0%nat)
    by (vm_compute; reflexivity).
  destruct (@job_table_tasks sample_runtime default_config None
              [ OpAddFeed (JStr url_a) {[ "interval" := JStr "*/5 * * * *" ]} StoreOk 1000;
                OpStart; OpPause ] id_a 0%nat H) as ((tk & Htk & Hs) & _ & Hr).
  split; [exact H|]. split; [|exact Hr].
  change (cronTasks world_paused !! 0%nat = Some tk) in Htk. rewrite Htk. simpl.
  rewrite Hs. f_equal.
Defined.

Lemma stopped_scheduler_has_no_jobs_witness :
  isRunning world_stopped = false /\
  activeJobs (sched world_stopped) = ∅ /\
  status_activeJobs (getStatus world_stopped) = 0.
Proof.
  assert (H : isRunning world_stopped = false) by (vm_compute; reflexivity).
  split; [exact H|].
  exact (@stopped_scheduler_has_no_jobs sample_runtime default_config None
           [ OpAddFeed (JStr url_a) ∅ StoreOk 1000; OpStart; OpPause; OpStop ] H).
Defined.

(** ** The lifecycle methods *)

Section LifecycleMore.
Context `{RT : Runtime}.

Lemma set_task_scheduled_id tk :
  set_task_scheduled (task_scheduled tk) tk = tk.
Proof. by destruct tk. Qed.

(** [pause] followed by [resume] restores the world: in between, the
    scheduler is running and paused and every task of the Job Table is
    stopped; afterwards each of them runs again and nothing else has
    changed. *)
Theorem pause_resume_round_trip w :
  well_formed w ->
  running (sched w) = true ->
  paused (sched w) = false ->
  isRunning (pause w) = true /\
  isPaused (pause w) = true /\
  activeJobs (sched (pause w)) = activeJobs (sched w) /\
  (forall feedId h, activeJobs (sched w) !! feedId = Some h ->
                    task_scheduled <$> cronTasks (pause w) !! h = Some false) /\
  resume (pause w) = w.
Proof.
  intros Hwf Hr Hp.
  destruct (set_all_lookup false (activeJobs (sched w)) (cronTasks w))
    as (Hlen1 & Hin1 & Hout1).
  assert (Hpause : pause w
                   = with_sched (set_paused true)
                       (set_cronTasks (stop_all (activeJobs (sched w)) (cronTasks w)) w))
    by (unfold pause; by rewrite Hr, Hp).
  rewrite Hpause. split; [done|]. split; [done|]. split; [done|]. split.
  - intros feedId h Hh. simpl. unfold stop_all, job_stop.
    rewrite (Hin1 h) by (by exists feedId).
    by destruct (wf_task w Hwf _ _ Hh) as (tk & -> & _).
  - unfold resume. simpl. rewrite Hr. simpl.
    destruct (set_all_lookup true (activeJobs (sched w))
                (stop_all (activeJobs (sched w)) (cronTasks w)))
      as (Hlen2 & Hin2 & Hout2).
    assert (Hts : start_all (activeJobs (sched w))
                    (stop_all (activeJobs (sched w)) (cronTasks w)) = cronTasks w).
    { apply list_eq. intros h. unfold start_all, job_start.
      destruct (decide (h ∈ (map_img (activeJobs (sched w)) : gset nat))) as [Hex|Hnex].
      - apply elem_of_map_img in Hex. rewrite (Hin2 h Hex).
        unfold stop_all, job_stop. rewrite (Hin1 h Hex).
        destruct Hex as [feedId Hh].
        destruct (wf_task w Hwf _ _ Hh) as (tk & -> & Hs). simpl. f_equal.
        rewrite Hp in Hs. simpl in Hs. by destruct tk; simpl in *; subst.
      - assert (forall feedId, activeJobs (sched w) !! feedId ≠ Some h) as Hno.
        { intros feedId Hh. apply Hnex, elem_of_map_img. by exists feedId. }
        rewrite (Hout2 h Hno). unfold stop_all, job_stop. by rewrite (Hout1 h Hno). }
    rewrite Hts. destruct w as [[o f j r p st] ts sc sv]. simpl in *. by subst.
Qed.

(** [stop] on a running scheduler (paused or not) clears both flags and
    the Job Table and stops every task the table held; other tasks are
    left alone; a second [stop] does nothing. *)
Theorem stop_clears_job_table w :
  running (sched w) = true ->
  isRunning (stop w) = false /\
  isPaused (stop w) = false /\
  activeJobs (sched (stop w)) = ∅ /\
  status_activeJobs (getStatus (stop w)) = 0 /\
  (forall feedId h, activeJobs (sched w) !! feedId = Some h ->
     cronTasks (stop w) !! h = set_task_scheduled false <$> cronTasks w !! h) /\
  (forall h, (forall feedId, activeJobs (sched w) !! feedId ≠ Some h) ->
     cronTasks (stop w) !! h = cronTasks w !! h) /\
  stop (stop w) = stop w.
Proof.
  intros Hr.
  destruct (set_all_lookup false (activeJobs (sched w)) (cronTasks w))
    as (_ & Hin & Hout).
  unfold stop at 1 2 3 4 5 6. rewrite Hr. simpl.
  split_and!; try done.
  - intros feedId h Hh. apply Hin. by exists feedId.
  - unfold stop at 1. by destruct (running (sched (stop w))) eqn:E;
      [unfold stop in E; rewrite Hr in E|].
Qed.

Lemma start_store w :
  storeCalls (start w) = storeCalls w /\ saves (start w) = saves w.
Proof.
  unfold start. destruct (running (sched w)); [done|].
  apply (map_fold_weak_ind
           (fun acc _ => storeCalls acc = storeCalls w /\ saves acc = saves w)); [done|].
  intros id rec m acc _ IH. rewrite start_turn. by destruct (wanted_job rec).
Qed.

Lemma start_options w : options (sched (start w)) = options (sched w).
Proof.
  unfold start. destruct (running (sched w)); [done|].
  apply (map_fold_weak_ind (fun acc _ => options (sched acc) = options (sched w))); [done|].
  intros id rec m acc _ IH. rewrite start_turn. by destruct (wanted_job rec).
Qed.

(** [start], [stop], [pause] and [resume] work on the Job Table and the
    tasks only: the records, the stats and the options stay as they
    are, the Feed Store is not called and nothing is written. *)
Theorem lifecycle_keeps_schedule_store w :
  schedule_store (start w) = schedule_store w /\
  schedule_store (stop w) = schedule_store w /\
  schedule_store (pause w) = schedule_store w /\
  schedule_store (resume w) = schedule_store w.
Proof.
  split_and!.
  - unfold schedule_store.
    by rewrite start_feeds, start_stats, start_options, !(proj1 (start_store w)),
      !(proj2 (start_store w)).
  - unfold stop. by destruct (negb _).
  - unfold pause. by destruct (_ || _).
  - unfold resume. by destruct (_ || _).
Qed.

End LifecycleMore.

Lemma pause_resume_round_trip_witness :
  running (sched world_running) = true /\
  paused (sched world_running) = false /\
  activeJobs (sched world_running) !! id_a = Some 0%nat /\
  (task_scheduled <$> cronTasks (pause world_running) !! 0%nat) = Some false /\
  resume (pause world_running) = world_running.
Proof.
  assert (Hwf : well_formed world_running) by apply (@wf_reachable sample_runtime).
  assert (Hr : running (sched world_running) = true) by (vm_compute; reflexivity).
  assert (Hp : paused (sched world_running) = false) by (vm_compute; reflexivity).
  assert (Hj : activeJobs (sched world_running) !! id_a = Some 0%nat)
    by (vm_compute; reflexivity).
  destruct (pause_resume_round_trip world_running Hwf Hr Hp)
    as (_ & _ & _ & Hstop & Hround).
  split; [exact Hr|]. split; [exact Hp|]. split; [exact Hj|].
  split; [exact (Hstop _ _ Hj) | exact Hround].
Defined.

Lemma stop_clears_job_table_witness :
  running (sched world_paused) = true /\
  activeJobs (sched world_paused) !! id_a = Some 0%nat /\
  isRunning (stop world_paused) = false /\
  isPaused (stop world_paused) = false /\
  activeJobs (sched (stop world_paused)) = ∅ /\
  stop (stop world_paused) = stop world_paused.
Proof.
  assert (Hr : running (sched world_paused) = true) by (vm_compute; reflexivity).
  assert (Hj : activeJobs (sched world_paused) !! id_a = Some 0%nat)
    by (vm_compute; reflexivity).
  destruct (stop_clears_job_table world_paused Hr) as (H1 & H2 & H3 & _ & _ & _ & H7).
  by split_and!.
Defined.

(** ** The attempts of a fetch *)

Section FetchMore.
Context `{RT : Runtime}.

Lemma try_attempt_defined url a env w r w' :
  try_attempt url a env w = (Normal r, w') -> r ≠ FetchUndefined.
Proof.
  unfold try_attempt. intros H.
  destruct (fetched env); [|by inversion H].
  destruct (generate_id url); [|by inversion H].
  destruct (stored env); try by inversion H.
  destruct (scheduledFeeds _ !! _); [|by inversion H].
  destruct (getNextRunTime _ _); by inversion H.
Qed.

Lemma final_failure_defined url n msg now w :
  (final_failure url n msg now w).1 ≠ FetchUndefined.
Proof.
  unfold final_failure. destruct (generate_id url); [|done].
  destruct (scheduledFeeds _ !! _); [|done].
  by destruct (getNextRunTime _ _).
Qed.

Lemma retry_loop_defined fuel url n a envs w :
  a <= n -> n - a < Z.of_nat fuel ->
  (retry_loop fuel url n a envs w).1 ≠ FetchUndefined.
Proof.
  revert a w. induction fuel as [|fuel IH]; intros a w Ha Hf; [lia|].
  simpl. destruct (a <=? n) eqn:E; [|lia].
  unfold attempt_body.
  destruct (try_attempt url a (envs a) w) as [[r|msg] w1] eqn:Ht.
  - simpl. by eapply try_attempt_defined.
  - destruct (a =? n) eqn:En.
    + pose proof (final_failure_defined url n msg (at_time (envs a)) w1) as Hd.
      by destruct (final_failure url n msg (at_time (envs a)) w1).
    + apply IH; lia.
Qed.

(** *** What a fetch does outside the scheduler *)

Lemma try_attempt_effects url a env w r w' :
  try_attempt url a env w = (r, w') ->
  (storeCalls w' = storeCalls w \/
   storeCalls w' = (storeCalls w ++ [StoreAdd url])%list) /\
  (saves w' = saves w \/
   saves w' = S (saves w) /\ exists res, r = Normal res).
Proof.
  unfold try_attempt. intros H.
  destruct (fetched env); [|inversion H; subst; by split; left].
  destruct (generate_id url); [|inversion H; subst; by split; left].
  destruct (stored env); try (inversion H; subst; by split; [right|left]).
  destruct (scheduledFeeds _ !! _); [|inversion H; subst; by split; [right|left]].
  destruct (getNextRunTime _ _); inversion H; subst; simpl.
  - split; [by right|]. right. split; [done|by eexists].
  - split; [by right|by left].
Qed.

Lemma final_failure_effects url n msg now w :
  storeCalls (final_failure url n msg now w).2 = storeCalls w /\
  (saves (final_failure url n msg now w).2 = saves w \/
   saves (final_failure url n msg now w).2 = S (saves w)) /\
  failedUpdates (stats (sched (final_failure url n msg now w).2))
  = failedUpdates (stats (sched w)) + 1 /\
  successfulUpdates (stats (sched (final_failure url n msg now w).2))
  = successfulUpdates (stats (sched w)).
Proof.
  unfold final_failure. destruct (generate_id url); [|split_and!; auto].
  destruct (scheduledFeeds _ !! _); [|split_and!; auto].
  destruct (getNextRunTime _ _); simpl; split_and!; auto.
Qed.

Lemma attempt_body_effects url n a env w r w' :
  attempt_body url n a env w = (r, w') ->
  (storeCalls w' = storeCalls w \/
   storeCalls w' = (storeCalls w ++ [StoreAdd url])%list) /\
  (saves w' = saves w \/ saves w' = S (saves w) /\ is_Some r).
Proof.
  unfold attempt_body. intros H.
  destruct (try_attempt url a env w) as [[res|msg] w1] eqn:Ht;
    apply try_attempt_effects in Ht as [Hs Hv].
  - inversion H; subst. split; [done|].
    destruct Hv as [Hv|[Hv _]]; [by left|by right].
  - destruct Hv as [Hv|[_ [res Hres]]]; [|done].
    destruct (a =? n).
    + destruct (final_failure_effects url n msg (at_time env) w1) as (Hs' & Hv' & _).
      destruct (final_failure url n msg (at_time env) w1) as [r2 w2].
      inversion H; subst. simpl in *. rewrite Hs'. split; [done|].
      rewrite <- Hv. destruct Hv' as [Hv'|Hv']; rewrite Hv'; [by left|by right].
    + inversion H; subst. split; [done|by left].
Qed.

Lemma retry_loop_effects fuel url n a envs w :
  (exists k, (k <= fuel)%nat /\
             storeCalls (retry_loop fuel url n a envs w).2
             = (storeCalls w ++ replicate k (StoreAdd url))%list) /\
  (saves w <= saves (retry_loop fuel url n a envs w).2 <= S (saves w))%nat.
Proof.
  revert a w. induction fuel as [|fuel IH]; intros a w; simpl.
  { split; [|lia]. exists 0%nat. split; [done|]. by rewrite app_nil_r. }
  destruct (a <=? n).
  2:{ split; [|simpl; lia]. exists 0%nat. split; [lia|]. by rewrite app_nil_r. }
  destruct (attempt_body url n a (envs a) w) as [[r|] w1] eqn:Hb;
    apply attempt_body_effects in Hb as [Hs Hv]; simpl.
  - split; [|destruct Hv as [->|[-> _]]; lia].
    destruct Hs as [->| ->].
    + exists 0%nat. split; [lia|]. by rewrite app_nil_r.
    + exists 1%nat. split; [lia|done].
  - destruct Hv as [Hv|[_ [? ?]]]; [|done].
    destruct (IH (a + 1) w1) as [(k & Hk & Hs') Hv'].
    split; [|lia].
    destruct Hs as [Hs|Hs]; rewrite Hs', Hs.
    + exists k. split; [lia|done].
    + exists (S k). split; [lia|]. by rewrite <- app_assoc.
Qed.

(** Whatever the fetcher and the Feed Store answer, a fetch calls the
    Feed Store with [addFeed(url)] only, at most once for each allowed
    attempt, and writes the state file at most once. *)
Theorem fetch_effects_bounded url opts envs w :
  (exists k, (k <= Z.to_nat (max_retries opts w))%nat /\
             storeCalls (fetchAndUpdateFeed url opts envs w).2
             = (storeCalls w ++ replicate k (StoreAdd url))%list) /\
  (saves w <= saves (fetchAndUpdateFeed url opts envs w).2 <= S (saves w))%nat.
Proof. apply retry_loop_effects. Qed.

(** *** A Feed Store that refuses the update *)




End FetchMore.

(** ** More on updateFeedSchedule *)

Section UpdateMore.
Context `{RT : Runtime}.

Lemma alter_as_insert {A} (f : A -> A) (k : string) (m : gmap string A) (x : A) :
  m !! k = Some x -> alter f k m = <[k := f x]> m.
Proof.
  intros Hx. apply map_eq. intros i. destruct (decide (i = k)) as [->|Hne].
  - by rewrite lookup_alter_eq, lookup_insert_eq, Hx.
  - by rewrite lookup_alter_ne, lookup_insert_ne.
Qed.

Lemma createCronJob_outside feedId rec w :
  stats (sched (createCronJob feedId rec w)) = stats (sched w) /\
  storeCalls (createCronJob feedId rec w) = storeCalls w /\
  saves (createCronJob feedId rec w) = saves w.
Proof. rewrite createCronJob_spec. by destruct (job_expression rec). Qed.

Lemma drop_job_outside feedId w :
  stats (sched (drop_job feedId w)) = stats (sched w) /\
  storeCalls (drop_job feedId w) = storeCalls w /\
  saves (drop_job feedId w) = saves w.
Proof. unfold drop_job. by destruct (activeJobs (sched w) !! feedId). Qed.

(** A successful [updateFeedSchedule] changes two fields of the feed's
    record and nothing else in the Schedule Store: [interval] is the
    new interval and [nextRun] the text of the date it returns; the
    stats stay, the Feed Store is not called, and the state file is
    written once. *)
Theorem updateFeedSchedule_record feedId newInterval now w t w' :
  updateFeedSchedule feedId newInterval now w = (UpdateOk t, w') ->
  exists rec,
    scheduledFeeds (sched w) !! feedId = Some rec /\
    getNextRunTime newInterval now = Date t /\
    scheduledFeeds (sched w')
    = <[feedId := <["nextRun" := JStr (Iso.format t)]>
                    (<["interval" := newInterval]> rec)]> (scheduledFeeds (sched w)) /\
    stats (sched w') = stats (sched w) /\
    storeCalls w' = storeCalls w /\
    saves w' = S (saves w).
Proof.
  unfold updateFeedSchedule.
  destruct (scheduledFeeds (sched w) !! feedId) as [rec|] eqn:Hrec; [|done].
  destruct (negb _); [done|].
  destruct (getNextRunTime newInterval now) as [t'|]; [|done].
  set (w2 := saveScheduledFeeds _).
  assert (Hfeeds : scheduledFeeds (sched w2)
                   = <[feedId := <["nextRun" := JStr (Iso.format t')]>
                                   (<["interval" := newInterval]> rec)]>
                       (scheduledFeeds (sched w))).
  { subst w2. simpl.
    rewrite (alter_as_insert _ _ _ (<["interval" := newInterval]> rec))
      by (by rewrite lookup_alter_eq, Hrec).
    rewrite (alter_as_insert _ _ _ rec Hrec). apply insert_insert_eq. }
  intros H. exists rec.
  destruct (running (sched w2) && negb (paused (sched w2)));
    [destruct (scheduledFeeds (sched w2) !! feedId) as [rec2|]|];
    injection H as <- <-; split_and!; try done.
  - by rewrite createCronJob_feeds, drop_job_feeds.
  - by rewrite (proj1 (createCronJob_outside _ _ _)), (proj1 (drop_job_outside _ _)).
  - by rewrite (proj1 (proj2 (createCronJob_outside _ _ _))),
      (proj1 (proj2 (drop_job_outside _ _))).
  - by rewrite (proj2 (proj2 (createCronJob_outside _ _ _))),
      (proj2 (proj2 (drop_job_outside _ _))).
Qed.

(** A failed [updateFeedSchedule] leaves the Job Table, the flags, the
    tasks and the stats alone, calls no Feed Store and writes nothing.
    For an unknown id or an interval that does not validate the world
    is unchanged.  The one other failure is a next run that is not a
    valid date: the interval has then already been assigned to the
    stored record. *)
Theorem updateFeedSchedule_failure feedId newInterval now w e w' :
  updateFeedSchedule feedId newInterval now w = (UpdateFail e, w') ->
  control w' = control w /\
  stats (sched w') = stats (sched w) /\
  storeCalls w' = storeCalls w /\
  saves w' = saves w /\
  (w' = w \/
   getNextRunTime newInterval now = InvalidDate /\
   w' = set_field feedId "interval" newInterval w) /\
  (scheduledFeeds (sched w) !! feedId = None \/
   valid (validateCronExpression newInterval) = false -> w' = w).
Proof.
  unfold updateFeedSchedule.
  destruct (scheduledFeeds (sched w) !! feedId) as [rec|] eqn:Hrec.
  2:{ intros [= <- <-]. split_and!; auto. }
  destruct (valid (validateCronExpression newInterval)) eqn:Hv; simpl.
  2:{ intros [= <- <-]. split_and!; auto. }
  destruct (getNextRunTime newInterval now) as [t'|]; [done|].
  intros [= <- <-]. split_and!; auto.
  intros [?|?]; done.
Qed.

End UpdateMore.

(** ** More on addFeed *)

Section AddMore.
Context `{RT : Runtime}.

(** The world that a successful [addFeed] leaves. *)
Lemma addFeed_ok_world url opts store now w feedId t feed w' :
  addFeed url opts store now w = (AddOk feedId t feed, w') ->
  w' = refresh_totalFeeds
         (if running (sched w) && negb (paused (sched w))
          then createCronJob feedId feed
                 (saveScheduledFeeds
                    (with_sched
                       (fun s => set_scheduledFeeds
                                   (<[feedId := feed]> (scheduledFeeds s)) s)
                       (call_store (StoreAdd url) w)))
          else saveScheduledFeeds
                 (with_sched
                    (fun s => set_scheduledFeeds
                                (<[feedId := feed]> (scheduledFeeds s)) s)
                    (call_store (StoreAdd url) w))).
Proof.
  unfold addFeed. intros H.
  destruct (generate_id url); [|discriminate].
  destruct (negb _); [discriminate|].
  destruct store; try discriminate.
  destruct (getNextRunTime _ _); [|discriminate].
  by injection H as <- <- <- <-.
Qed.

(** While the scheduler is running and not paused, a successful
    [addFeed] schedules one new task when node-cron accepts the
    interval of the stored record (the caller's options can replace the
    interval that was validated), puts its handle under the feed id,
    and touches no task that existed before; otherwise the Job Table
    and the tasks stay as they were. *)
Theorem addFeed_running_creates_job url opts store now w feedId t feed w' :
  running (sched w) = true ->
  paused (sched w) = false ->
  addFeed url opts store now w = (AddOk feedId t feed, w') ->
  (forall h, (h < length (cronTasks w))%nat -> cronTasks w' !! h = cronTasks w !! h) /\
  match job_expression feed with
  | Some e =>
      cronTasks w'
      = (cronTasks w ++ [ {| task_expression := e; task_url := get feed "url";
                             task_scheduled := true |} ])%list /\
      activeJobs (sched w') = <[feedId := length (cronTasks w)]> (activeJobs (sched w))
  | None =>
      cronTasks w' = cronTasks w /\ activeJobs (sched w') = activeJobs (sched w)
  end.
Proof.
  intros Hr Hp H. apply addFeed_ok_world in H. rewrite Hr, Hp in H. simpl in H.
  rewrite createCronJob_spec in H. subst w'.
  destruct (job_expression feed) as [e|]; simpl.
  - split; [|done]. intros h Hh. by rewrite lookup_app_l.
  - done.
Qed.


(** [addFeed] of a feed that has no record, followed by [removeFeed] of
    the id it returned, restores the records, the Job Table and the
    flags; [totalFeeds] is the number of records; every task that
    existed is untouched, and the task that [addFeed] may have
    scheduled is stopped. *)
Theorem addFeed_removeFeed_round_trip u opts store now store' w feedId t feed w1 :
  well_formed w ->
  scheduledFeeds (sched w) !! generateFeedId u = None ->
  addFeed (JStr u) opts store now w = (AddOk feedId t feed, w1) ->
  (forall m, store' ≠ StoreThrow m) ->
  exists w2,
    removeFeed feedId store' w1 = (RemoveOk, w2) /\
    scheduledFeeds (sched w2) = scheduledFeeds (sched w) /\
    activeJobs (sched w2) = activeJobs (sched w) /\
    running (sched w2) = running (sched w) /\
    paused (sched w2) = paused (sched w) /\
    totalFeeds (stats (sched w2)) = Z.of_nat (size (scheduledFeeds (sched w))) /\
    (forall h, (h < length (cronTasks w))%nat -> cronTasks w2 !! h = cronTasks w !! h) /\
    (forall h tk, (length (cronTasks w) <= h)%nat -> cronTasks w2 !! h = Some tk ->
                  task_scheduled tk = false).
Proof.
  intros Hwf Hnone H Hstore.
  pose proof (addFeed_ok_inv _ _ _ _ _ _ _ _ _ H) as (u' & [= <-] & -> & _ & _ & _ & _ & Hfeeds).
  assert (Hjnone : activeJobs (sched w) !! generateFeedId u = None).
  { destruct (activeJobs (sched w) !! generateFeedId u) eqn:E; [|done].
    destruct (wf_record w Hwf (generateFeedId u)) as [? ?]; [by eexists|congruence]. }
  apply addFeed_ok_world in H.
  assert (Hrec1 : scheduledFeeds (sched w1) !! generateFeedId u = Some feed)
    by (by rewrite Hfeeds, lookup_insert_eq).
  unfold removeFeed. rewrite Hrec1.
  assert (Hdel : delete (generateFeedId u) (scheduledFeeds (sched w1))
                 = scheduledFeeds (sched w)).
  { rewrite Hfeeds, delete_insert_eq. by apply delete_id. }
  eexists. split; [by destruct store' as [| |m]; [| |destruct (Hstore m)]|].
  simpl. rewrite drop_job_feeds, Hdel, drop_job_jobs.
  rewrite (proj1 (drop_job_flags _ _)), (proj2 (drop_job_flags _ _)).
  split; [done|].
  unfold drop_job. subst w1.
  destruct (running (sched w) && negb (paused (sched w))); simpl.
  - rewrite createCronJob_spec. destruct (job_expression feed) as [e|]; simpl.
    + rewrite lookup_insert_eq, delete_insert_eq. simpl.
      split; [by apply delete_id|]. split; [done|]. split; [done|]. split; [done|].
      unfold job_stop. split.
      * intros h Hh. rewrite list_lookup_alter_ne by lia. by rewrite lookup_app_l.
      * intros h tk Hh. destruct (decide (h = length (cronTasks w))) as [->|Hne].
        -- rewrite list_lookup_alter_eq, list_lookup_middle by done. by intros [= <-].
        -- rewrite list_lookup_alter_ne by done. intros Htk.
           apply lookup_lt_Some in Htk. rewrite length_app in Htk. simpl in Htk. lia.
    + rewrite Hjnone. simpl. split; [by apply delete_id|].
      split; [done|]. split; [done|]. split; [done|]. split; [done|].
      intros h tk Hh Htk. apply lookup_lt_Some in Htk. lia.
  - rewrite Hjnone. simpl. split; [by apply delete_id|].
    split; [done|]. split; [done|]. split; [done|]. split; [done|].
    intros h tk Hh Htk. apply lookup_lt_Some in Htk. lia.
Qed.

End AddMore.

(** ** Validation and feed ids *)

Section Validation.
Context `{RT : Runtime}.

(** [validateCronExpression] accepts exactly the non-empty strings that
    node-cron accepts; it reports no reason when it accepts and one
    reason when it does not. *)
Theorem validateCronExpression_spec v :
  (valid (validateCronExpression v) = true
   <-> exists e, v = JStr e /\ e ≠ "" /\ cron_validate e = true) /\
  (valid (validateCronExpression v) = true <-> errors (validateCronExpression v) = []) /\
  (valid (validateCronExpression v) = false
   -> exists reason, errors (validateCronExpression v) = [reason]).
Proof.
  unfold validateCronExpression.
  destruct v as [| |b|n| |e]; simpl.
  1,2,5: split_and!; [split; [done|by intros (? & ? & _)]|done|by eexists].
  - destruct b; simpl; (split_and!; [split; [done|by intros (? & ? & _)]|done|by eexists]).
  - destruct (n =? 0); simpl;
      (split_and!; [split; [done|by intros (? & ? & _)]|done|by eexists]).
  - destruct (String.eqb e "") eqn:Ee; simpl.
    + apply String.eqb_eq in Ee as ->.
      split_and!; [split; [done|by intros (? & [= <-] & ? & _)]|done|by eexists].
    + apply String.eqb_neq in Ee.
      destruct (cron_validate e) eqn:Ec; simpl.
      * split_and!; [split; [by exists e|done]|done|done].
      * split_and!; [split; [done|intros (? & [= <-] & _ & ?); congruence]|done|by eexists].
Qed.

End Validation.

Lemma length_string_of_list_ascii (l : list ascii) :
  String.length (string_of_list_ascii l) = length l.
Proof. induction l as [|c l IH]; simpl; [done|by rewrite IH]. Qed.

Lemma length_list_ascii_of_string (s : string) :
  length (list_ascii_of_string s) = String.length s.
Proof. induction s as [|c s IH]; simpl; [done|by rewrite IH]. Qed.

Lemma length_encode_bytes (bs : list N) :
  length (Base64.encode_bytes bs) = (4 * ((length bs + 2) / 3))%nat.
Proof.
  assert (H : forall n bs, (length bs < n)%nat ->
                           length (Base64.encode_bytes bs)
                           = (4 * ((length bs + 2) / 3))%nat).
  { clear bs. induction n as [|n IH]; intros bs Hn; [lia|].
    destruct bs as [|a [|b [|c rest]]]; try done.
    change (length (Base64.encode_bytes (a :: b :: c :: rest)))
      with (S (S (S (S (length (Base64.encode_bytes rest)))))).
    rewrite IH by (simpl in Hn; lia). simpl length.
    replace (S (S (S (length rest))) + 2)%nat with (1 * 3 + (length rest + 2))%nat by lia.
    rewrite Nat.div_add_l by done. lia. }
  apply (H (S (length bs))). lia.
Qed.

(** A feed id consists of letters and digits only; it is no longer than
    the base64 text of the url, which has four characters for every
    three bytes of the url, the last group filled up. *)
Theorem generateFeedId_alnum u :
  Forall (fun c => is_alnum c = true) (list_ascii_of_string (generateFeedId u)) /\
  (String.length (generateFeedId u) <= String.length (Base64.encode u))%nat /\
  String.length (Base64.encode u) = (4 * ((String.length u + 2) / 3))%nat.
Proof.
  unfold generateFeedId, strip_non_alnum, Base64.encode.
  rewrite !list_ascii_of_string_of_list_ascii, !length_string_of_list_ascii.
  split_and!.
  - apply Forall_forall. intros c Hc. by apply list_elem_of_filter in Hc as [? _].
  - apply length_filter.
  - by rewrite length_encode_bytes, length_map, length_list_ascii_of_string.
Qed.

(** ** The reads *)

(** [listScheduledFeeds] returns the stored records and nothing else,
    as many as [getStatus] counts. *)
Lemma listScheduledFeeds_spec w :
  (forall r, r ∈ listScheduledFeeds w
             <-> exists feedId, scheduledFeeds (sched w) !! feedId = Some r) /\
  Z.of_nat (length (listScheduledFeeds w)) = status_scheduledFeeds (getStatus w).
Proof.
  unfold listScheduledFeeds. split.
  - intros r. rewrite list_elem_of_fmap. split.
    + intros ([feedId r'] & -> & Hin). exists feedId. by apply elem_of_map_to_list.
    + intros [feedId Hf]. exists (feedId, r). split; [done|by apply elem_of_map_to_list].
  - simpl. by rewrite length_fmap, length_map_to_list.
Qed.

(** ** FeedManager *)

Section FeedManagerProperties.

Lemma feed_defaults_lookup feedId url metadata now :
  let d := FeedManager.feed_defaults feedId url metadata now in
  d !! "id" = Some (FeedManager.Prim (JStr feedId)) /\
  d !! "url" = Some (FeedManager.Prim url) /\
  d !! "items"
  = Some (FeedManager.m_or (FeedManager.mget metadata "items") (FeedManager.Arr [])) /\
  d !! "lastUpdated" = Some (FeedManager.Prim (JStr (Iso.format now))).
Proof.
  unfold FeedManager.feed_defaults. simpl. split_and!.
  - apply lookup_insert_eq.
  - rewrite lookup_insert_ne by done. apply lookup_insert_eq.
  - do 4 (rewrite lookup_insert_ne by done). apply lookup_insert_eq.
  - do 5 (rewrite lookup_insert_ne by done). apply lookup_insert_eq.
Qed.

(** [FeedManager.addFeed] on a string url always succeeds, under the id
    of the url.  The stored feed has every key of the metadata with the
    caller's value; [id], [url] and [lastUpdated] are the manager's
    where the metadata has none; and [getFeedItems] then returns the
    items of the metadata, or the empty array when it has none. *)
Theorem FeedManager_addFeed_stores u metadata now m :
  exists feedData m',
    FeedManager.addFeed (JStr u) metadata now m
    = (FeedManager.AddOk (generateFeedId u) feedData, m') /\
    FeedManager.feeds m' = <[generateFeedId u := feedData]> (FeedManager.feeds m) /\
    FeedManager.feed_saves m' = S (FeedManager.feed_saves m) /\
    (forall k v, metadata !! k = Some v -> feedData !! k = Some v) /\
    (metadata !! "id" = None
     -> feedData !! "id" = Some (FeedManager.Prim (JStr (generateFeedId u)))) /\
    (metadata !! "url" = None -> feedData !! "url" = Some (FeedManager.Prim (JStr u))) /\
    (metadata !! "lastUpdated" = None
     -> feedData !! "lastUpdated" = Some (FeedManager.Prim (JStr (Iso.format now)))) /\
    FeedManager.getFeedItems (generateFeedId u) m'
    = FeedManager.m_or (FeedManager.mget metadata "items") (FeedManager.Arr []).
Proof.
  unfold FeedManager.addFeed. simpl.
  destruct (feed_defaults_lookup (generateFeedId u) (JStr u) metadata now)
    as (Hid & Hurl & Hitems & Hlast).
  eexists _, _. split; [reflexivity|]. simpl. split_and!; try done.
  - intros k v Hk. by apply lookup_union_Some_l.
  - intros Hn. by rewrite lookup_union_r.
  - intros Hn. by rewrite lookup_union_r.
  - intros Hn. by rewrite lookup_union_r.
  - unfold FeedManager.getFeedItems. simpl. rewrite lookup_insert_eq.
    unfold FeedManager.mget at 1.
    destruct (metadata !! "items") as [v|] eqn:Hm.
    + rewrite (lookup_union_Some_l _ _ _ _ Hm). unfold FeedManager.mget.
      by rewrite Hm.
    + rewrite lookup_union_r, Hitems by done. unfold FeedManager.mget.
      by rewrite Hm.
Qed.

(** [FeedManager.addFeed] on a url that is not a string fails and
    changes nothing. *)
Lemma FeedManager_addFeed_rejects url metadata now m :
  (forall u, url ≠ JStr u) ->
  exists e, FeedManager.addFeed url metadata now m = (FeedManager.AddFail e, m).
Proof.
  intros Hu. unfold FeedManager.addFeed.
  destruct url as [| | | | |u]; simpl; try by eexists.
  by destruct (Hu u).
Qed.

(** [FeedManager.removeFeed] fails with "Feed not found" on an unknown
    id and changes nothing; on a known id it deletes that feed, keeps
    the others and writes the file. *)
Lemma FeedManager_removeFeed_spec feedId m :
  match FeedManager.feeds m !! feedId with
  | None => FeedManager.removeFeed feedId m = (FeedManager.RemoveFail "Feed not found", m)
  | Some _ =>
      (FeedManager.removeFeed feedId m).1 = FeedManager.RemoveOk /\
      FeedManager.feeds (FeedManager.removeFeed feedId m).2 !! feedId = None /\
      (forall id, id ≠ feedId ->
                  FeedManager.feeds (FeedManager.removeFeed feedId m).2 !! id
                  = FeedManager.feeds m !! id) /\
      FeedManager.getFeedItems feedId (FeedManager.removeFeed feedId m).2
      = FeedManager.Arr [] /\
      FeedManager.feed_saves (FeedManager.removeFeed feedId m).2
      = S (FeedManager.feed_saves m)
  end.
Proof.
  unfold FeedManager.removeFeed, FeedManager.getFeedItems.
  destruct (FeedManager.feeds m !! feedId) eqn:E; [|done]. simpl.
  rewrite lookup_delete_eq. split_and!; try done.
  intros id Hne. by rewrite lookup_delete_ne.
Qed.

(** A failure of the manager changes nothing and writes nothing:
    [addFeed] fails only on a url that is not a string, [removeFeed]
    only on an id it does not hold, with "Feed not found". *)
Theorem FeedManager_failures_change_nothing m :
  (forall url metadata now e m',
      FeedManager.addFeed url metadata now m = (FeedManager.AddFail e, m') ->
      m' = m /\ forall u, url ≠ JStr u) /\
  (forall feedId e m',
      FeedManager.removeFeed feedId m = (FeedManager.RemoveFail e, m') ->
      m' = m /\ e = "Feed not found" /\ FeedManager.feeds m !! feedId = None).
Proof.
  split.
  - intros url metadata now e m'. unfold FeedManager.addFeed.
    destruct url as [| | | | |u]; simpl; intros E; inversion E; subst; by split.
  - intros feedId e m'. unfold FeedManager.removeFeed.
    destruct (FeedManager.feeds m !! feedId) eqn:Hf; intros E; inversion E; by subst.
Qed.

(** Adding a feed that the manager does not hold and removing the id it
    returned restores the feeds; the file was written twice. *)
Theorem FeedManager_add_remove_round_trip u metadata now m :
  FeedManager.feeds m !! generateFeedId u = None ->
  exists feedData m1 m2,
    FeedManager.addFeed (JStr u) metadata now m
    = (FeedManager.AddOk (generateFeedId u) feedData, m1) /\
    FeedManager.removeFeed (generateFeedId u) m1 = (FeedManager.RemoveOk, m2) /\
    FeedManager.feeds m2 = FeedManager.feeds m /\
    FeedManager.feed_saves m2 = S (S (FeedManager.feed_saves m)).
Proof.
  intros Hn. unfold FeedManager.addFeed. simpl.
  eexists _, _, _. split; [reflexivity|].
  unfold FeedManager.removeFeed. simpl. rewrite lookup_insert_eq.
  split; [reflexivity|]. simpl. split; [|done].
  rewrite delete_insert_eq. by apply delete_id.
Qed.

(** Two urls with the same id share one feed in the manager: adding the
    second replaces what the first stored, and the number of feeds does
    not grow. *)
Theorem FeedManager_same_id_overwrites u1 u2 md1 md2 t1 t2 m :
  generateFeedId u1 = generateFeedId u2 ->
  FeedManager.feeds
    (FeedManager.addFeed (JStr u2) md2 t2 (FeedManager.addFeed (JStr u1) md1 t1 m).2).2
  = FeedManager.feeds (FeedManager.addFeed (JStr u2) md2 t2 m).2 /\
  size (FeedManager.feeds
          (FeedManager.addFeed (JStr u2) md2 t2
             (FeedManager.addFeed (JStr u1) md1 t1 m).2).2)
  = size (FeedManager.feeds (FeedManager.addFeed (JStr u1) md1 t1 m).2) /\
  (md2 !! "url" = None ->
   exists f,
     FeedManager.feeds
       (FeedManager.addFeed (JStr u2) md2 t2
          (FeedManager.addFeed (JStr u1) md1 t1 m).2).2 !! generateFeedId u1 = Some f /\
     FeedManager.mget f "url" = FeedManager.Prim (JStr u2)).
Proof.
  intros Hid. unfold FeedManager.addFeed. simpl. rewrite Hid.
  split; [apply insert_insert_eq|]. split.
  - rewrite insert_insert_eq. by rewrite <- !size_dom, !dom_insert_L.
  - intros Hn. eexists. rewrite lookup_insert_eq. split; [reflexivity|].
    unfold FeedManager.mget. rewrite lookup_union_r by done.
    by rewrite (proj1 (proj2 (feed_defaults_lookup _ _ _ _))).
Qed.

End FeedManagerProperties.

(** ** The scheduler over the repository's FeedManager *)

Section SystemProperties.
Context `{RT : Runtime}.

Lemma store_called_app w w' c :
  storeCalls w' = (storeCalls w ++ [c])%list -> store_called w w' = true.
Proof.
  intros H. unfold store_called. rewrite H, length_app. simpl.
  apply negb_true_iff, Nat.eqb_neq. lia.
Qed.

Lemma store_called_same w w' :
  storeCalls w' = storeCalls w -> store_called w w' = false.
Proof. intros H. unfold store_called. by rewrite H, Nat.eqb_refl. Qed.

Lemma removeFeed_storeCalls feedId store w rec :
  scheduledFeeds (sched w) !! feedId = Some rec ->
  storeCalls (removeFeed feedId store w).2 = (storeCalls w ++ [StoreRemove feedId])%list.
Proof.
  intros H. unfold removeFeed. rewrite H.
  destruct store; simpl; by rewrite (proj1 (proj2 (drop_job_outside _ _))).
Qed.

Lemma FeedManager_removeFeed_feeds feedId m :
  FeedManager.feeds (FeedManager.removeFeed feedId m).2
  = delete feedId (FeedManager.feeds m).
Proof.
  unfold FeedManager.removeFeed.
  destruct (FeedManager.feeds m !! feedId) eqn:E; simpl; [done|].
  symmetry. by apply delete_id.
Qed.

Lemma FeedManager_removeFeed_answers feedId m :
  forall msg, store_of_remove (FeedManager.removeFeed feedId m).1 ≠ StoreThrow msg.
Proof.
  intros msg. unfold FeedManager.removeFeed.
  by destruct (FeedManager.feeds m !! feedId).
Qed.

Lemma sys_removeFeed_deletes feedId s rec :
  scheduledFeeds (sched (sys_world s)) !! feedId = Some rec ->
  scheduledFeeds (sched (sys_world (sys_removeFeed feedId s).2))
  = delete feedId (scheduledFeeds (sched (sys_world s))) /\
  FeedManager.feeds (sys_manager (sys_removeFeed feedId s).2)
  = delete feedId (FeedManager.feeds (sys_manager s)).
Proof.
  intros Hrec. unfold sys_removeFeed.
  pose proof (FeedManager_removeFeed_feeds feedId (sys_manager s)) as Hm.
  pose proof (FeedManager_removeFeed_answers feedId (sys_manager s)) as Hans.
  destruct (FeedManager.removeFeed feedId (sys_manager s)) as [answer m'].
  simpl in Hm, Hans.
  pose proof (removeFeed_storeCalls feedId (store_of_remove answer) _ _ Hrec) as Hc.
  destruct (removeFeed_known feedId (store_of_remove answer) (sys_world s) rec Hrec Hans)
    as (w' & Hw & Hfeeds & _).
  rewrite Hw in *. simpl in Hc. by rewrite (store_called_app _ _ _ Hc).
Qed.

(** Over the repository's FeedManager, which answers every call,
    [removeFeed] of a scheduled feed always succeeds: the record is
    deleted, the feed is out of the Job Table and out of the manager,
    whether or not the manager held it. *)
Theorem sys_removeFeed_known feedId s rec :
  scheduledFeeds (sched (sys_world s)) !! feedId = Some rec ->
  exists s',
    sys_removeFeed feedId s = (RemoveOk, s') /\
    scheduledFeeds (sched (sys_world s'))
    = delete feedId (scheduledFeeds (sched (sys_world s))) /\
    activeJobs (sched (sys_world s'))
    = delete feedId (activeJobs (sched (sys_world s))) /\
    FeedManager.feeds (sys_manager s')
    = delete feedId (FeedManager.feeds (sys_manager s)).
Proof.
  intros Hrec. unfold sys_removeFeed.
  pose proof (FeedManager_removeFeed_feeds feedId (sys_manager s)) as Hm.
  pose proof (FeedManager_removeFeed_answers feedId (sys_manager s)) as Hans.
  destruct (FeedManager.removeFeed feedId (sys_manager s)) as [answer m'].
  simpl in Hm, Hans.
  pose proof (removeFeed_storeCalls feedId (store_of_remove answer) _ _ Hrec) as Hc.
  destruct (removeFeed_known feedId (store_of_remove answer) (sys_world s) rec Hrec Hans)
    as (w' & Hw & Hfeeds & Hjobs & _).
  rewrite Hw in *. simpl in Hc. rewrite (store_called_app _ _ _ Hc).
  eexists. split; [reflexivity|]. by simpl.
Qed.

Lemma sys_addFeed_world url opts now s :
  sys_world (sys_addFeed url opts now s).2
  = (addFeed url opts
       (store_of_add
          (FeedManager.addFeed url (FeedManager.Prim <$> opts) now (sys_manager s)).1)
       now (sys_world s)).2.
Proof.
  unfold sys_addFeed. destruct (FeedManager.addFeed _ _ _ _) as [answer m'].
  simpl. by destruct (addFeed _ _ _ _ _).
Qed.

Lemma addFeed_feeds_cases url opts store now w :
  scheduledFeeds (sched (addFeed url opts store now w).2) = scheduledFeeds (sched w) \/
  exists u feed,
    url = JStr u /\
    scheduledFeeds (sched (addFeed url opts store now w).2)
    = <[generateFeedId u := feed]> (scheduledFeeds (sched w)) /\
    storeCalls (addFeed url opts store now w).2 = (storeCalls w ++ [StoreAdd url])%list.
Proof.
  destruct (addFeed url opts store now w) as [[feedId t feed|e] w'] eqn:H.
  - right. pose proof H as H'.
    apply addFeed_ok_inv in H as (u & -> & -> & _ & _ & _ & _ & Hf).
    exists u, feed. split; [done|]. split; [done|].
    apply addFeed_ok_world in H'. subst w'. simpl.
    destruct (running _ && _); simpl;
      [by rewrite (proj1 (proj2 (createCronJob_outside _ _ _)))|done].
  - left. revert H. unfold addFeed.
    destruct (generate_id url); [|by intros E; inversion E; subst].
    destruct (negb _); [by intros E; inversion E; subst|].
    destruct store; try (by intros E; inversion E; subst).
    destruct (getNextRunTime _ _); [done|by intros E; inversion E; subst].
Qed.

Lemma updateFeedSchedule_dom feedId newInterval now w :
  dom (scheduledFeeds (sched (updateFeedSchedule feedId newInterval now w).2))
  = dom (scheduledFeeds (sched w)).
Proof.
  unfold updateFeedSchedule. destruct (scheduledFeeds _ !! _); [|done].
  destruct (negb _); [done|].
  destruct (getNextRunTime _ _); simpl; [|by rewrite dom_alter_L].
  destruct (running _ && _); simpl; [|by rewrite !dom_alter_L].
  destruct (alter _ _ _ !! _); simpl; [|by rewrite !dom_alter_L].
  rewrite createCronJob_feeds, drop_job_feeds. simpl. by rewrite !dom_alter_L.
Qed.

Lemma sys_step_managed s o :
  dom (scheduledFeeds (sched (sys_world s))) ⊆ dom (FeedManager.feeds (sys_manager s)) ->
  dom (scheduledFeeds (sched (sys_world (sys_step s o))))
  ⊆ dom (FeedManager.feeds (sys_manager (sys_step s o))).
Proof.
  intros Hinv. destruct o; simpl.
  - unfold sys_addFeed.
    destruct (addFeed_feeds_cases url opts
                (store_of_add (FeedManager.addFeed url (FeedManager.Prim <$> opts) now
                                 (sys_manager s)).1) now (sys_world s))
      as [Hsame|(u & feed & -> & Hf & Hc)].
    + destruct (FeedManager.addFeed url _ now (sys_manager s)) as [answer m'] eqn:Hm.
      simpl in Hsame.
      destruct (addFeed url opts (store_of_add answer) now (sys_world s)) as [r w'].
      simpl in *. rewrite Hsame.
      destruct (store_called (sys_world s) w'); [|done].
      revert Hm. unfold FeedManager.addFeed.
      destruct (generate_id url); intros [= <- <-]; [|done].
      simpl. rewrite dom_insert_L. set_solver.
    + simpl in *.
      destruct (addFeed (JStr u) opts StoreOk now (sys_world s)) as [r w'].
      simpl in *. rewrite (store_called_app _ _ _ Hc), Hf. simpl.
      rewrite !dom_insert_L. by apply union_mono_l.
  - destruct (scheduledFeeds (sched (sys_world s)) !! feedId) as [rec|] eqn:Hrec.
    + destruct (sys_removeFeed_deletes feedId s rec Hrec) as [Hf Hm].
      rewrite Hf, Hm, !dom_delete_L. by apply difference_mono_r.
    + unfold sys_removeFeed.
      destruct (FeedManager.removeFeed feedId (sys_manager s)) as [answer m'].
      rewrite removeFeed_unknown by done. simpl.
      by rewrite store_called_same.
  - by rewrite updateFeedSchedule_dom.
  - by rewrite start_feeds.
  - unfold stop. by destruct (negb _).
  - unfold pause. by destruct (_ || _).
  - unfold resume. by destruct (_ || _).
Qed.

(** Every feed the scheduler holds a record for is a feed of the
    manager, after every sequence of [addFeed], [removeFeed],
    [updateFeedSchedule] and lifecycle calls on a new scheduler with a
    new manager. *)
Theorem scheduled_feeds_are_managed cfg ops :
  dom (scheduledFeeds (sched (sys_world (sys_run ops (sys_new cfg)))))
  ⊆ dom (FeedManager.feeds (sys_manager (sys_run ops (sys_new cfg)))).
Proof.
  assert (H : forall s,
             dom (scheduledFeeds (sched (sys_world s)))
             ⊆ dom (FeedManager.feeds (sys_manager s)) ->
             dom (scheduledFeeds (sched (sys_world (sys_run ops s))))
             ⊆ dom (FeedManager.feeds (sys_manager (sys_run ops s)))).
  { induction ops as [|o ops IH]; intros s Hinv; [done|].
    simpl. by apply IH, sys_step_managed. }
  apply H. simpl. set_solver.
Qed.

End SystemProperties.

(** ** Writes of the state file, and fetches of urls without a record *)

Section Writes.
Context `{RT : Runtime}.

(** [addFeed], [removeFeed] and [updateFeedSchedule] write the state
    file once when they succeed and not at all when they fail; [close]
    always writes it once. *)
Theorem state_file_written_on_success :
  (forall url opts store now w,
      saves (addFeed url opts store now w).2
      = match (addFeed url opts store now w).1 with
        | AddOk _ _ _ => S (saves w)
        | AddFail _ => saves w
        end) /\
  (forall feedId store w,
      saves (removeFeed feedId store w).2
      = match (removeFeed feedId store w).1 with
        | RemoveOk => S (saves w)
        | RemoveFail _ => saves w
        end) /\
  (forall feedId newInterval now w,
      saves (updateFeedSchedule feedId newInterval now w).2
      = match (updateFeedSchedule feedId newInterval now w).1 with
        | UpdateOk _ => S (saves w)
        | UpdateFail _ => saves w
        end) /\
  (forall w, saves (close w) = S (saves w)).
Proof.
  split_and!.
  - intros url opts store now w. unfold addFeed.
    destruct (generate_id url); [|done]. destruct (negb _); [done|].
    destruct store; try done. destruct (getNextRunTime _ _); [|done]. simpl.
    destruct (running _ && _); [|done].
    by rewrite (proj2 (proj2 (createCronJob_outside _ _ _))).
  - intros feedId store w. unfold removeFeed.
    destruct (scheduledFeeds _ !! _); [|done].
    destruct store; simpl; by rewrite (proj2 (proj2 (drop_job_outside _ _))).
  - intros feedId newInterval now w. unfold updateFeedSchedule.
    destruct (scheduledFeeds _ !! _); [|done]. destruct (negb _); [done|].
    destruct (getNextRunTime _ _); [|done]. simpl.
    destruct (running _ && _); [|done]. destruct (alter _ _ _ !! _); [|done].
    by rewrite (proj2 (proj2 (createCronJob_outside _ _ _))),
      (proj2 (proj2 (drop_job_outside _ _))).
  - intros w. unfold close, stop. by destruct (negb _).
Qed.

Lemma try_attempt_unscheduled u a env w r w' :
  scheduledFeeds (sched w) !! generateFeedId u = None ->
  try_attempt (JStr u) a env w = (r, w') ->
  scheduledFeeds (sched w') = scheduledFeeds (sched w) /\ saves w' = saves w.
Proof.
  intros Hn. unfold try_attempt. simpl.
  destruct (fetched env); [|by intros E; inversion E; subst].
  destruct (stored env); try (by intros E; inversion E; subst).
  simpl. rewrite Hn. by intros E; inversion E; subst.
Qed.

Lemma final_failure_unscheduled u n msg now w :
  scheduledFeeds (sched w) !! generateFeedId u = None ->
  final_failure (JStr u) n msg now w = (FetchFail msg n, count_failure w).
Proof. intros Hn. unfold final_failure. simpl. by rewrite Hn. Qed.

Lemma retry_loop_unscheduled fuel u n a envs w :
  scheduledFeeds (sched w) !! generateFeedId u = None ->
  scheduledFeeds (sched (retry_loop fuel (JStr u) n a envs w).2)
  = scheduledFeeds (sched w) /\
  saves (retry_loop fuel (JStr u) n a envs w).2 = saves w.
Proof.
  revert a w. induction fuel as [|fuel IH]; intros a w Hn; simpl; [done|].
  destruct (a <=? n); [|done]. unfold attempt_body.
  destruct (try_attempt (JStr u) a (envs a) w) as [[r|msg] w1] eqn:Ht;
    apply (try_attempt_unscheduled _ _ _ _ _ _ Hn) in Ht as [Hf Hs]; [done|].
  destruct (a =? n).
  - rewrite final_failure_unscheduled by (by rewrite Hf). done.
  - destruct (IH (a + 1) w1) as [Hf' Hs']; [by rewrite Hf|].
    by rewrite Hf', Hs'.
Qed.

(** A fetch of a url that has no record leaves the records as they are
    and writes nothing: only the counters and the Feed Store see it. *)
Theorem fetch_unscheduled_url u opts envs w :
  scheduledFeeds (sched w) !! generateFeedId u = None ->
  scheduledFeeds (sched (fetchAndUpdateFeed (JStr u) opts envs w).2)
  = scheduledFeeds (sched w) /\
  saves (fetchAndUpdateFeed (JStr u) opts envs w).2 = saves w.
Proof. apply retry_loop_unscheduled. Qed.




End Writes.

(** ** getNextRunTime *)

Lemma list_ascii_of_string_app (s1 s2 : string) :
  list_ascii_of_string (s1 ++ s2)
  = (list_ascii_of_string s1 ++ list_ascii_of_string s2)%list.
Proof. induction s1 as [|c s1 IH]; simpl; [done|by rewrite IH]. Qed.

Lemma split_on_until (sep : ascii) (cur pre rest : list ascii) :
  Forall (fun c => Ascii.eqb c sep = false) pre ->
  Str.split_on sep cur (pre ++ sep :: rest)
  = (rev cur ++ pre)%list :: Str.split_on sep [] rest.
Proof.
  revert cur. induction pre as [|c pre IH]; intros cur H; simpl.
  - by rewrite Ascii.eqb_refl, app_nil_r.
  - inversion H as [|? ? Hc Hpre]; subst. rewrite Hc, IH by done. simpl.
    by rewrite <- app_assoc.
Qed.

Lemma uint_no_space (d : Decimal.uint) :
  Forall (fun c => Ascii.eqb c " " = false)
    (list_ascii_of_string (NilEmpty.string_of_uint d)).
Proof. induction d; simpl; by constructor. Qed.

Lemma step_field (d : Decimal.uint) (rest : string) :
  Str.substring_from 2
    (Str.field 0 ("*/" ++ NilEmpty.string_of_uint d ++ " " ++ rest))
  = NilEmpty.string_of_uint d /\
  Str.substring_from 2
    (Str.field 1 ("0 */" ++ NilEmpty.string_of_uint d ++ " " ++ rest))
  = NilEmpty.string_of_uint d.
Proof.
  assert (H : Str.split_on " " []
                ("*"%char :: "/"%char
                 :: list_ascii_of_string (NilEmpty.string_of_uint d ++ " " ++ rest))
              = ("*"%char :: "/"%char
                 :: list_ascii_of_string (NilEmpty.string_of_uint d))
                :: Str.split_on " " [] (list_ascii_of_string rest)).
  { rewrite !list_ascii_of_string_app.
    apply (split_on_until " " []
             ("*"%char :: "/"%char :: list_ascii_of_string (NilEmpty.string_of_uint d))
             (list_ascii_of_string rest)).
    do 2 (constructor; [done|]). apply uint_no_space. }
  unfold Str.substring_from, Str.field, Str.split. split.
  - change (list_ascii_of_string ("*/" ++ NilEmpty.string_of_uint d ++ " " ++ rest))
      with ("*"%char :: "/"%char
            :: list_ascii_of_string (NilEmpty.string_of_uint d ++ " " ++ rest)).
    rewrite H. cbn [map nth].
    rewrite list_ascii_of_string_of_list_ascii. cbn [drop].
    apply string_of_list_ascii_of_string.
  - change (Str.split_on " " []
              (list_ascii_of_string
                 ("0 */" ++ NilEmpty.string_of_uint d ++ " " ++ rest)))
      with (["0"%char]
            :: Str.split_on " " []
                 ("*"%char :: "/"%char
                  :: list_ascii_of_string (NilEmpty.string_of_uint d ++ " " ++ rest))).
    rewrite H. cbn [map nth].
    rewrite list_ascii_of_string_of_list_ascii. cbn [drop].
    apply string_of_list_ascii_of_string.
Qed.

Lemma digits_uint_acc (d : Decimal.uint) (k : nat) :
  ParseInt.digits 10 (Some (Z.of_nat k))
    (map N_of_ascii (list_ascii_of_string (NilEmpty.string_of_uint d)))
  = Some (Z.of_nat (Nat.of_uint_acc d k)).
Proof.
  revert k. induction d; intros k; [done|..].
  all: cbn [NilEmpty.string_of_uint list_ascii_of_string map ParseInt.digits
            Nat.of_uint_acc].
  all: rewrite <- IHd, Nat.tail_mul_spec.
  all: match goal with
       | |- context [ParseInt.digit_value 10 ?c] =>
           let v := eval vm_compute in (ParseInt.digit_value 10 c) in
           change (ParseInt.digit_value 10 c) with v
       end.
  all: cbn [default from_option id]; do 2 f_equal; lia.
Qed.

Lemma parseInt_uint (d : Decimal.uint) :
  ParseInt.parseInt (NilEmpty.string_of_uint d)
  = match d with
    | Decimal.Nil => None
    | _ => Some (Z.of_nat (Nat.of_uint d))
    end.
Proof.
  unfold ParseInt.parseInt.
  set (bs := map N_of_ascii (list_ascii_of_string (NilEmpty.string_of_uint d))).
  assert (Hws : ParseInt.skip_ws (length bs) bs = bs) by (subst bs; by destruct d).
  assert (Hsign : ParseInt.strip_sign bs = (1, bs)) by (subst bs; by destruct d).
  assert (Hhex : ParseInt.strip_hex bs = (10, bs)).
  { subst bs. destruct d as [|d'| | | | | | | | |]; try done. by destruct d'. }
  rewrite Hws, Hsign, Hhex. subst bs.
  destruct d; [done|..].
  all: cbn [NilEmpty.string_of_uint list_ascii_of_string map ParseInt.digits].
  all: match goal with
       | |- context [ParseInt.digit_value 10 ?c] =>
           let v := eval vm_compute in (ParseInt.digit_value 10 c) in
           change (ParseInt.digit_value 10 c) with v
       end.
  all: cbn [default from_option id option_map].
  all: unfold Nat.of_uint; cbn [Nat.of_uint_acc].
  all: match goal with
       | |- context [ParseInt.digits 10 (Some ?a) _] =>
           match goal with
           | |- context [Nat.of_uint_acc _ ?k] =>
               replace a with (Z.of_nat k) by (vm_compute; reflexivity)
           end
       end.
  all: rewrite digits_uint_acc; cbn [option_map]; by rewrite Z.mul_1_l.
Qed.

Lemma prefix_step_minutes (tail : string) :
  String.prefix "*/" ("*/" ++ tail) = true.
Proof. by destruct tail. Qed.

Lemma prefix_step_hours (tail : string) :
  String.prefix "*/" ("0 */" ++ tail) = false /\
  String.prefix "0 */" ("0 */" ++ tail) = true.
Proof. by destruct tail. Qed.

Section NextRun.
Context `{RT : Runtime}.

(** An expression that begins with a step of minutes gives the time
    that many minutes from now, whatever the other fields say, and one
    that begins with minute 0 and a step of hours the time that many
    hours from now; a step without digits gives the invalid date. *)
Theorem getNextRunTime_steps (d : Decimal.uint) (rest : string) (now : Z) :
  getNextRunTime (JStr ("*/" ++ NilEmpty.string_of_uint d ++ " " ++ rest)) now
  = match d with
    | Decimal.Nil => InvalidDate
    | _ => new_Date (Some (now + Z.of_nat (Nat.of_uint d) * 60000))
    end /\
  getNextRunTime (JStr ("0 */" ++ NilEmpty.string_of_uint d ++ " " ++ rest)) now
  = match d with
    | Decimal.Nil => InvalidDate
    | _ => new_Date (Some (now + Z.of_nat (Nat.of_uint d) * 3600000))
    end.
Proof.
  destruct (step_field d rest) as [Hm Hh].
  unfold getNextRunTime. split.
  - rewrite prefix_step_minutes, Hm, parseInt_uint. by destruct d.
  - rewrite (proj1 (prefix_step_hours _)), (proj2 (prefix_step_hours _)).
    rewrite Hh, parseInt_uint. by destruct d.
Qed.

(** With the clock and the next local midnight within the range of
    [Date], the only way to an invalid date, which makes [toISOString]
    throw in [addFeed] and [updateFeedSchedule], is an expression that
    begins with a step of minutes or with minute 0 and a step of
    hours. *)
Theorem getNextRunTime_invalid_date v now :
  Z.abs now <= max_time - 3600000 ->
  Z.abs (next_local_midnight now) <= max_time ->
  getNextRunTime v now = InvalidDate ->
  exists e, v = JStr e /\
            (String.prefix "*/" e = true \/ String.prefix "0 */" e = true).
Proof.
  intros Hnow Hmid. unfold getNextRunTime, new_Date, max_time in *.
  destruct v as [| | | | |e].
  1-5: simpl; destruct (Z.abs (now + 3600000) <=? 8640000000000000) eqn:E; [done|lia].
  destruct (String.prefix "*/" e) eqn:E1; [intros _; exists e; split; [done|by left]|].
  destruct (String.prefix "0 */" e) eqn:E2;
    [intros _; exists e; split; [done|by right]|].
  simpl.
  destruct (String.eqb e "0 0 * * *").
  - destruct (Z.abs (next_local_midnight now) <=? 8640000000000000) eqn:E; [done|lia].
  - destruct (Z.abs (now + 1800000) <=? 8640000000000000) eqn:E; [done|lia].
Qed.

End NextRun.

(** ** The further properties on the sample worlds *)


Lemma updateFeedSchedule_record_witness :
  let res := @updateFeedSchedule sample_runtime id_a (JStr "*/10 * * * *") 2000 world_a in
  res.1 = UpdateOk 602000 /\
  stored_field res.2 id_a "interval" = Some (JStr "*/10 * * * *") /\
  stored_field res.2 id_a "nextRun" = Some (JStr (Iso.format 602000)) /\
  saves res.2 = S (saves world_a).
Proof.
  intros res.
  assert (H1 : res.1 = UpdateOk 602000) by (vm_compute; reflexivity).
  assert (E : @updateFeedSchedule sample_runtime id_a (JStr "*/10 * * * *") 2000 world_a
              = (UpdateOk 602000, res.2)).
  { rewrite <- H1. subst res. by destruct (updateFeedSchedule _ _ _ _). }
  destruct (@updateFeedSchedule_record sample_runtime _ _ _ _ _ _ E)
    as (rec & _ & _ & Hf & _ & _ & Hs).
  split; [exact H1|]. unfold stored_field. rewrite Hf, lookup_insert_eq. simpl.
  split; [by rewrite get_insert_ne, get_insert_eq|].
  split; [by rewrite get_insert_eq|exact Hs].
Defined.

Lemma updateFeedSchedule_failure_witness :
  let res := @updateFeedSchedule sample_runtime id_a (JStr "every hour") 2000 world_a in
  res.1 = UpdateFail "Invalid cron expression: Invalid cron expression format" /\
  res.2 = world_a.
Proof.
  intros res.
  assert (H1 : res.1
               = UpdateFail "Invalid cron expression: Invalid cron expression format")
    by (vm_compute; reflexivity).
  assert (Hv : valid (@validateCronExpression sample_runtime (JStr "every hour")) = false)
    by (vm_compute; reflexivity).
  assert (E : @updateFeedSchedule sample_runtime id_a (JStr "every hour") 2000 world_a
              = (UpdateFail "Invalid cron expression: Invalid cron expression format",
                 res.2)).
  { rewrite <- H1. subst res. by destruct (updateFeedSchedule _ _ _ _). }
  destruct (@updateFeedSchedule_failure sample_runtime _ _ _ _ _ _ E)
    as (_ & _ & _ & _ & _ & Hsame).
  split; [exact H1|]. apply Hsame. by right.
Defined.

Lemma addFeed_running_creates_job_witness :
  let res := @addFeed sample_runtime (JStr url_a) ∅ StoreOk 1000 world_started in
  running (sched world_started) = true /\
  paused (sched world_started) = false /\
  activeJobs (sched res.2) = <[id_a := 0%nat]> (activeJobs (sched world_started)) /\
  (task_expression <$> cronTasks res.2 !! 0%nat) = Some "*/30 * * * *" /\
  (task_scheduled <$> cronTasks res.2 !! 0%nat) = Some true.
Proof.
  intros res.
  assert (Hr : running (sched world_started) = true) by (vm_compute; reflexivity).
  assert (Hp : paused (sched world_started) = false) by (vm_compute; reflexivity).
  assert (Hl : cronTasks world_started = []) by (vm_compute; reflexivity).
  destruct (@addFeed_ok sample_runtime url_a ∅ 1000 world_started 1801000)
    as (w1 & E & _); [vm_compute; reflexivity..|].
  destruct (@addFeed_running_creates_job sample_runtime _ _ _ _ _ _ _ _ _ Hr Hp E)
    as [_ Hnew].
  assert (He : @job_expression sample_runtime
                 (∅ ∪ record_defaults (generateFeedId url_a) (JStr url_a)
                        (js_or (get ∅ "title") (JStr ""))
                        (add_interval ∅ world_started) (JStr (Iso.format 1801000)))
               = Some "*/30 * * * *") by (vm_compute; reflexivity).
  rewrite He, Hl in Hnew. destruct Hnew as [Hts Hjobs].
  assert (res.2 = w1) as -> by (subst res; by rewrite E).
  split; [exact Hr|]. split; [exact Hp|]. split; [exact Hjobs|].
  rewrite Hts. by split.
Defined.


Lemma addFeed_removeFeed_round_trip_witness :
  let res := @addFeed sample_runtime (JStr url_a) ∅ StoreOk 1000 world_started in
  scheduledFeeds (sched world_started) !! generateFeedId url_a = None /\
  exists w2,
    removeFeed (generateFeedId url_a) StoreOk res.2 = (RemoveOk, w2) /\
    scheduledFeeds (sched w2) = scheduledFeeds (sched world_started) /\
    activeJobs (sched w2) = activeJobs (sched world_started).
Proof.
  intros res.
  assert (Hwf : well_formed world_started) by apply (@wf_reachable sample_runtime).
  assert (Hn : scheduledFeeds (sched world_started) !! generateFeedId url_a = None)
    by (vm_compute; reflexivity).
  destruct (@addFeed_ok sample_runtime url_a ∅ 1000 world_started 1801000)
    as (w1 & E & _); [vm_compute; reflexivity..|].
  assert (Hs : forall m, StoreOk ≠ StoreThrow m) by done.
  destruct (@addFeed_removeFeed_round_trip sample_runtime _ _ _ _ StoreOk _ _ _ _ _
              Hwf Hn E Hs) as (w2 & Hrem & Hf & Hj & _).
  assert (res.2 = w1) as -> by (subst res; by rewrite E).
  split; [exact Hn|]. exists w2.
  split; [exact Hrem|]. split; [exact Hf|exact Hj].
Defined.

Lemma FeedManager_add_remove_round_trip_witness :
  exists feedData m1 m2,
    FeedManager.addFeed (JStr url_a) ∅ 1000 FeedManager.empty
    = (FeedManager.AddOk (generateFeedId url_a) feedData, m1) /\
    FeedManager.removeFeed (generateFeedId url_a) m1 = (FeedManager.RemoveOk, m2) /\
    FeedManager.feeds m2 = FeedManager.feeds FeedManager.empty /\
    FeedManager.feed_saves m2 = 2%nat.
Proof.
  apply (FeedManager_add_remove_round_trip url_a ∅ 1000 FeedManager.empty).
  apply lookup_empty.
Defined.

Lemma FeedManager_same_id_overwrites_witness :
  generateFeedId url_a = generateFeedId url_b /\
  exists f,
    FeedManager.feeds
      (FeedManager.addFeed (JStr url_b) ∅ 2000
         (FeedManager.addFeed (JStr url_a) ∅ 1000 FeedManager.empty).2).2
    !! generateFeedId url_a = Some f /\
    FeedManager.mget f "url" = FeedManager.Prim (JStr url_b).
Proof.
  assert (H : generateFeedId url_a = generateFeedId url_b) by (vm_compute; reflexivity).
  split; [exact H|].
  destruct (FeedManager_same_id_overwrites url_a url_b ∅ ∅ 1000 2000 FeedManager.empty H)
    as (_ & _ & Hurl).
  apply Hurl. apply lookup_empty.
Defined.

Lemma sys_removeFeed_known_witness :
  scheduledFeeds (sched (sys_world system_a)) !! generateFeedId url_a = Some record_a /\
  exists s',
    sys_removeFeed (generateFeedId url_a) system_a = (RemoveOk, s') /\
    scheduledFeeds (sched (sys_world s')) !! generateFeedId url_a = None /\
    FeedManager.feeds (sys_manager s') !! generateFeedId url_a = None.
Proof.
  assert (Hrec : scheduledFeeds (sched (sys_world system_a)) !! generateFeedId url_a
                 = Some record_a).
  { unfold system_a. rewrite sys_addFeed_world. exact world_a_record. }
  split; [exact Hrec|].
  destruct (sys_removeFeed_known (generateFeedId url_a) system_a record_a Hrec)
    as (s' & E & Hf & _ & Hm).
  exists s'. split; [exact E|]. rewrite Hf, Hm. split; apply lookup_delete_eq.
Defined.

Lemma fetch_unscheduled_url_witness :
  scheduledFeeds (sched fresh) !! generateFeedId url_a = None /\
  scheduledFeeds
    (sched (@fetchAndUpdateFeed sample_runtime (JStr url_a) no_fetch_options
              third_time_lucky fresh).2)
  = scheduledFeeds (sched fresh) /\
  saves (@fetchAndUpdateFeed sample_runtime (JStr url_a) no_fetch_options
           third_time_lucky fresh).2 = saves fresh.
Proof.
  assert (H : scheduledFeeds (sched fresh) !! generateFeedId url_a = None)
    by apply lookup_empty.
  split; [exact H|].
  exact (@fetch_unscheduled_url sample_runtime url_a no_fetch_options third_time_lucky
           fresh H).
Defined.


Lemma getNextRunTime_invalid_date_witness :
  @getNextRunTime sample_runtime (JStr "*/ * * * *") 1000 = InvalidDate /\
  exists e, JStr "*/ * * * *" = JStr e /\
            (String.prefix "*/" e = true \/ String.prefix "0 */" e = true).
Proof.
  assert (H1 : Z.abs 1000 <= max_time - 3600000) by (vm_compute; discriminate).
  assert (H2 : Z.abs (@next_local_midnight sample_runtime 1000) <= max_time)
    by (vm_compute; discriminate).
  assert (H3 : @getNextRunTime sample_runtime (JStr "*/ * * * *") 1000 = InvalidDate)
    by (vm_compute; reflexivity).
  split; [exact H3|].
  exact (@getNextRunTime_invalid_date sample_runtime (JStr "*/ * * * *") 1000 H1 H2 H3).
Defined.

(** ** updateFeedSchedule in every lifecycle state *)

Section UpdateLifecycle.
Context `{RT : Runtime}.

Lemma updateFeedSchedule_idle feedId newInterval now w t w' :
  running (sched w) = false \/ paused (sched w) = true ->
  updateFeedSchedule feedId newInterval now w = (UpdateOk t, w') ->
  activeJobs (sched w') = activeJobs (sched w) /\
  cronTasks w' = cronTasks w /\
  running (sched w') = running (sched w) /\
  paused (sched w') = paused (sched w).
Proof.
  intros Hidle. unfold updateFeedSchedule.
  destruct (scheduledFeeds (sched w) !! feedId); [|done].
  destruct (negb _); [done|].
  destruct (getNextRunTime _ _); [|done]. simpl.
  assert (running (sched w) && negb (paused (sched w)) = false) as ->
    by (destruct Hidle as [-> | ->]; [done|by rewrite andb_false_r]).
  by intros [= <- <-].
Qed.

Lemma updateFeedSchedule_interval feedId newInterval now w t w' :
  updateFeedSchedule feedId newInterval now w = (UpdateOk t, w') ->
  exists e rec',
    newInterval = JStr e /\
    cron_validate e = true /\
    scheduledFeeds (sched w') !! feedId = Some rec' /\
    get rec' "interval" = JStr e.
Proof.
  unfold updateFeedSchedule.
  destruct (scheduledFeeds (sched w) !! feedId) as [rec|] eqn:Hrec; [|done].
  destruct (valid (validateCronExpression newInterval)) eqn:Hv; [|done].
  apply validateCronExpression_valid in Hv as (e & -> & Hv). cbn [negb].
  destruct (getNextRunTime (JStr e) now) as [t'|]; [|done].
  set (w2 := saveScheduledFeeds _).
  assert (Hfeeds : scheduledFeeds (sched w2)
                   = <[feedId := <["nextRun" := JStr (Iso.format t')]>
                                   (<["interval" := JStr e]> rec)]>
                       (scheduledFeeds (sched w))).
  { subst w2. simpl.
    rewrite (alter_as_insert _ _ _ (<["interval" := JStr e]> rec))
      by (by rewrite lookup_alter_eq, Hrec).
    rewrite (alter_as_insert _ _ _ rec Hrec). apply insert_insert_eq. }
  intros H.
  assert (Hsame : scheduledFeeds (sched w') = scheduledFeeds (sched w2)).
  { destruct (running (sched w2) && negb (paused (sched w2)));
      [destruct (scheduledFeeds (sched w2) !! feedId) as [rec2|]|];
      injection H as <- <-; try done.
    by rewrite createCronJob_feeds, drop_job_feeds. }
  exists e, (<["nextRun" := JStr (Iso.format t')]> (<["interval" := JStr e]> rec)).
  split; [done|]. split; [done|].
  split; [by rewrite Hsame, Hfeeds, lookup_insert_eq|].
  rewrite get_insert_ne by done. apply get_insert_eq.
Qed.

(** C3, as amended.  A successful [updateFeedSchedule] stores the new
    interval in the feed's record.  While the scheduler is running and
    not paused it stops the task that the Job Table held for the feed
    and puts a new task in its place, scheduled with the new interval
    and running.  While the scheduler is paused or not running it
    leaves the Job Table and every task as they were; and [resume]
    after an update made while paused restarts the task that the Job
    Table holds for the feed, with the interval it was scheduled
    with. *)
Theorem updateFeedSchedule_recreates_job feedId newInterval now w t w' :
  updateFeedSchedule feedId newInterval now w = (UpdateOk t, w') ->
  (exists e rec',
      newInterval = JStr e /\
      cron_validate e = true /\
      scheduledFeeds (sched w') !! feedId = Some rec' /\
      get rec' "interval" = JStr e) /\
  (running (sched w) = true -> paused (sched w) = false ->
   exists e rec',
     newInterval = JStr e /\
     scheduledFeeds (sched w') !! feedId = Some rec' /\
     activeJobs (sched w') !! feedId = Some (length (cronTasks w)) /\
     cronTasks w' !! length (cronTasks w)
     = Some {| task_expression := e; task_url := get rec' "url";
               task_scheduled := true |} /\
     (forall h tk, activeJobs (sched w) !! feedId = Some h ->
                   cronTasks w !! h = Some tk ->
                   h ≠ length (cronTasks w) /\
                   cronTasks w' !! h = Some (set_task_scheduled false tk))) /\
  (running (sched w) = false \/ paused (sched w) = true ->
   activeJobs (sched w') = activeJobs (sched w) /\ cronTasks w' = cronTasks w) /\
  (running (sched w) = true -> paused (sched w) = true ->
   isPaused (resume w') = false /\
   activeJobs (sched (resume w')) = activeJobs (sched w) /\
   forall h tk, activeJobs (sched w) !! feedId = Some h ->
                cronTasks w !! h = Some tk ->
                cronTasks (resume w') !! h = Some (set_task_scheduled true tk) /\
                task_expression (set_task_scheduled true tk) = task_expression tk).
Proof.
  intros H. split; [by eapply updateFeedSchedule_interval|]. split; [|split].
  - intros Hr Hp.
    destruct (updateFeedSchedule_running_job _ _ _ _ _ _ Hr Hp H)
      as (e & rec' & He & _ & Hrec' & _ & Hj & Ht & Hold).
    by exists e, rec'.
  - intros Hidle.
    by destruct (updateFeedSchedule_idle _ _ _ _ _ _ Hidle H) as (? & ? & _).
  - intros Hr Hp.
    destruct (updateFeedSchedule_idle _ _ _ _ _ _ (or_intror Hp) H)
      as (Hj & Ht & Hr' & Hp').
    unfold resume, isPaused. rewrite Hr', Hp', Hr, Hp. simpl.
    split; [done|]. split; [done|].
    intros h tk Hh Htk. split; [|done].
    destruct (set_all_lookup true (activeJobs (sched w')) (cronTasks w'))
      as (_ & Hin & _).
    unfold start_all, job_start. rewrite (Hin h) by (exists feedId; by rewrite Hj).
    by rewrite Ht, Htk.
Qed.

(** *** removeFeed suspended at its await *)

(** The two halves with nothing in between are the method. *)
Lemma removeFeed_halves feedId store w :
  removeFeed feedId store w
  = match removeFeed_begin feedId w with
    | None => (RemoveFail "Scheduled feed not found", w)
    | Some w1 => removeFeed_end feedId store w1
    end.
Proof.
  unfold removeFeed, removeFeed_begin, removeFeed_end.
  destruct (scheduledFeeds (sched w) !! feedId); [|done]. by destruct store.
Qed.

(** [removeFeed] is not one step.  While the scheduler is running and
    not paused, an [updateFeedSchedule] of the same feed that runs while
    [removeFeed] awaits the Feed Store finds the record still stored and
    creates a task for it; [removeFeed] then deletes the record, and the
    Job Table is left with a running task for a feed that has no
    record. *)
Theorem removeFeed_overlap_leaves_job feedId store newInterval now w w1 t w2 :
  running (sched w) = true ->
  paused (sched w) = false ->
  removeFeed_begin feedId w = Some w1 ->
  updateFeedSchedule feedId newInterval now w1 = (UpdateOk t, w2) ->
  (forall m, store ≠ StoreThrow m) ->
  exists e tk w3,
    removeFeed_end feedId store w2 = (RemoveOk, w3) /\
    newInterval = JStr e /\
    scheduledFeeds (sched w3) !! feedId = None /\
    activeJobs (sched w3) !! feedId = Some (length (cronTasks w)) /\
    cronTasks w3 !! length (cronTasks w) = Some tk /\
    task_expression tk = e /\
    task_scheduled tk = true /\
    ~ dom (activeJobs (sched w3)) ⊆ dom (scheduledFeeds (sched w3)).
Proof.
  intros Hr Hp Hb Hu Hs.
  unfold removeFeed_begin in Hb.
  destruct (scheduledFeeds (sched w) !! feedId) as [rec|] eqn:Hrec; [|done].
  injection Hb as <-.
  assert (Hr1 : running (sched (call_store (StoreRemove feedId) (drop_job feedId w)))
                = true) by (simpl; by rewrite (proj1 (drop_job_flags _ _))).
  assert (Hp1 : paused (sched (call_store (StoreRemove feedId) (drop_job feedId w)))
                = false) by (simpl; by rewrite (proj2 (drop_job_flags _ _))).
  destruct (updateFeedSchedule_running_job _ _ _ _ _ _ Hr1 Hp1 Hu)
    as (e & rec' & He & _ & _ & _ & Hj & Ht & _).
  simpl in Hj, Ht. rewrite drop_job_length in Hj, Ht.
  assert (Hend : exists w3,
             removeFeed_end feedId store w2 = (RemoveOk, w3) /\
             scheduledFeeds (sched w3) = delete feedId (scheduledFeeds (sched w2)) /\
             activeJobs (sched w3) = activeJobs (sched w2) /\
             cronTasks w3 = cronTasks w2).
  { unfold removeFeed_end.
    destruct store as [|err|m]; [| |by destruct (Hs m)]; by eexists. }
  destruct Hend as (w3 & E & Hf3 & Hj3 & Ht3).
  exists e, {| task_expression := e; task_url := get rec' "url"; task_scheduled := true |}, w3.
  split_and!; try done.
  - rewrite Hf3. apply lookup_delete_eq.
  - by rewrite Hj3.
  - by rewrite Ht3.
  - intros Hsub.
    assert (Hin : feedId ∈ dom (activeJobs (sched w3)))
      by (apply elem_of_dom; rewrite Hj3, Hj; by eexists).
    apply Hsub, elem_of_dom in Hin as [r Hin].
    rewrite Hf3, lookup_delete_eq in Hin. done.
Qed.

(** *** The loop of fetchAndUpdateFeed for any budget *)

Lemma retry_loop_with_defined fuel url N a envs w r w' :
  a <= N ->
  retry_loop_with fuel url (Value (JNum N)) a envs w = Some (r, w') ->
  r ≠ FetchUndefined.
Proof.
  revert a w. induction fuel as [|fuel IH]; intros a w Ha; [done|].
  simpl retry_loop_with.
  change (attempt_allowed a (Value (JNum N))) with (a <=? N).
  destruct (a <=? N) eqn:E; [|lia].
  rewrite attempt_body_with_whole. unfold attempt_body.
  destruct (try_attempt url a (envs a) w) as [[res|msg] w1] eqn:Ht.
  - intros [= <- <-]. by eapply try_attempt_defined.
  - destruct (a =? N) eqn:En.
    + pose proof (final_failure_defined url N msg (at_time (envs a)) w1) as Hd.
      destruct (final_failure url N msg (at_time (envs a)) w1). by intros [= <- <-].
    + apply IH. lia.
Qed.

(** When the loop of [fetchAndUpdateFeed] ends without a [return].
    With a budget that is a whole number, at least 1, the method
    returns a result or throws within that many attempts, never
    [undefined].  With a budget that allows [K] attempts, none of which
    it strictly equals (0, a negative number, NaN, ['3'], [1.5]), and a
    fetcher that fails on each of them, the method returns [undefined]
    and has changed nothing.  With the budget [Infinity] and a fetcher
    that always fails, it does not return. *)
Theorem fetch_ends_undefined url (call own : retry_value) envs w :
  (forall N, value_or call own = Value (JNum N) -> 1 <= N ->
     (exists r w', fetchAndUpdateFeed_with (Z.to_nat N) url call own envs w
                   = Some (r, w')) /\
     (forall fuel r w', fetchAndUpdateFeed_with fuel url call own envs w = Some (r, w') ->
                        r ≠ FetchUndefined)) /\
  (forall K, 0 <= K ->
     (forall a, 1 <= a <= K ->
                attempt_allowed a (value_or call own) = true /\
                attempt_is_last a (value_or call own) = false /\
                exists e, fetched (envs a) = ImportFail e) ->
     attempt_allowed (K + 1) (value_or call own) = false ->
     forall fuel, (Z.to_nat K < fuel)%nat ->
                  fetchAndUpdateFeed_with fuel url call own envs w
                  = Some (FetchUndefined, w)) /\
  (value_or call own = Infinite false ->
   (forall a, 1 <= a -> exists e, fetched (envs a) = ImportFail e) ->
   forall fuel, fetchAndUpdateFeed_with fuel url call own envs w = None).
Proof.
  unfold fetchAndUpdateFeed_with. split_and!.
  - intros N -> HN. split.
    + rewrite retry_loop_with_whole by lia.
      destruct (retry_loop _ _ _ _ _ _) as [r w']. by exists r, w'.
    + intros fuel r w'. apply retry_loop_with_defined. lia.
  - intros K HK Hfail Hend fuel Hfuel.
    replace fuel with (Z.to_nat K + S (fuel - Z.to_nat K - 1))%nat by lia.
    rewrite retry_loop_with_failing.
    + replace (1 + Z.of_nat (Z.to_nat K)) with (K + 1) by lia.
      simpl. by rewrite Hend.
    + intros i Hi. destruct (Hfail i ltac:(lia)) as (_ & Hl & He). by split.
    + intros i Hi. by destruct (Hfail i ltac:(lia)) as (Ha & _).
  - intros -> Hfail fuel.
    assert (H : forall a, 1 <= a ->
                          retry_loop_with fuel url (Infinite false) a envs w = None).
    { induction fuel as [|fuel IH]; intros a Ha; [done|].
      simpl. destruct (Hfail a Ha) as [e He].
      unfold attempt_body_with, try_attempt. rewrite He. simpl. apply IH. lia. }
    by apply H.
Qed.

End UpdateLifecycle.

Lemma updateFeedSchedule_recreates_job_witness :
  let w := @run sample_runtime
             [ OpAddFeed (JStr url_a) {[ "interval" := JStr "*/5 * * * *" ]} StoreOk 1000;
               OpStart ] fresh in
  let res := @updateFeedSchedule sample_runtime id_a (JStr "*/10 * * * *") 2000 w in
  let paused_res :=
    @updateFeedSchedule sample_runtime id_a (JStr "*/10 * * * *") 2000 world_paused in
  (running (sched w) = true /\
   paused (sched w) = false /\
   res.1 = UpdateOk 602000 /\
   activeJobs (sched w) !! id_a = Some 0%nat /\
   activeJobs (sched res.2) !! id_a = Some 1%nat /\
   (task_expression <$> cronTasks res.2 !! 1%nat) = Some "*/10 * * * *" /\
   (task_scheduled <$> cronTasks res.2 !! 0%nat) = Some false) /\
  (running (sched world_paused) = true /\
   paused (sched world_paused) = true /\
   paused_res.1 = UpdateOk 602000 /\
   activeJobs (sched paused_res.2) = activeJobs (sched world_paused) /\
   cronTasks paused_res.2 = cronTasks world_paused /\
   cronTasks (resume paused_res.2) !! 0%nat
   = Some {| task_expression := "*/5 * * * *"; task_url := JStr url_a;
             task_scheduled := true |}).
Proof.
  intros w res paused_res. split.
  - assert (Hr : running (sched w) = true) by (vm_compute; reflexivity).
    assert (Hp : paused (sched w) = false) by (vm_compute; reflexivity).
    assert (H1 : res.1 = UpdateOk 602000) by (vm_compute; reflexivity).
    assert (Hl : length (cronTasks w) = 1%nat) by (vm_compute; reflexivity).
    assert (Hj : activeJobs (sched w) !! id_a = Some 0%nat) by (vm_compute; reflexivity).
    assert (Ht : cronTasks w !! 0%nat
                 = Some {| task_expression := "*/5 * * * *"; task_url := JStr url_a;
                           task_scheduled := true |}) by (vm_compute; reflexivity).
    assert (E : @updateFeedSchedule sample_runtime id_a (JStr "*/10 * * * *") 2000 w
                = (UpdateOk 602000, res.2)).
    { rewrite <- H1. exact (surjective_pairing res). }
    destruct (@updateFeedSchedule_recreates_job sample_runtime id_a (JStr "*/10 * * * *")
                2000 w 602000 res.2 E) as (_ & Hrun & _).
    destruct (Hrun Hr Hp) as (e & rec' & He & _ & Hj' & Ht' & Hold).
    injection He as <-. rewrite Hl in Hj', Ht'.
    destruct (Hold _ _ Hj Ht) as [_ H0].
    split; [exact Hr|]. split; [exact Hp|]. split; [exact H1|]. split; [exact Hj|].
    split; [exact Hj'|]. split; [rewrite Ht'; reflexivity | rewrite H0; reflexivity].
  - assert (Hr : running (sched world_paused) = true) by (vm_compute; reflexivity).
    assert (Hp : paused (sched world_paused) = true) by (vm_compute; reflexivity).
    assert (H1 : paused_res.1 = UpdateOk 602000) by (vm_compute; reflexivity).
    assert (Hj : activeJobs (sched world_paused) !! id_a = Some 0%nat)
      by (vm_compute; reflexivity).
    assert (Ht : cronTasks world_paused !! 0%nat
                 = Some {| task_expression := "*/5 * * * *"; task_url := JStr url_a;
                           task_scheduled := false |}) by (vm_compute; reflexivity).
    assert (E : @updateFeedSchedule sample_runtime id_a (JStr "*/10 * * * *") 2000
                  world_paused
                = (UpdateOk 602000, paused_res.2)).
    { rewrite <- H1. exact (surjective_pairing paused_res). }
    destruct (@updateFeedSchedule_recreates_job sample_runtime id_a (JStr "*/10 * * * *")
                2000 world_paused 602000 paused_res.2 E) as (_ & _ & Hidle & Hres).
    destruct (Hidle (or_intror Hp)) as [Hj' Ht'].
    destruct (Hres Hr Hp) as (_ & _ & Hold).
    destruct (Hold _ _ Hj Ht) as [H0 _].
    split; [exact Hr|]. split; [exact Hp|]. split; [exact H1|]. split; [exact Hj'|].
    split; [exact Ht'|exact H0].
Defined.

Lemma removeFeed_overlap_leaves_job_witness :
  let w1 := call_store (StoreRemove (generateFeedId url_a))
              (drop_job (generateFeedId url_a) world_running) in
  let res :=
    @updateFeedSchedule sample_runtime (generateFeedId url_a) (JStr "*/10 * * * *") 2000
      w1 in
  removeFeed_begin (generateFeedId url_a) world_running = Some w1 /\
  res.1 = UpdateOk 602000 /\
  exists w3,
    removeFeed_end (generateFeedId url_a) StoreOk res.2 = (RemoveOk, w3) /\
    scheduledFeeds (sched w3) !! generateFeedId url_a = None /\
    activeJobs (sched w3) !! generateFeedId url_a = Some 1%nat /\
    (task_scheduled <$> cronTasks w3 !! 1%nat) = Some true /\
    (task_expression <$> cronTasks w3 !! 1%nat) = Some "*/10 * * * *".
Proof.
  intros w1 res.
  assert (Hr : running (sched world_running) = true) by (vm_compute; reflexivity).
  assert (Hp : paused (sched world_running) = false) by (vm_compute; reflexivity).
  assert (Hl : length (cronTasks world_running) = 1%nat) by (vm_compute; reflexivity).
  assert (Hrec : scheduledFeeds (sched world_running) !! generateFeedId url_a
                 = Some record_a).
  { change world_running with (@start sample_runtime world_a).
    rewrite start_feeds. exact world_a_record. }
  assert (Hb : removeFeed_begin (generateFeedId url_a) world_running = Some w1).
  { unfold removeFeed_begin. rewrite Hrec. reflexivity. }
  assert (H1 : res.1 = UpdateOk 602000) by (vm_compute; reflexivity).
  assert (E : @updateFeedSchedule sample_runtime (generateFeedId url_a)
                (JStr "*/10 * * * *") 2000 w1
              = (UpdateOk 602000, res.2)).
  { rewrite <- H1. exact (surjective_pairing res). }
  assert (Hs : forall m, StoreOk ≠ StoreThrow m) by (intros m; discriminate).
  destruct (@removeFeed_overlap_leaves_job sample_runtime (generateFeedId url_a) StoreOk
              (JStr "*/10 * * * *") 2000 world_running w1 602000 res.2 Hr Hp Hb E Hs)
    as (e & tk & w3 & E3 & He & Hf & Hj & Ht & Hte & Hts & _).
  injection He as <-. rewrite Hl in Hj, Ht.
  split; [exact Hb|]. split; [exact H1|].
  exists w3. split; [exact E3|]. split; [exact Hf|]. split; [exact Hj|].
  rewrite Ht. simpl. rewrite Hte, Hts. split; reflexivity.
Defined.

Lemma fetch_ends_undefined_witness :
  fst <$> @fetchAndUpdateFeed_with sample_runtime 4 (JStr url_a) (Value (JStr "3"))
            (Value (JNum 3)) always_failing world_a
  = Some FetchUndefined /\
  @fetchAndUpdateFeed_with sample_runtime 2 (JStr url_a) (Fraction 3 2)
    (Value (JNum 3)) always_failing world_a
  = Some (FetchUndefined, world_a) /\
  @fetchAndUpdateFeed_with sample_runtime 1 (JStr url_a) (Value (JNum (-1)))
    (Value (JNum 3)) always_failing world_a
  = Some (FetchUndefined, world_a).
Proof.
  assert (Hfail : forall a, exists e, fetched (always_failing a) = ImportFail e)
    by (intros a; exists "timeout"; reflexivity).
  split; [|split].
  - destruct (@fetch_ends_undefined sample_runtime (JStr url_a) (Value (JStr "3"))
                (Value (JNum 3)) always_failing world_a) as (_ & Hund & _).
    rewrite (Hund 3); [reflexivity|lia| |reflexivity|lia].
    intros a Ha. split; [|split; [reflexivity|apply Hfail]].
    change (value_or (Value (JStr "3")) (Value (JNum 3))) with (Value (JStr "3")).
    change (attempt_allowed a (Value (JStr "3"))) with (a <=? 3). lia.
  - destruct (@fetch_ends_undefined sample_runtime (JStr url_a) (Fraction 3 2)
                (Value (JNum 3)) always_failing world_a) as (_ & Hund & _).
    apply (Hund 1); [lia| |reflexivity|lia].
    intros a Ha. assert (a = 1) as -> by lia.
    split; [reflexivity|split; [reflexivity|apply Hfail]].
  - destruct (@fetch_ends_undefined sample_runtime (JStr url_a) (Value (JNum (-1)))
                (Value (JNum 3)) always_failing world_a) as (_ & Hund & _).
    apply (Hund 0); [lia| |reflexivity|lia].
    intros a Ha. lia.
Defined.
